(** * moz-idb-edit: identifier resolvers, origin directory names and the
    JSON-flavoured pretty-printer of [mozidbedit/__init__.py]

    The development embeds the Python functions as Rocq functions.
    - A Python [str] is a [string]: a sequence of code points, here the
      code points below 256.
    - A value produced by [json.load] is a tree ([json]); nothing in the
      resolvers mutates such a value or looks at its identity.
    - The values handed to the pretty-printer are objects on a heap, named
      by handles; [id(object)] is a separate assignment of integers to
      handles, because the printer keys its bookkeeping and its fallback
      order on it.
    - A Python exception is an explicit outcome ([Raise]). *)

From Stdlib Require Import ZArith Ascii String DecimalString DecimalZ DecimalPos.
From Stdlib Require Import Floats.SpecFloat.
From stdpp Require Import gmap strings list sets.

Local Open Scope Z_scope.

(** ** Python strings *)

Module PyStr.

(** The double quote character. *)
Definition dquote : ascii := ascii_of_N 34.

Definition quoted (s : string) : string :=
  String dquote (s +:+ String dquote EmptyString).

(** [s.replace(old, new)] for one-character [old] and [new]. *)
Fixpoint replace (old new : ascii) (s : string) : string :=
  match s with
  | EmptyString => EmptyString
  | String c s' =>
      String (if Ascii.eqb c old then new else c) (replace old new s')
  end.

(** [s.startswith(p)]. *)
Fixpoint startswith (p s : string) : bool :=
  match p, s with
  | EmptyString, _ => true
  | String _ _, EmptyString => false
  | String a p', String b s' => Ascii.eqb a b && startswith p' s'
  end.

(** [s[n:]]. *)
Fixpoint drop (n : nat) (s : string) : string :=
  match n, s with
  | O, _ => s
  | S _, EmptyString => EmptyString
  | S n', String _ s' => drop n' s'
  end.

(** [s.removeprefix(p)]. *)
Definition removeprefix (p s : string) : string :=
  if startswith p s then drop (String.length p) s else s.

(** The leftmost occurrence of the non-empty [sep] in [s]: what is before
    it and what is after it.  [sep in s] is [is_Some (partition sep s)]. *)
Fixpoint partition (sep s : string) : option (string * string) :=
  if startswith sep s then Some (EmptyString, drop (String.length sep) s)
  else match s with
       | EmptyString => None
       | String c s' =>
           match partition sep s' with
           | Some (before, after) => Some (String c before, after)
           | None => None
           end
       end.

(** [sep in s]. *)
Definition contains (sep s : string) : bool :=
  match partition sep s with Some _ => true | None => false end.

(** [s.split(sep, 1)]: one or two pieces. *)
Definition split1 (sep s : string) : list string :=
  match partition sep s with
  | Some (before, after) => [before; after]
  | None => [s]
  end.

(** [c in s] for a character. *)
Fixpoint has_char (c : ascii) (s : string) : bool :=
  match s with
  | EmptyString => false
  | String a s' => Ascii.eqb a c || has_char c s'
  end.

(** [c.lower()] on the code points below 256: A-Z, and the capital letters
    of the Latin-1 block (U+00C0-U+00DE without the multiplication sign),
    move up by 32. *)
Definition lower_char (c : ascii) : ascii :=
  let n := N_of_ascii c in
  if ((65 <=? n) && (n <=? 90))%N then ascii_of_N (n + 32)
  else if ((192 <=? n) && (n <=? 222) && negb (n =? 215))%N
       then ascii_of_N (n + 32)
       else c.

(** Whitespace as [int()] strips it: tab to carriage return, the space,
    and U+0085 and U+00A0 of the Latin-1 block. *)
Definition is_space (c : ascii) : bool :=
  let n := N_of_ascii c in
  ((9 <=? n) && (n <=? 13) || (n =? 32) || (n =? 133) || (n =? 160))%N.

Definition digit_value (c : ascii) : option Z :=
  let n := N_of_ascii c in
  if ((48 <=? n) && (n <=? 57))%N then Some (Z.of_N n - 48) else None.

Fixpoint lstrip (s : string) : string :=
  match s with
  | String c s' => if is_space c then lstrip s' else s
  | EmptyString => EmptyString
  end.

(** The digits of a decimal literal after its first digit: digits, single
    underscores between digits, then only whitespace. *)
Fixpoint int_digits (acc : Z) (s : string) : option Z :=
  match s with
  | EmptyString => Some acc
  | String c s' =>
      match digit_value c with
      | Some d => int_digits (10 * acc + d) s'
      | None =>
          if Ascii.eqb c "_" then
            match s' with
            | String c' s'' =>
                match digit_value c' with
                | Some d => int_digits (10 * acc + d) s''
                | None => None
                end
            | EmptyString => None
            end
          else if is_space c then
            match lstrip s' with EmptyString => Some acc | _ => None end
          else None
      end
  end.

Definition int_unsigned (s : string) : option Z :=
  match s with
  | String c s' =>
      match digit_value c with
      | Some d => int_digits d s'
      | None => None
      end
  | EmptyString => None
  end.

(** [int(s)] for a string [s]; [None] is [ValueError].  The bound that
    CPython puts on the number of digits of such a conversion (4300) is not
    modelled: the integers of the model stay below it. *)
Definition int (s : string) : option Z :=
  match lstrip s with
  | String "-" s' => Z.opp <$> int_unsigned s'
  | String "+" s' => int_unsigned s'
  | s' => int_unsigned s'
  end.

(** [str(n)], also what an f-string writes for an integer. *)
Definition str_of_int (n : Z) : string := NilZero.string_of_int (Z.to_int n).

End PyStr.

(** ** Exceptions and JSON values *)

Inductive exc :=
| AssertionError | AttributeError | FileNotFoundError | IndexError
| KeyError | OSError | OverflowError | RecursionError | TypeError
| ValueError.

Inductive result (A : Type) :=
| Ok (a : A)
| Raise (e : exc).
Arguments Ok {A} a.
Arguments Raise {A} e.

Definition bind {A B} (r : result A) (k : A -> result B) : result B :=
  match r with Ok a => k a | Raise e => Raise e end.

Notation "'try!' x ':=' r 'in' k" := (bind r (fun x => k))
  (at level 10, x name, r at level 100, k at level 200).

(** What [json.load] builds.  [JObj] lists the items of the resulting [dict]
    in insertion order, each key once; [JFloat] is a binary64 value. *)
#[warnings="-register-all"]
Inductive json :=
| JNull
| JBool (b : bool)
| JInt (n : Z)
| JFloat (f : spec_float)
| JStr (s : string)
| JArr (l : list json)
| JObj (items : list (string * json)).

Module Py.

Fixpoint dict_lookup (k : string) (items : list (string * json)) : option json :=
  match items with
  | [] => None
  | (k', v) :: rest => if String.eqb k' k then Some v else dict_lookup k rest
  end.

(** [d[k]] for a string [k]. *)
Definition subscript (d : json) (k : string) : result json :=
  match d with
  | JObj items =>
      match dict_lookup k items with Some v => Ok v | None => Raise KeyError end
  | _ => Raise TypeError
  end.

(** [d.get(k)], which is [d.get(k, None)]. *)
Definition get (d : json) (k : string) : result json :=
  match d with
  | JObj items => Ok (default JNull (dict_lookup k items))
  | _ => Raise AttributeError
  end.

Definition float_eq_int (f : spec_float) (n : Z) : bool :=
  match f with
  | S754_zero _ => n =? 0
  | S754_finite sign m e =>
      let v := if sign then Z.neg m else Z.pos m in
      if 0 <=? e then n =? v * 2 ^ e else n * 2 ^ (- e) =? v
  | _ => false
  end.

(** [v == n] for an integer [n]. *)
Definition eq_int (v : json) (n : Z) : bool :=
  match v with
  | JInt m => m =? n
  | JBool b => (if b then 1 else 0) =? n
  | JFloat f => float_eq_int f n
  | _ => false
  end.

(** [int(v)]. *)
Definition int (v : json) : result Z :=
  match v with
  | JInt n => Ok n
  | JBool b => Ok (if b then 1 else 0)
  | JFloat (S754_zero _) => Ok 0
  | JFloat (S754_finite sign m e) =>
      let a := if 0 <=? e then Z.pos m * 2 ^ e else Z.pos m / 2 ^ (- e) in
      Ok (if sign then - a else a)
  | JFloat (S754_infinity _) => Raise OverflowError
  | JFloat S754_nan => Raise ValueError
  | JStr s =>
      match PyStr.int s with Some n => Ok n | None => Raise ValueError end
  | _ => Raise TypeError
  end.

Fixpoint chars (s : string) : list json :=
  match s with
  | EmptyString => []
  | String c s' => JStr (String c EmptyString) :: chars s'
  end.

(** The items a [for] loop over [v] sees. *)
Definition iterate (v : json) : result (list json) :=
  match v with
  | JArr l => Ok l
  | JObj items => Ok (map (fun kv => JStr (fst kv)) items)
  | JStr s => Ok (chars s)
  | _ => Raise TypeError
  end.

End Py.

(** ** Identifier resolvers *)

Definition USER_CONTEXT_WEB_EXT : string :=
  "userContextIdInternal.webextStorageLocal".

(** How a generator ends: it runs off its end, its [except] clause prints
    the diagnostic and returns, or an exception leaves it. *)
Inductive gen_end :=
| Exhausted
| Diagnosed (e : exc)
| Crashed (e : exc).

(** A generator, as a consumer sees it: the items it yields, in order, and
    how it ends after the last one.  A consumer that stops early never meets
    the end. *)
Record generated (A : Type) := Generated {
  yielded : list A;
  ending : gen_end
}.
Arguments Generated {A} yielded ending.
Arguments yielded {A} g.
Arguments ending {A} g.

(** [containers.json] as [open] and [json.load] find it: not there, not to
    be opened for another reason (an [OSError] that is no
    [FileNotFoundError]), not JSON ([json.load] raises a [ValueError]), or
    holding the value [data]. *)
Inductive containers_file :=
| FileMissing
| FileUnreadable
| FileNotJson
| FileJson (data : json).

Definition load_containers (f : containers_file) : result json :=
  match f with
  | FileMissing => Raise FileNotFoundError
  | FileUnreadable => Raise OSError
  | FileNotJson => Raise ValueError
  | FileJson data => Ok data
  end.

(** The name synthesised from [l10nID] under version 4. *)
Definition name_v4 (l10nID : json) : result json :=
  match l10nID with
  | JStr s =>
      let name := match PyStr.partition "." s with
                  | Some (before, _) => before
                  | None => s
                  end in
      if PyStr.startswith "userContext" name then
        match PyStr.drop 11 name with
        | String c rest => Ok (JStr (String (PyStr.lower_char c) rest))
        | EmptyString => Raise IndexError
        end
      else Ok (JStr name)
  | _ => Raise AttributeError
  end.

(** The name synthesised from [l10nId] under version 5. *)
Definition name_v5 (l10nId : json) : result json :=
  match l10nId with
  | JStr s => Ok (JStr (PyStr.removeprefix "user-context-" s))
  | _ => Raise AttributeError
  end.

(** One turn of the loop over [data["identities"]]: the pair it yields. *)
Definition context_of_identity (version identity : json) : result (Z * json) :=
  try! name := Py.get identity "name" in
  try! name :=
    match name with
    | JNull =>
        if Py.eq_int version 4 then
          try! l := Py.subscript identity "l10nID" in name_v4 l
        else if Py.eq_int version 5 then
          try! l := Py.subscript identity "l10nId" in name_v5 l
        else Ok JNull
    | _ => Ok name
    end in
  try! uid := Py.subscript identity "userContextId" in
  try! n := Py.int uid in
  Ok (n, name).

(** The [except (AssertionError, FileNotFoundError, ValueError)] clause: it
    prints the diagnostic and returns, which ends the generator (the value
    of the [return] is not yielded); any other exception passes through. *)
Definition contexts_handler (e : exc) : gen_end :=
  match e with
  | AssertionError | FileNotFoundError | ValueError => Diagnosed e
  | _ => Crashed e
  end.

Fixpoint contexts_loop (version : json) (identities : list json)
  : generated (Z * json) :=
  match identities with
  | [] => Generated [] Exhausted
  | identity :: rest =>
      match context_of_identity version identity with
      | Ok item =>
          let g := contexts_loop version rest in
          Generated (item :: yielded g) (ending g)
      | Raise e => Generated [] (contexts_handler e)
      end
  end.

(** What precedes the loop: the file is loaded, the version asserted and
    [data["identities"]] made ready for iteration. *)
Definition contexts_prologue (f : containers_file) : result (json * list json) :=
  try! data := load_containers f in
  try! version := Py.subscript data "version" in
  if Py.eq_int version 4 || Py.eq_int version 5 then
    try! identities := Py.subscript data "identities" in
    try! l := Py.iterate identities in
    Ok (version, l)
  else Raise AssertionError.

Definition read_user_contexts (f : containers_file) : generated (Z * json) :=
  match contexts_prologue f with
  | Ok (version, identities) => contexts_loop version identities
  | Raise e => Generated [] (contexts_handler e)
  end.

(** [ctx_name == name] for a string [name]. *)
Definition name_eq (ctx_name : json) (name : string) : bool :=
  match ctx_name with JStr s => String.eqb s name | _ => false end.

Fixpoint first_id_named (name : string) (items : list (Z * json)) : option Z :=
  match items with
  | [] => None
  | (ctx_id, ctx_name) :: rest =>
      if name_eq ctx_name name then Some ctx_id else first_id_named name rest
  end.

Definition find_context_id_by_name (f : containers_file) (name : string)
  : result Z :=
  let g := read_user_contexts f in
  match first_id_named name (yielded g) with
  | Some ctx_id => Ok ctx_id
  | None =>
      match ending g with
      | Crashed e => Raise e
      | _ =>
          if String.eqb name USER_CONTEXT_WEB_EXT then Ok 4294967295
          else Raise KeyError
      end
  end.

Fixpoint first_name_of_id (id : Z) (items : list (Z * json)) : option json :=
  match items with
  | [] => None
  | (ctx_id, ctx_name) :: rest =>
      if ctx_id =? id then Some ctx_name else first_name_of_id id rest
  end.

Definition find_context_name_by_id (f : containers_file) (id : Z)
  : result json :=
  let g := read_user_contexts f in
  match first_name_of_id id (yielded g) with
  | Some ctx_name => Ok ctx_name
  | None =>
      match ending g with
      | Crashed e => Raise e
      | _ => Raise KeyError
      end
  end.

Section Preferences.

(** [json.loads] on a [str]: the value, or [None] for the [ValueError] it
    raises on text that is not JSON. *)
Variable json_loads : string -> option json.

(** [json.loads(value)] on whatever a preference holds. *)
Definition loads_value (value : json) : result json :=
  match value with
  | JStr s =>
      match json_loads s with Some v => Ok v | None => Raise ValueError end
  | _ => Raise TypeError
  end.

(** [prefs] is what [read_user_prefs] yields, in file order.  Falling off
    the loop returns [None], which is [JNull] here. *)
Fixpoint find_uuid_by_ext_id (prefs : list (string * json)) (ext_id : string)
  : result json :=
  match prefs with
  | [] => Ok JNull
  | (name, value) :: rest =>
      if String.eqb name "extensions.webextensions.uuids" then
        match loads_value value with
        | Ok parsed => Py.get parsed ext_id
        | Raise ValueError => find_uuid_by_ext_id rest ext_id
        | Raise e => Raise e
        end
      else find_uuid_by_ext_id rest ext_id
  end.

End Preferences.

(** ** Origin directory names *)

Module Codec.

Definition CTX_MARKER : string := "^userContextId=".

(** The directory name [main] builds for [--site], from the site as given
    on the command line and the context id in force ([0]: the default). *)
Definition site_name (site : string) (ctx_id : Z) : string :=
  let site_name := PyStr.replace "/" "+" (PyStr.replace ":" "+" site) in
  if ctx_id =? 0 then site_name
  else site_name +:+ CTX_MARKER +:+ PyStr.str_of_int ctx_id.

(** The directory name [main] builds for [--extension]. *)
Definition origin_label (ext_uuid : string) (ctx_id : Z) : string :=
  let origin_label := "moz-extension+++" +:+ ext_uuid in
  if ctx_id =? 0 then origin_label
  else origin_label +:+ CTX_MARKER +:+ PyStr.str_of_int ctx_id.

(** A site is written [scheme://host], as [--list-sites] prints it; an
    absent container leaves the context id at its default. *)
Definition encode (scheme host : string) (containerId : option Z) : string :=
  site_name (scheme +:+ "://" +:+ host) (default 0 containerId).

(** The local variables of one turn of the [--list-sites] loop, before the
    container name is looked up: [ctx_name] is the text after the marker
    (empty without one) and [ctx_id] the integer it denotes, when the marker
    is there and [int] accepts the text. *)
Record site_key := SiteKey {
  scheme : string;
  netloc : string;
  ctx_name : string;
  ctx_id : option Z
}.

Definition split_ctx (name : string) : string * string :=
  match PyStr.partition CTX_MARKER name with
  | Some (encoded_origin, ctx_name) => (encoded_origin, ctx_name)
  | None => (name, EmptyString)
  end.

Definition split_origin (encoded_origin : string) : result (string * string) :=
  match PyStr.split1 "+++" encoded_origin with
  | [scheme; netloc] =>
      Ok (scheme,
          if String.eqb scheme "file" then PyStr.replace "+" "/" netloc
          else PyStr.replace "+" ":" netloc)
  | _ => Raise ValueError
  end.

Definition decode (name : string) : result site_key :=
  let '(encoded_origin, ctx_name) := split_ctx name in
  let ctx_id :=
    if PyStr.contains CTX_MARKER name then PyStr.int ctx_name else None in
  try! origin := split_origin encoded_origin in
  Ok (SiteKey (fst origin) (snd origin) ctx_name ctx_id).

(** The (scheme, host, containerId) a directory name stands for. *)
Definition origin_key (k : site_key) : string * string * option Z :=
  (scheme k, netloc k, ctx_id k).

(** One turn of the [--list-sites] loop for a directory that passed the two
    [continue] tests: the pair appended to [sites]. *)
Definition site_listing_entry (f : containers_file) (name : string)
  : result (string * json) :=
  let '(encoded_origin, ctx_name) := split_ctx name in
  try! shown :=
    if PyStr.contains CTX_MARKER name then
      match PyStr.int ctx_name with
      | None => Ok (JStr ctx_name)
      | Some ctx_id =>
          match find_context_name_by_id f ctx_id with
          | Ok found => Ok found
          | Raise KeyError => Ok (JStr ctx_name)
          | Raise e => Raise e
          end
      end
    else Ok (JStr ctx_name) in
  try! origin := split_origin encoded_origin in
  Ok (fst origin +:+ "://" +:+ snd origin, shown).

(** The encoder as the specification words it: [/] becomes [+] in the host
    for the scheme [file], [:] becomes [+] for any other scheme. *)
Definition encode_spec (scheme host : string) (containerId : option Z)
  : string :=
  let host' := if String.eqb scheme "file" then PyStr.replace "/" "+" host
               else PyStr.replace ":" "+" host in
  let base := scheme +:+ "+++" +:+ host' in
  match containerId with
  | Some n => if n =? 0 then base
              else base +:+ CTX_MARKER +:+ PyStr.str_of_int n
  | None => base
  end.

(** Both substitutions of [site_name]. *)
Definition plus_all (s : string) : string :=
  PyStr.replace "/" "+" (PyStr.replace ":" "+" s).

(** What [site_name] appends for a container. *)
Definition ctx_suffix (containerId : option Z) : string :=
  match containerId with
  | Some n => if n =? 0 then EmptyString
              else CTX_MARKER +:+ PyStr.str_of_int n
  | None => EmptyString
  end.

(** [decode], read as the (scheme, host, containerId) of the name. *)
Definition decode_key (name : string) : result (string * string * option Z) :=
  try! k := decode name in Ok (origin_key k).

End Codec.

(** ** The pretty-printer *)

Module Printer.

(** Objects live on a heap and are named by handles.  The handle of an
    object is fixed by the heap; its identity [id(object)] is what one run
    of the interpreter assigns to it. *)
Abbreviation handle := positive.

(** Objects whose type is in [_builtin_scalars]. *)
Inductive scalar :=
| SNone
| SBool (b : bool)
| SInt (n : Z)
| SFloat (f : spec_float)
| SStr (s : string)
| SBytes (data : string)
| SBytearray (data : string)
| SComplex (re im : spec_float).

(** Modelled from the spec: the connection class [mozidb.IndexedDB] is not
    among the sources.  The spec's ObjectStoreHandle offers "fetch all
    pairs" and "count"; [read_objects] lists the items of the mapping the
    first returns, in its order, and [count_objects] is the second. *)
Record connection := Connection {
  read_objects : list (handle * handle);
  count_objects : nat
}.

(** The objects the printer tells apart: [NotImplemented], the scalars, a
    [dict], a Projection ([IDBObjectWrapper]) over a connection, a [list],
    a [tuple], and any other object, given by [type(object).__name__],
    [str(type(object))] and [repr(object)].  Subclasses of the containers
    are not modelled. *)
Inductive object :=
| NotImplementedObj
| Scalar (s : scalar)
| Dict (items : list (handle * handle))
| Wrapper (conn : connection)
| List (elems : list handle)
| Tuple (elems : list handle)
| Opaque (cls cls_str rep : string).

#[global] Instance object_inhabited : Inhabited object :=
  populate (Scalar SNone).

(** A handle outside the heap reads as [None]. *)
Abbreviation heap := (gmap handle object).

(** [type(object).__name__]. *)
Definition type_name (o : object) : string :=
  match o with
  | NotImplementedObj => "NotImplementedType"
  | Scalar SNone => "NoneType"
  | Scalar (SBool _) => "bool"
  | Scalar (SInt _) => "int"
  | Scalar (SFloat _) => "float"
  | Scalar (SStr _) => "str"
  | Scalar (SBytes _) => "bytes"
  | Scalar (SBytearray _) => "bytearray"
  | Scalar (SComplex _ _) => "complex"
  | Dict _ => "dict"
  | Wrapper _ => "IDBObjectWrapper"
  | List _ => "list"
  | Tuple _ => "tuple"
  | Opaque cls _ _ => cls
  end.

(** [str(type(object))]. *)
Definition type_str (o : object) : string :=
  match o with
  | Wrapper _ => "<class 'mozidbedit.IDBObjectWrapper'>"
  | Opaque _ cls_str _ => cls_str
  | _ => "<class '" +:+ type_name o +:+ "'>"
  end.

Definition hex_digit (n : N) : ascii :=
  if (n <? 10)%N then ascii_of_N (48 + n) else ascii_of_N (87 + n).

(** One character of a string inside [json.dumps(s, ensure_ascii=False)]. *)
Definition escape_char (c : ascii) : string :=
  let n := N_of_ascii c in
  if (n =? 34)%N then String "\" (String PyStr.dquote EmptyString)
  else if (n =? 92)%N then String "\" (String "\" EmptyString)
  else if (n =? 8)%N then String "\" (String "b" EmptyString)
  else if (n =? 12)%N then String "\" (String "f" EmptyString)
  else if (n =? 10)%N then String "\" (String "n" EmptyString)
  else if (n =? 13)%N then String "\" (String "r" EmptyString)
  else if (n =? 9)%N then String "\" (String "t" EmptyString)
  else if (n <? 32)%N then
    "\u00" +:+ String (hex_digit (n / 16)) (String (hex_digit (n mod 16)) EmptyString)
  else String c EmptyString.

Fixpoint escape (s : string) : string :=
  match s with
  | EmptyString => EmptyString
  | String c s' => escape_char c +:+ escape s'
  end.

Fixpoint join (sep : string) (l : list string) : string :=
  match l with
  | [] => EmptyString
  | [x] => x
  | x :: rest => x +:+ sep +:+ join sep rest
  end.

(** What one call of [_safe_repr] comes to: the triple it returns, or the
    exception that leaves it. *)
Inductive outcome :=
| Return (rep : string) (readable recursive : bool)
| Throw (e : exc).

Definition rep_of (c : string * bool * bool) : string := c.1.1.
Definition readable_of (c : string * bool * bool) : bool := c.1.2.
Definition recursive_of (c : string * bool * bool) : bool := c.2.

(** The keys and values in the order the loop over [items] renders them. *)
Definition flatten_items (items : list (handle * handle)) : list handle :=
  concat (map (fun kv => [kv.1; kv.2]) items).

(** The components the loop over [items] appends, from the triples of the
    keys and values. *)
Fixpoint item_components (l : list (string * bool * bool)) : list string :=
  match l with
  | k :: v :: rest => (rep_of k +:+ ": " +:+ rep_of v) :: item_components rest
  | _ => []
  end.

(** [maxlevels and level >= maxlevels]; [None] and [0] both switch the
    depth limit off. *)
Definition depth_reached (maxlevels : option Z) (level : Z) : bool :=
  match maxlevels with
  | Some m => negb (m =? 0) && (m <=? level)
  | None => false
  end.

(** [_recursion(object)]. *)
Definition _recursion (o : object) (objid : Z) : string :=
  "<Recursion on " +:+ type_name o +:+ " with id=" +:+ PyStr.str_of_int objid
  +:+ ">".

(** [sorted(l)] for a list compared with [lt] alone: each element goes
    before the first one it is less than, so equal elements keep their
    order.  Where [lt] is a strict weak order this is the stable sort that
    [list.sort] is; for a comparison that is none Python leaves the result
    open, and the model is one choice (lists of two elements come out as
    CPython sorts them). *)
Fixpoint insert_sorted {A} (lt : A -> A -> bool) (x : A) (l : list A) : list A :=
  match l with
  | [] => [x]
  | y :: l' => if lt x y then x :: y :: l' else y :: insert_sorted lt x l'
  end.

Definition sorted {A} (lt : A -> A -> bool) (l : list A) : list A :=
  fold_left (fun acc x => insert_sorted lt x acc) l [].

Section Run.

(** [float.__repr__] on a finite float. *)
Variable float_repr : spec_float -> string.

(** [x < y] on the objects themselves: [Some b] when the comparison answers
    [b], [None] when it raises [TypeError]. *)
Variable natural_lt : handle -> handle -> option bool.

(** [id(object)] in this run. *)
Variable id_of : handle -> Z.

Variable h : heap.

(** [json.dumps(object, ensure_ascii=False)] on a scalar. *)
Definition json_dumps (s : scalar) : result string :=
  match s with
  | SNone => Ok "null"
  | SBool b => Ok (if b then "true" else "false")
  | SInt n => Ok (PyStr.str_of_int n)
  | SFloat S754_nan => Ok "NaN"
  | SFloat (S754_infinity sign) => Ok (if sign then "-Infinity" else "Infinity")
  | SFloat f => Ok (float_repr f)
  | SStr s => Ok (PyStr.quoted (escape s))
  | SBytes _ | SBytearray _ | SComplex _ _ => Raise TypeError
  end.

(** [_safe_key(x) < _safe_key(y)]. *)
Definition safe_key_lt (x y : handle) : bool :=
  match natural_lt x y with
  | Some b => b
  | None =>
      let tx := type_str (h !!! x) in
      let ty := type_str (h !!! y) in
      if String.eqb tx ty then id_of x <? id_of y else String.ltb tx ty
  end.

(** [_safe_tuple(s) < _safe_tuple(t)]: the two [_safe_key] wrappers of the
    keys are different objects without [__eq__], so the tuples differ at
    their first position and that position decides. *)
Definition safe_tuple_lt (s t : handle * handle) : bool :=
  safe_key_lt s.1 t.1.

(** The loop bodies: render the objects in order, threading the context,
    and stop at the first exception. *)
Fixpoint repr_each (f : handle -> gset Z -> option (outcome * gset Z))
    (objects : list handle) (context : gset Z)
  : option (result (list (string * bool * bool)) * gset Z) :=
  match objects with
  | [] => Some (Ok [], context)
  | o :: rest =>
      match f o context with
      | None => None
      | Some (Throw e, context) => Some (Raise e, context)
      | Some (Return rep readable recursive, context) =>
          match repr_each f rest context with
          | None => None
          | Some (Raise e, context) => Some (Raise e, context)
          | Some (Ok l, context) =>
              Some (Ok ((rep, readable, recursive) :: l), context)
          end
      end
  end.

(** From [objid = id(object)] to the [return] of a container branch.
    [components] turns the triples of the children into the strings that
    are joined, [format] is the text around them. *)
Definition descend (f : handle -> gset Z -> option (outcome * gset Z))
    (o : object) (objid : Z) (children : list handle)
    (components : list (string * bool * bool) -> list string)
    (format : string -> string)
    (context : gset Z) (maxlevels : option Z) (level : Z)
  : option (outcome * gset Z) :=
  if depth_reached maxlevels level then
    Some (Return (format "...") false (bool_decide (objid ∈ context)), context)
  else if bool_decide (objid ∈ context) then
    Some (Return (_recursion o objid) false true, context)
  else
    match repr_each f children ({[objid]} ∪ context) with
    | None => None
    | Some (Raise e, context) => Some (Throw e, context)
    | Some (Ok l, context) =>
        Some (Return (format (join ", " (components l)))
                (forallb readable_of l) (existsb recursive_of l),
              context ∖ {[objid]})
    end.

Definition braces (s : string) : string := "{" +:+ s +:+ "}".
Definition brackets (s : string) : string := "[" +:+ s +:+ "]".
Definition parens (s : string) : string := "(" +:+ s +:+ ")".
Definition parens1 (s : string) : string := "(" +:+ s +:+ ",)".

(** What the tests on the type of the object select: a [return] that comes
    before [objid = id(object)], or the loop over the children, with the
    children in the order they are rendered, the strings made of their
    triples, and the text around them.  Sorting the items does not depend on
    the context, so it is done here. *)
Inductive branch :=
| Done (out : outcome)
| Loop (children : list handle)
       (components : list (string * bool * bool) -> list string)
       (format : string -> string).

Definition mapping_branch (empty : bool) (items : list (handle * handle))
    (sort_dicts : bool) : branch :=
  if empty then Done (Return "{}" true false)
  else
    let items := if sort_dicts then sorted safe_tuple_lt items else items in
    Loop (flatten_items items) item_components braces.

Definition select (o : object) (sort_dicts : bool) : branch :=
  match o with
  | NotImplementedObj => Done (Return "undefined" true false)
  | Scalar s =>
      match json_dumps s with
      | Ok rep => Done (Return rep true false)
      | Raise e => Done (Throw e)
      end
  | Dict items => mapping_branch (bool_decide (items = [])) items sort_dicts
  | Wrapper conn =>
      mapping_branch (bool_decide (count_objects conn = O))
        (read_objects conn) sort_dicts
  | List elems =>
      if bool_decide (elems = []) then Done (Return "[]" true false)
      else Loop elems (map rep_of) brackets
  | Tuple elems =>
      if bool_decide (length elems = 1%nat) then Loop elems (map rep_of) parens1
      else if bool_decide (elems = []) then Done (Return "()" true false)
      else Loop elems (map rep_of) parens
  | Opaque _ _ rep =>
      Done (Return rep
              (negb (String.eqb rep EmptyString)
               && negb (PyStr.startswith "<" rep))
              false)
  end.

(** [_safe_repr(object, context, maxlevels, level, sort_dicts)], with the
    context it leaves behind.  [None]: the fuel did not suffice. *)
Fixpoint _safe_repr (fuel : nat) (object : handle) (context : gset Z)
    (maxlevels : option Z) (level : Z) (sort_dicts : bool)
  : option (outcome * gset Z) :=
  match fuel with
  | O => None
  | S fuel =>
      match select (h !!! object) sort_dicts with
      | Done out => Some (out, context)
      | Loop children components format =>
          descend
            (fun o c => _safe_repr fuel o c maxlevels (level + 1) sort_dicts)
            (h !!! object) (id_of object) children components format
            context maxlevels level
      end
  end.

(** [PrettyPrinter.format]. *)
Definition format (fuel : nat) (sort_dicts : bool) (object : handle)
    (context : gset Z) (maxlevels : option Z) (level : Z) :=
  _safe_repr fuel object context maxlevels level sort_dicts.

End Run.

(** The natural order of integers, booleans and strings; every other pair
    of objects counts as unorderable, which is what Python answers for
    [None], for objects whose class defines no order, and between a number
    and a string.  An instance of [natural_lt] for heaps whose mapping keys
    are of these kinds. *)
Definition number_of (o : object) : option Z :=
  match o with
  | Scalar (SInt n) => Some n
  | Scalar (SBool b) => Some (if b then 1 else 0)
  | _ => None
  end.

Definition plain_lt (h : heap) (x y : handle) : option bool :=
  match h !!! x, h !!! y with
  | Scalar (SStr a), Scalar (SStr b) => Some (String.ltb a b)
  | ox, oy =>
      match number_of ox, number_of oy with
      | Some a, Some b => Some (a <? b)
      | _, _ => None
      end
  end.

(** The objects [_safe_repr] descends into. *)
Definition descends (o : object) : bool :=
  match o with
  | Dict (_ :: _) | List (_ :: _) | Tuple (_ :: _) => true
  | Wrapper conn => negb (Nat.eqb (count_objects conn) 0)
  | _ => false
  end.

End Printer.


(** ** Definitions used in the statements about the resolvers *)

(** The exceptions the [except] clause of [read_user_contexts] names. *)
Definition handled (e : exc) : Prop :=
  e = AssertionError \/ e = FileNotFoundError \/ e = ValueError.

(** The segment of [s] before the first [.]. *)
Definition first_segment (s : string) : string :=
  match PyStr.partition "." s with Some (before, _) => before | None => s end.

(** The name under version 4 as the specification words it: the segment
    before the first [.], with a leading [userContext] stripped and the
    character after it lower-cased when that prefix is there. *)
Definition name_v4_spec (l10nID : string) : string :=
  let segment := first_segment l10nID in
  if PyStr.startswith "userContext" segment then
    match PyStr.drop 11 segment with
    | String c rest => String (PyStr.lower_char c) rest
    | EmptyString => EmptyString
    end
  else segment.

(** Two identities used in the examples. *)
Definition personal_v4 : json :=
  JObj [("userContextId", JInt 1); ("l10nID", JStr "userContextPersonal.label")].

Definition bad_id : json :=
  JObj [("userContextId", JStr "one"); ("name", JStr "Work")].

(** A version 5 file whose one identity has neither [name] nor [l10nId]. *)
Definition nameless_v5 : containers_file :=
  FileJson (JObj [("version", JInt 5);
                  ("identities", JArr [JObj [("userContextId", JInt 1);
                                             ("public", JBool true)]])]).

(** A toy [json.loads] for the examples: it knows one text, the value of
    the preference in the example of the specification. *)
Definition uuids_text : string :=
  "{" +:+ PyStr.quoted "ext@example.com" +:+ ":"
  +:+ PyStr.quoted "11111111-2222-3333-4444-555555555555" +:+ "}".

Definition loads_example (s : string) : option json :=
  if String.eqb s uuids_text
  then Some (JObj [("ext@example.com",
                    JStr "11111111-2222-3333-4444-555555555555")])
  else None.

(** An entry the scan of [find_uuid_by_ext_id] passes over: another
    preference, or the preference with a string that is not JSON. *)
Definition skipped (json_loads : string -> option json)
    (entry : string * json) : Prop :=
  entry.1 = "extensions.webextensions.uuids" ->
  exists s, entry.2 = JStr s /\ json_loads s = None.

(** ** Definitions used in the statements about the printer *)

Module PrinterAux.
Import Printer.

(** The objects of the heap whose identity is not in the context: those
    the printer may still descend into. *)
Definition pending (id_of : handle -> Z) (h : heap) (context : gset Z)
  : gset handle :=
  filter (fun x => id_of x ∉ context) (dom h).

(** The outcome is a returned triple. *)
Definition returns (out : outcome) : Prop :=
  match out with Return _ _ _ => True | Throw _ => False end.

(** A function from objects and contexts to outcomes leaves the context as
    it found it whenever it returns. *)
Definition restoring (f : handle -> gset Z -> option (outcome * gset Z))
  : Prop :=
  forall x c out c', f x c = Some (out, c') -> returns out -> c' = c.

(** The outcome that returns the triple [t]. *)
Definition return_of (t : string * bool * bool) : outcome :=
  Return (rep_of t) (readable_of t) (recursive_of t).

(** Examples: a list that holds itself, and a list that holds the same
    list twice. *)
Definition cyclic_heap : heap :=
  list_to_map [(1%positive, List [1%positive; 2%positive]);
               (2%positive, Scalar (SInt 5))].

Definition mutual_heap : heap :=
  list_to_map [(1%positive, List [2%positive]);
               (2%positive, List [1%positive]);
               (3%positive, List [1%positive; 2%positive])].

Definition shared_heap : heap :=
  list_to_map [(1%positive, List [2%positive; 2%positive]);
               (2%positive, List [3%positive]);
               (3%positive, Scalar (SInt 7))].

Definition empties_heap : heap :=
  list_to_map [(1%positive, Dict []); (2%positive, List []);
               (3%positive, Tuple []);
               (4%positive, Wrapper (Connection [] 0))].

Definition example_id (x : handle) : Z := 1000 + 16 * Z.pos x.

(** The items of a mapping object. *)
Definition mapping_items (o : object) : option (list (handle * handle)) :=
  match o with
  | Dict items => Some items
  | Wrapper conn => Some (read_objects conn)
  | _ => None
  end.

(** The objects an object refers to. *)
Definition children_of (o : object) : list handle :=
  match o with
  | Dict items => flatten_items items
  | Wrapper conn => flatten_items (read_objects conn)
  | List elems | Tuple elems => elems
  | _ => []
  end.

(** [reach h x y]: [y] is [x] or is found below [x]. *)
Inductive reach (h : heap) : handle -> handle -> Prop :=
| reach_here x : reach h x x
| reach_below x y z :
    y ∈ children_of (h !!! x) -> reach h y z -> reach h x z.

(** The context [c] with the identities [extra] added. *)
Definition widen {A} (extra : gset Z) (r : option (A * gset Z))
  : option (A * gset Z) :=
  match r with
  | Some (out, c) => Some (out, c ∪ extra)
  | None => None
  end.

(** The identities of two runs order alike every two keys of one mapping
    that have no natural order and the same type name: the pairs for which
    [_safe_key] lets the identities decide. *)
Definition key_order_agrees (natural_lt : handle -> handle -> option bool)
    (h : heap) (id1 id2 : handle -> Z) : Prop :=
  forall m items k1 k2,
    mapping_items (h !!! m) = Some items ->
    k1 ∈ items.*1 -> k2 ∈ items.*1 ->
    natural_lt k1 k2 = None ->
    type_str (h !!! k1) = type_str (h !!! k2) ->
    (id1 k1 <? id1 k2) = (id2 k1 <? id2 k2).

(** Two outcomes of two runs agree: the same exception, or the same flags
    and, unless a recursion marker or a cut at the depth limit made the
    result recursive, the same text. *)
Definition agree (o1 o2 : outcome) : Prop :=
  match o1, o2 with
  | Return r1 rd1 rc1, Return r2 rd2 rc2 =>
      rd1 = rd2 /\ rc1 = rc2 /\ (rc1 = false -> r1 = r2)
  | Throw e1, Throw e2 => e1 = e2
  | _, _ => False
  end.

Definition agree_triple (t1 t2 : string * bool * bool) : Prop :=
  agree (return_of t1) (return_of t2).

(** What two runs give, out of fuel or not, agrees. *)
Definition runs_agree (r1 r2 : option (outcome * gset Z)) : Prop :=
  match r1, r2 with
  | Some (o1, _), Some (o2, _) => agree o1 o2
  | None, None => True
  | _, _ => False
  end.

Definition loops_agree
    (r1 r2 : option (result (list (string * bool * bool)) * gset Z)) : Prop :=
  match r1, r2 with
  | Some (Ok l1, _), Some (Ok l2, _) => Forall2 agree_triple l1 l2
  | Some (Raise e1, _), Some (Raise e2, _) => e1 = e2
  | None, None => True
  | _, _ => False
  end.

(** The contexts of two runs hold the identities of the same objects. *)
Definition same_active (id1 id2 : handle -> Z) (c1 c2 : gset Z) : Prop :=
  forall y, id1 y ∈ c1 <-> id2 y ∈ c2.

(** A mapping whose two keys are objects of one class that defines a
    [__repr__] and no order, and a second assignment of identities that
    reverses the first. *)
Definition tags_heap : heap :=
  list_to_map [(1%positive, Dict [(2%positive, 4%positive);
                                  (3%positive, 5%positive)]);
               (2%positive, Opaque "Tag" "<class 'example.Tag'>" "A");
               (3%positive, Opaque "Tag" "<class 'example.Tag'>" "B");
               (4%positive, Scalar (SInt 1));
               (5%positive, Scalar (SInt 2))].

Definition reversed_id (x : handle) : Z := 9000 - 16 * Z.pos x.

(** A mapping whose two keys have no natural order and different types. *)
Definition mixed_heap : heap :=
  list_to_map [(1%positive, Dict [(2%positive, 4%positive);
                                  (3%positive, 5%positive)]);
               (2%positive, Scalar (SStr "k"));
               (3%positive, Scalar (SInt 7));
               (4%positive, Scalar (SInt 1));
               (5%positive, Scalar (SInt 2))].

(** A Projection and a [dict] with the same two items. *)
Definition store_heap : heap :=
  list_to_map [(1%positive, Wrapper (Connection [(3%positive, 4%positive);
                                                 (5%positive, 6%positive)] 2));
               (2%positive, Dict [(3%positive, 4%positive);
                                  (5%positive, 6%positive)]);
               (3%positive, Scalar (SStr "b"));
               (4%positive, List [7%positive]);
               (5%positive, Scalar (SStr "a"));
               (6%positive, Scalar SNone);
               (7%positive, Scalar (SBool true))].

Definition example_float_repr (f : spec_float) : string := "0.0".

End PrinterAux.

(** Settles what is found below an object of a concrete heap. *)
Ltac below_items H :=
  repeat (inversion H as [? | ? ? ? Hc H']; subst; clear H;
          [solve [split; discriminate] |];
          simpl in Hc;
          repeat (apply elem_of_cons in Hc as [-> | Hc]);
          try solve [apply elem_of_nil in Hc; destruct Hc];
          rename H' into H).

(** An integer, a boolean and an object whose type name lies between
    [bool] and [int]. *)
Definition order_heap : Printer.heap :=
  list_to_map [(1%positive, Printer.Scalar (Printer.SInt 0));
               (2%positive, Printer.Scalar (Printer.SBool true));
               (3%positive, Printer.Opaque "date" "<class 'datetime.date'>"
                              "datetime.date(2024, 1, 1)")].

(** ** The preferences file *)

Module Prefs.

Definition newline : ascii := ascii_of_N 10.

(** [\s] in a pattern over bytes: tab to carriage return, and the space. *)
Definition re_space (c : ascii) : bool :=
  let n := N_of_ascii c in ((9 <=? n) && (n <=? 13) || (n =? 32))%N.

(** The leading [\s*].  It is greedy and never has to give a character
    back: what follows it starts with [u], which is no whitespace. *)
Fixpoint skip_spaces (s : string) : string :=
  match s with
  | String c s' => if re_space c then skip_spaces s' else s
  | EmptyString => EmptyString
  end.

(** The rest of the lazy group [(.+?)] in front of [\);], once the group
    holds a character: the shortest run without a newline that [);]
    follows. *)
Fixpoint until_close (s : string) : option string :=
  if PyStr.startswith ");" s then Some EmptyString
  else match s with
       | String c s' =>
           if Ascii.eqb c newline then None else String c <$> until_close s'
       | EmptyString => None
       end.

(** [(.+?)\);]: group 3. *)
Definition value_group (s : string) : option string :=
  match s with
  | String c s' =>
      if Ascii.eqb c newline then None else String c <$> until_close s'
  | EmptyString => None
  end.

(** [\s*(.+?)\);]: the greedy [\s*] takes all the whitespace it finds and
    gives it back one character at a time for as long as the rest fails. *)
Fixpoint after_comma (s : string) : option string :=
  match s with
  | String c s' =>
      if re_space c then
        match after_comma s' with
        | Some v => Some v
        | None => value_group s
        end
      else value_group s
  | EmptyString => None
  end.

(** [(.+?)\1,\s*(.+?)\);] after the quote [q] that group 1 took: groups 2
    and 3.  Group 2 is lazy: it grows by one character, never a newline,
    until the quote, the comma and the rest follow it. *)
Fixpoint name_group (q : ascii) (s : string) : option (string * string) :=
  match s with
  | String c s' =>
      if Ascii.eqb c newline then None
      else
        let longer :=
          match name_group q s' with
          | Some (k, v) => Some (String c k, v)
          | None => None
          end in
        match s' with
        | String q' (String "," rest) =>
            if Ascii.eqb q' q then
              match after_comma rest with
              | Some v => Some (String c EmptyString, v)
              | None => longer
              end
            else longer
        | _ => longer
        end
  | EmptyString => None
  end.

(** [USER_PREF_RE.match(line)]: groups 2 and 3 of the match, or [None]. *)
Definition USER_PREF_RE (line : string) : option (string * string) :=
  let s := skip_spaces line in
  if PyStr.startswith "user_pref(" s then
    match PyStr.drop 10 s with
    | String q s' =>
        if Ascii.eqb q PyStr.dquote || Ascii.eqb q "'" then name_group q s'
        else None
    | EmptyString => None
    end
  else None.

(** [prefs.js] as [open] finds it: not there, not to be opened for another
    reason, or read as its lines. *)
Inductive prefs_file :=
| PrefsMissing
| PrefsUnreadable
| PrefsLines (lines : list string).

(** One turn of the loop over the lines: [continue], the diagnostic of the
    [except] clause, or the pair it yields. *)
Inductive line_outcome :=
| NoMatch
| Failed
| Yield (k : string) (v : json).

Section Read.

(** [k.decode("utf-8")]; [None] is [UnicodeDecodeError]. *)
Variable decode_utf8 : string -> option string.

(** [json.loads] on bytes; [None] is the [ValueError] it raises. *)
Variable json_loads_bytes : string -> option json.

Definition read_line (line : string) : line_outcome :=
  match USER_PREF_RE line with
  | None => NoMatch
  | Some (k, v) =>
      match decode_utf8 k with
      | None => Failed
      | Some k =>
          match json_loads_bytes v with
          | None => Failed
          | Some v => Yield k v
          end
      end
  end.

Fixpoint prefs_loop (lines : list string) : list (string * json) :=
  match lines with
  | [] => []
  | line :: rest =>
      match read_line line with
      | Yield k v => (k, v) :: prefs_loop rest
      | _ => prefs_loop rest
      end
  end.

(** A missing file is passed over in silence; any other failure of [open]
    leaves the generator before its first item. *)
Definition read_user_prefs (file : prefs_file) : generated (string * json) :=
  match file with
  | PrefsMissing => Generated [] Exhausted
  | PrefsUnreadable => Generated [] (Crashed OSError)
  | PrefsLines lines => Generated (prefs_loop lines) Exhausted
  end.

(** [json.loads] on a [str], as in [find_uuid_by_ext_id]. *)
Variable json_loads : string -> option json.

(** [find_uuid_by_ext_id] on the file itself.  The generator is left by an
    exception only before its first item, so the scan sees either the
    exception or all the pairs. *)
Definition find_uuid_in_profile (file : prefs_file) (ext_id : string)
  : result json :=
  let g := read_user_prefs file in
  match ending g with
  | Crashed e => Raise e
  | _ => find_uuid_by_ext_id json_loads (yielded g) ext_id
  end.

End Read.

End Prefs.

(** ** The command line *)

Module Cli.

(** [bool(v)], the test of an [if]. *)
Definition truthy (v : json) : bool :=
  match v with
  | JNull => false
  | JBool b => b
  | JInt n => negb (n =? 0)
  | JFloat (S754_zero _) => false
  | JFloat _ => true
  | JStr s => negb (String.eqb s EmptyString)
  | JArr l => negb (bool_decide (l = []))
  | JObj items => negb (bool_decide (items = []))
  end.

(** The context id in force after [--userctx] is looked at.  [userctx] is
    [args.userctx]: [None] without the flag. *)
Definition resolve_userctx (f : containers_file) (userctx : option string)
  : result Z :=
  match userctx with
  | None | Some EmptyString => Ok 0
  | Some text =>
      match PyStr.int text with
      | Some ctx_id => Ok ctx_id
      | None => find_context_id_by_name f text
      end
  end.

(** The directory below [storage/default] that [--site] names. *)
Definition site_directory (f : containers_file) (site : string)
    (userctx : option string) : result string :=
  try! ctx_id := resolve_userctx f userctx in
  Ok (Codec.site_name site ctx_id).

(** The first test of the [--list-sites] loop: the directories it goes on
    with. *)
Definition listed (name : string) : bool :=
  negb (PyStr.startswith "moz-extension" name
        || negb (PyStr.contains "+++" name)).

(** The line printed for one entry of [sites], as the values of its flags:
    the site, and the user context when the line has [--userctx].
    [shlex.quote] writes a string so that a shell reads it back as it was,
    and raises [TypeError] on what is no string.  The sort that comes
    before the printing settles the order of the lines only; like the turn
    of the loop for another directory, it can stop the listing before the
    line is printed. *)
Definition listing_flags (entry : string * json)
  : result (string * option string) :=
  let '(origin, ctx_name) := entry in
  if truthy ctx_name then
    match ctx_name with
    | JStr s => Ok (origin, Some s)
    | _ => Raise TypeError
    end
  else Ok (origin, None).

Section Extension.

Variable decode_utf8 : string -> option string.
Variable json_loads_bytes : string -> option json.
Variable json_loads : string -> option json.

(** [str(v)] for a value that is no string. *)
Variable str_of : json -> string.

(** What an f-string writes for [v]. *)
Definition fstring (v : json) : string :=
  match v with JStr s => s | _ => str_of v end.

(** The directory below [storage/default] that [--extension] names; [None]
    when no UUID is known for the extension and [main] returns 1.  The
    flag [--dbpath] cannot be there: [main] leaves when both are given. *)
Definition extension_label (f : containers_file) (prefs : Prefs.prefs_file)
    (extension : string) (userctx : option string) : result (option string) :=
  try! ctx_id := resolve_userctx f userctx in
  try! ext_uuid :=
    Prefs.find_uuid_in_profile decode_utf8 json_loads_bytes json_loads
      prefs extension in
  match ext_uuid with
  | JNull => Ok None
  | _ =>
      try! ctx_id :=
        match userctx with
        | None => find_context_id_by_name f USER_CONTEXT_WEB_EXT
        | Some _ => Ok ctx_id
        end in
      Ok (Some (Codec.origin_label (fstring ext_uuid) ctx_id))
  end.

End Extension.

End Cli.

(** ** The extensions of a profile *)

Module Extensions.

(** One turn of the loop over [ext_data["addons"]]: the pair it yields. *)
Definition ext_info (extension : json) : result (json * json) :=
  try! id := Py.subscript extension "id" in
  try! locale := Py.subscript extension "defaultLocale" in
  try! name := Py.subscript locale "name" in
  Ok (id, name).

(** No [except] clause is around the loop: an exception leaves the
    generator. *)
Fixpoint ext_loop (addons : list json) : generated (json * json) :=
  match addons with
  | [] => Generated [] Exhausted
  | extension :: rest =>
      match ext_info extension with
      | Ok item =>
          let g := ext_loop rest in
          Generated (item :: yielded g) (ending g)
      | Raise e => Generated [] (Crashed e)
      end
  end.

(** What precedes the loop; [extensions.json] is found by [open] and
    [json.load] in one of the ways [containers.json] is. *)
Definition ext_prologue (f : containers_file) : result (list json) :=
  try! ext_data := load_containers f in
  try! version := Py.get ext_data "schemaVersion" in
  if Py.eq_int version 36 then
    try! addons := Py.subscript ext_data "addons" in
    Py.iterate addons
  else Raise AssertionError.

Definition find_ext_info (f : containers_file) : generated (json * json) :=
  match ext_prologue f with
  | Ok addons => ext_loop addons
  | Raise e => Generated [] (Crashed e)
  end.

(** What [sorted] has in hand for [--list-extensions] once it has run the
    generator to its end, before it sorts and before a line is printed. *)
Definition listed_extensions (f : containers_file)
  : result (list (json * json)) :=
  let g := find_ext_info f in
  match ending g with
  | Crashed e => Raise e
  | _ => Ok (yielded g)
  end.

End Extensions.

(** ** The default profile *)

Module Profile.

(** A section of [profiles.ini] as the parser presents it: its name, and
    its options under their lower-cased names, those of the [DEFAULT]
    section included. *)
Definition section : Type := string * list (string * string).

Fixpoint option_value (key : string) (options : list (string * string))
  : option string :=
  match options with
  | [] => None
  | (k, v) :: rest => if String.eqb k key then Some v else option_value key rest
  end.

Section Dir.

(** [mozdir / path]. *)
Variable joinpath : string -> string -> string.

(** The loop over [mozini.sections()], for the directory [mozdir] of the
    platform. *)
Fixpoint find_default_profile_dir (mozdir : string) (sections : list section)
  : option string :=
  match sections with
  | [] => None
  | (s, options) :: rest =>
      if negb (PyStr.startswith "Profile" s) then
        find_default_profile_dir mozdir rest
      else
        match option_value "path" options with
        | None => find_default_profile_dir mozdir rest
        | Some path =>
            match option_value "default" options with
            | None => find_default_profile_dir mozdir rest
            | Some d =>
                if String.eqb d "1" then Some (joinpath mozdir path)
                else find_default_profile_dir mozdir rest
            end
        end
  end.

End Dir.

End Profile.

(** ** The databases of a site *)

Module Storage.

(** [s.endswith(suffix)]. *)
Definition endswith (suffix s : string) : bool :=
  (String.length suffix <=? String.length s)%nat
  && String.eqb
       (PyStr.drop (String.length s - String.length suffix) s) suffix.

Section Discover.

(** [conn.get_name()] of the database in the file of that name; opening
    the file is taken to succeed. *)
Variable get_name : string -> option string.

(** [names] lists the directory in the order of [iterdir]; a path below
    the directory is given by its name. *)
Definition discover_idbs (names : list string) : gmap string string :=
  foldl
    (fun dbs db_path =>
       if negb (endswith ".sqlite" db_path) then dbs
       else match get_name db_path with
            | Some db_name => <[db_name := db_path]> dbs
            | None => dbs
            end)
    ∅ names.

End Discover.

End Storage.

(** ** Definitions used in the statements about the command line *)

Module CliAux.

(** Every character of [s] is whitespace for [\s]. *)
Fixpoint all_space (s : string) : bool :=
  match s with
  | EmptyString => true
  | String c s' => Prefs.re_space c && all_space s'
  end.

Definition is_quote (q : ascii) : Prop := q = PyStr.dquote \/ q = "'"%char.

(** A line with a preference: blanks, [user_pref(], the quoted name, a
    comma, blanks, the value, [);] and whatever follows. *)
Definition pref_line (ws1 : string) (q : ascii) (name ws2 value tail : string)
  : string :=
  ws1 +:+ "user_pref(" +:+ String q (name +:+ String q ("," +:+ ws2 +:+ value
  +:+ ");" +:+ tail)).

(** A group of the pattern: not empty and without a newline. *)
Definition group (s : string) : Prop :=
  s <> EmptyString /\ PyStr.has_char Prefs.newline s = false.

(** A value the pattern gives back whole: it starts with no blank and
    holds [);] nowhere after its first character. *)
Definition whole_value (value : string) : Prop :=
  match value with
  | String c rest =>
      Prefs.re_space c = false /\ PyStr.contains ");" rest = false
  | EmptyString => False
  end.

(** Listing a directory, and giving the flags of the line printed for it
    back to [--site] and [--userctx]: the directory that names. *)
Definition relisted (f : containers_file) (name : string) : result string :=
  try! entry := Codec.site_listing_entry f name in
  try! flags := Cli.listing_flags entry in
  Cli.site_directory f flags.1 flags.2.

(** A line the scan of [find_uuid_by_ext_id] passes over: it yields
    nothing, or a pair the scan skips. *)
Definition passed_over (decode_utf8 : string -> option string)
    (json_loads_bytes json_loads : string -> option json) (line : string)
  : Prop :=
  forall k v,
    Prefs.read_line decode_utf8 json_loads_bytes line = Prefs.Yield k v ->
    skipped json_loads (k, v).

(** The section marks the default profile with the path [path]. *)
Definition marks_default (s : Profile.section) (path : string) : Prop :=
  PyStr.startswith "Profile" s.1 = true
  /\ Profile.option_value "path" s.2 = Some path
  /\ Profile.option_value "default" s.2 = Some "1".

Definition unmarked (s : Profile.section) : Prop :=
  forall path, ~ marks_default s path.

(** The file [db_path] is taken for a database called [db_name]. *)
Definition names_db (get_name : string -> option string)
    (db_path db_name : string) : Prop :=
  Storage.endswith ".sqlite" db_path = true /\ get_name db_path = Some db_name.

(** A toy [get_name]: two files hold a database called [db], a third a
    database without a name. *)
Definition example_get_name (db_path : string) : option string :=
  if String.eqb db_path "1.sqlite" then Some "db"
  else if String.eqb db_path "2.sqlite" then Some "db"
  else if String.eqb db_path "notes.txt" then Some "db"
  else None.

(** An [extensions.json] with the given add-ons. *)
Definition extensions_file (addons : list json) : containers_file :=
  FileJson (JObj [("schemaVersion", JInt 36); ("addons", JArr addons)]).

Definition addon_a : json :=
  JObj [("id", JStr "a@example.com");
        ("defaultLocale", JObj [("name", JStr "A")])].

Definition addon_b : json := JObj [("id", JStr "b@example.com")].

(** A file with one container, used in the examples. *)
Definition one_container (ctx_id : Z) (name : string) : containers_file :=
  FileJson (JObj [("version", JInt 5);
                  ("identities",
                   JArr [JObj [("userContextId", JInt ctx_id);
                               ("name", JStr name)]])]).

(** The line of [prefs.js] in the example of the specification, and toy
    parsers that know its value and the text it holds. *)
Definition uuids_value : string := PyStr.quoted (Printer.escape uuids_text).

Definition uuids_pref : string :=
  pref_line EmptyString PyStr.dquote "extensions.webextensions.uuids" " "
    uuids_value (String Prefs.newline EmptyString).

Definition loads_bytes_example (v : string) : option json :=
  if String.eqb v uuids_value then Some (JStr uuids_text)
  else if String.eqb v "3" then Some (JInt 3)
  else None.

End CliAux.

(** ** Definitions used in the further statements about the printer *)

Module PrinterShapes.
Import Printer PrinterAux.

(** Nothing found below [x] refers to an object it is found below. *)
Definition acyclic_below (h : heap) (x : handle) : Prop :=
  forall y z, reach h x y -> z ∈ children_of (h !!! y) -> ~ reach h z y.

(** Different objects have different identities. *)
Definition distinct_ids (id_of : handle -> Z) : Prop :=
  forall x y, id_of x = id_of y -> x = y.

(** Every element of the list is less than all those after it. *)
Fixpoint strongly_sorted {A} (lt : A -> A -> bool) (l : list A) : Prop :=
  match l with
  | [] => True
  | a :: l' => Forall (fun b => lt a b = true) l' /\ strongly_sorted lt l'
  end.

(** The same object, but for the order of the items of a [dict]. *)
Definition same_up_to_order (o1 o2 : object) : Prop :=
  match o1, o2 with
  | Dict items1, Dict items2 => items1 ≡ₚ items2
  | _, _ => o1 = o2
  end.

(** [lt] is a strict total order on [keys], and no key is there twice. *)
Definition orders (lt : handle -> handle -> bool) (keys : list handle) : Prop :=
  NoDup keys
  /\ (forall a, a ∈ keys -> lt a a = false)
  /\ (forall a b c, a ∈ keys -> b ∈ keys -> c ∈ keys ->
        lt a b = true -> lt b c = true -> lt a c = true)
  /\ (forall a b, a ∈ keys -> b ∈ keys -> a <> b ->
        lt a b = true \/ lt b a = true).

(** The comparison of [_safe_key] orders the keys of every [dict]. *)
Definition keys_ordered (natural_lt : handle -> handle -> option bool)
    (id_of : handle -> Z) (h : heap) : Prop :=
  forall y items,
    h !!! y = Dict items -> orders (safe_key_lt natural_lt id_of h) items.*1.

(** Two heaps with one [dict] whose items were inserted in two orders. *)
Definition ba_heap : heap :=
  list_to_map [(1%positive, Dict [(2%positive, 4%positive);
                                  (3%positive, 5%positive)]);
               (2%positive, Scalar (SStr "b"));
               (3%positive, Scalar (SStr "a"));
               (4%positive, Scalar (SInt 1));
               (5%positive, Scalar (SInt 2))].

Definition ab_heap : heap :=
  list_to_map [(1%positive, Dict [(3%positive, 5%positive);
                                  (2%positive, 4%positive)]);
               (2%positive, Scalar (SStr "b"));
               (3%positive, Scalar (SStr "a"));
               (4%positive, Scalar (SInt 1));
               (5%positive, Scalar (SInt 2))].

End PrinterShapes.
(** * Facts about the string operations *)

Module PyStrFacts.
Import PyStr.

Lemma app_nil (s : string) : EmptyString +:+ s = s.
Proof. reflexivity. Qed.

Lemma app_cons c (a b : string) : String c a +:+ b = String c (a +:+ b).
Proof. reflexivity. Qed.

Lemma append_empty_r (s : string) : s +:+ EmptyString = s.
Proof.
  induction s as [|c s IH]; [reflexivity |]. now rewrite app_cons, IH.
Qed.

Lemma append_assoc (a b c : string) : (a +:+ b) +:+ c = a +:+ (b +:+ c).
Proof.
  induction a as [|x a IH]; [reflexivity |]. now rewrite !app_cons, IH.
Qed.

Lemma replace_app old new (a b : string) :
  replace old new (a +:+ b) = replace old new a +:+ replace old new b.
Proof.
  induction a as [|x a IH]; [reflexivity |].
  rewrite app_cons. simpl. now rewrite IH, app_cons.
Qed.

Lemma has_char_app c (a b : string) :
  has_char c (a +:+ b) = has_char c a || has_char c b.
Proof.
  induction a as [|x a IH]; [reflexivity |].
  rewrite app_cons. simpl. rewrite IH. now rewrite orb_assoc.
Qed.

(** Replacing a character that does not occur changes nothing. *)
Lemma replace_absent old new s :
  has_char old s = false -> replace old new s = s.
Proof.
  induction s as [|x s IH]; simpl; [reflexivity |].
  intros H. apply orb_false_iff in H as [Hx Hs].
  rewrite Hx, IH by assumption. reflexivity.
Qed.

(** A replacement introduces no character other than [new]. *)
Lemma has_char_replace c old new s :
  c <> new -> has_char c s = false -> has_char c (replace old new s) = false.
Proof.
  intros Hne. induction s as [|x s IH]; simpl; [reflexivity |].
  intros H. apply orb_false_iff in H as [Hx Hs].
  rewrite IH by assumption. rewrite orb_false_r.
  destruct (Ascii.eqb x old); [| assumption].
  apply Ascii.eqb_neq. congruence.
Qed.

(** Where [new] does not occur, replacing [old] by [new] is undone by
    replacing [new] by [old]. *)
Lemma replace_undo old new s :
  has_char new s = false -> replace new old (replace old new s) = s.
Proof.
  induction s as [|x s IH]; simpl; [reflexivity |].
  intros H. apply orb_false_iff in H as [Hx Hs].
  rewrite IH by assumption. f_equal.
  destruct (Ascii.eqb x old) eqn:Hold.
  - rewrite Ascii.eqb_refl. apply Ascii.eqb_eq in Hold. congruence.
  - now rewrite Hx.
Qed.

Lemma startswith_app p s : startswith p (p +:+ s) = true.
Proof.
  induction p as [|x p IH]; [reflexivity |].
  rewrite app_cons. simpl. now rewrite Ascii.eqb_refl, IH.
Qed.

Lemma drop_app p s : drop (String.length p) (p +:+ s) = s.
Proof.
  induction p as [|x p IH]; [reflexivity |]. rewrite app_cons. exact IH.
Qed.

(** A separator is first found right after a prefix that lacks the
    separator's first character. *)
Lemma partition_after c sep pre rest :
  has_char c pre = false ->
  partition (String c sep) (pre +:+ String c sep +:+ rest) = Some (pre, rest).
Proof.
  induction pre as [|x pre IH]; intros H.
  - change (EmptyString +:+ String c sep +:+ rest)
      with (String c sep +:+ rest).
    destruct (String c sep +:+ rest) eqn:E; [discriminate E |].
    unfold partition; fold partition. rewrite <- E.
    rewrite startswith_app, drop_app. reflexivity.
  - simpl in H. apply orb_false_iff in H as [Hx Hs].
    change (String x pre +:+ String c sep +:+ rest)
      with (String x (pre +:+ String c sep +:+ rest)).
    unfold partition; fold partition.
    assert (Hsw : startswith (String c sep)
                    (String x (pre +:+ String c sep +:+ rest)) = false).
    { simpl. rewrite Ascii.eqb_sym, Hx. reflexivity. }
    rewrite Hsw, (IH Hs). reflexivity.
Qed.

(** A prefix test with a pattern that lacks [c] does not look past a [c]. *)
Lemma startswith_before c m p s :
  has_char c m = false ->
  startswith m (p +:+ String c s) = startswith m p.
Proof.
  revert p. induction m as [|a m IH]; intros p H; [reflexivity |].
  simpl in H. apply orb_false_iff in H as [Ha Hm].
  destruct p as [|b p].
  - rewrite app_nil. simpl. now rewrite Ha.
  - rewrite app_cons. simpl. now rewrite IH.
Qed.

Lemma contains_false sep c s :
  contains sep (String c s) = false <->
  startswith sep (String c s) = false /\ contains sep s = false.
Proof.
  unfold contains, partition; fold partition.
  destruct (startswith sep (String c s)).
  - split; [discriminate | intros [? _]; discriminate].
  - destruct (partition sep s) as [[before after] |]; tauto.
Qed.

(** A separator that lacks [c] occurs neither across a [c] nor in a
    string made of parts it does not occur in. *)
Lemma contains_around c a m p s :
  has_char c (String a m) = false ->
  contains (String a m) p = false -> contains (String a m) s = false ->
  contains (String a m) (p +:+ String c s) = false.
Proof.
  intros Hc Hp Hs. induction p as [|b p IH].
  - rewrite app_nil. apply contains_false. split; [| assumption].
    simpl in Hc. apply orb_false_iff in Hc as [Ha _]. simpl. now rewrite Ha.
  - apply contains_false in Hp as [Hsw Hp].
    rewrite app_cons. apply contains_false. split.
    + rewrite <- app_cons. now rewrite startswith_before.
    + now apply IH.
Qed.

(** A separator whose first character occurs nowhere else in it is first
    found right after a prefix it does not occur in. *)
Lemma partition_after_absent c m pre rest :
  has_char c m = false ->
  contains (String c m) pre = false ->
  partition (String c m) (pre +:+ String c m +:+ rest) = Some (pre, rest).
Proof.
  intros Hm. induction pre as [|b pre IH]; intros Hpre.
  - rewrite app_nil.
    destruct (String c m +:+ rest) eqn:E; [discriminate E |].
    unfold partition; fold partition. rewrite <- E.
    now rewrite startswith_app, drop_app.
  - apply contains_false in Hpre as [Hsw Hpre].
    rewrite app_cons. unfold partition; fold partition.
    assert (Hsw' : startswith (String c m)
                     (String b (pre +:+ String c m +:+ rest)) = false).
    { rewrite <- Hsw. simpl. f_equal.
      rewrite app_cons. now apply startswith_before. }
    now rewrite Hsw', (IH Hpre).
Qed.

Lemma startswith_replace old new m s :
  has_char old m = false -> has_char new m = false ->
  startswith m (replace old new s) = startswith m s.
Proof.
  revert s. induction m as [|a m IH]; intros s Ho Hn; [reflexivity |].
  simpl in Ho, Hn.
  apply orb_false_iff in Ho as [Hao Hmo].
  apply orb_false_iff in Hn as [Han Hmn].
  destruct s as [|b s]; [reflexivity |]. simpl.
  rewrite IH by assumption. f_equal.
  destruct (Ascii.eqb_spec b old) as [-> | _]; [| reflexivity].
  now rewrite Han, Hao.
Qed.

(** Replacing characters a separator does not hold neither makes nor
    removes an occurrence of it. *)
Lemma contains_replace old new m s :
  has_char old m = false -> has_char new m = false ->
  contains m (replace old new s) = contains m s.
Proof.
  intros Ho Hn. induction s as [|b s IH].
  - reflexivity.
  - change (replace old new (String b s))
      with (String (if Ascii.eqb b old then new else b) (replace old new s)).
    destruct (contains m (String b s)) eqn:E.
    + destruct (contains m (String _ (replace old new s))) eqn:E';
        [reflexivity |].
      apply contains_false in E' as [Hsw Hc].
      change (String (if Ascii.eqb b old then new else b) (replace old new s))
        with (replace old new (String b s)) in Hsw.
      rewrite startswith_replace in Hsw by assumption.
      rewrite IH in Hc.
      assert (contains m (String b s) = false)
        by (apply contains_false; split; assumption).
      congruence.
    + apply contains_false in E as [Hsw Hc].
      apply contains_false. split.
      * change (String (if Ascii.eqb b old then new else b) (replace old new s))
          with (replace old new (String b s)).
        now rewrite startswith_replace.
      * now rewrite IH.
Qed.

Lemma partition_absent_contains sep s :
  contains sep s = false -> partition sep s = None.
Proof.
  unfold contains. now destruct (partition sep s) as [[before after] |].
Qed.

End PyStrFacts.

Module IntFacts.
Import PyStr.

Lemma int_digits_step acc c d s :
  digit_value c = Some d ->
  int_digits acc (String c s) = int_digits (10 * acc + d) s.
Proof. intros H. simpl. now rewrite H. Qed.

Lemma int_unsigned_step c d s :
  digit_value c = Some d -> int_unsigned (String c s) = int_digits d s.
Proof. intros H. unfold int_unsigned. now rewrite H. Qed.

Lemma int_digits_acc (d : Decimal.uint) (p : positive) :
  int_digits (Z.pos p) (NilEmpty.string_of_uint d)
  = Some (Z.pos (Pos.of_uint_acc d p)).
Proof.
  revert p. induction d; intros p; simpl NilEmpty.string_of_uint;
    [reflexivity | ..];
    (erewrite int_digits_step by reflexivity);
    simpl Pos.of_uint_acc; rewrite <- IHd; f_equal; cbn; lia.
Qed.

Lemma int_digits_zero (d : Decimal.uint) :
  int_digits 0 (NilEmpty.string_of_uint d) = Some (Z.of_N (Pos.of_uint d)).
Proof.
  induction d; simpl NilEmpty.string_of_uint; [reflexivity | ..];
    (erewrite int_digits_step by reflexivity);
    simpl Z.add; simpl Pos.of_uint; try apply IHd;
    apply int_digits_acc.
Qed.

Lemma int_unsigned_uint (d : Decimal.uint) :
  d <> Decimal.Nil ->
  int_unsigned (NilEmpty.string_of_uint d) = Some (Z.of_N (Pos.of_uint d)).
Proof.
  destruct d; intros Hd; [congruence | ..];
    simpl NilEmpty.string_of_uint;
    (erewrite int_unsigned_step by reflexivity);
    simpl Z.add; simpl Pos.of_uint;
    try apply int_digits_zero; apply int_digits_acc.
Qed.

Lemma to_uint_nonnil (p : positive) : Pos.to_uint p <> Decimal.Nil.
Proof.
  intros H. pose proof (DecimalPos.Unsigned.of_to p) as E.
  rewrite H in E. discriminate E.
Qed.

Lemma lstrip_uint (d : Decimal.uint) :
  lstrip (NilEmpty.string_of_uint d) = NilEmpty.string_of_uint d.
Proof. destruct d; reflexivity. Qed.

Lemma int_uint (d : Decimal.uint) :
  d <> Decimal.Nil ->
  int (NilEmpty.string_of_uint d) = Some (Z.of_N (Pos.of_uint d)).
Proof.
  intros Hd. unfold int. rewrite lstrip_uint.
  rewrite <- (int_unsigned_uint d Hd).
  destruct d; [congruence | ..]; reflexivity.
Qed.

Lemma nilzero_uint (d : Decimal.uint) :
  d <> Decimal.Nil -> NilZero.string_of_uint d = NilEmpty.string_of_uint d.
Proof. destruct d; [congruence | reflexivity ..]. Qed.

Lemma int_minus (s : string) : int (String "-" s) = Z.opp <$> int_unsigned s.
Proof. reflexivity. Qed.

(** [int(str(n)) == n]. *)
Lemma int_str_of_int (n : Z) : int (str_of_int n) = Some n.
Proof.
  unfold str_of_int. destruct n as [|p|p]; [reflexivity | |];
    simpl Z.to_int; unfold NilZero.string_of_int;
    rewrite nilzero_uint by apply to_uint_nonnil.
  - rewrite int_uint by apply to_uint_nonnil.
    now rewrite DecimalPos.Unsigned.of_to.
  - rewrite int_minus, int_unsigned_uint by apply to_uint_nonnil.
    now rewrite DecimalPos.Unsigned.of_to.
Qed.

End IntFacts.

(** * The origin directory names *)

Module CodecFacts.
Import PyStr PyStrFacts Codec.

Lemma plus_all_app (a b : string) :
  plus_all (a +:+ b) = plus_all a +:+ plus_all b.
Proof. unfold plus_all. now rewrite !replace_app. Qed.

Lemma site_name_suffix (site : string) (containerId : option Z) :
  site_name site (default 0 containerId)
  = plus_all site +:+ ctx_suffix containerId.
Proof.
  unfold site_name, ctx_suffix, plus_all.
  destruct containerId as [n|]; simpl default.
  - destruct (n =? 0); [now rewrite append_empty_r | reflexivity].
  - now rewrite append_empty_r.
Qed.

Lemma encode_unfold (scheme host : string) (containerId : option Z) :
  encode scheme host containerId
  = plus_all scheme +:+ "+++" +:+ plus_all host +:+ ctx_suffix containerId.
Proof.
  unfold encode. rewrite site_name_suffix, !plus_all_app.
  change (plus_all "://") with "+++". now rewrite !append_assoc.
Qed.

(** C3, as the code has it: [encode] writes the scheme, [+++] and the
    host, with every [:] and every [/] of both replaced by [+] whatever
    the scheme is, followed by [^userContextId=<containerId>] exactly when
    the container is present and not zero; the two examples of the
    specification come out as stated. *)
Theorem encode_replaces_colon_and_slash (scheme host : string)
    (containerId : option Z) :
  encode scheme host containerId
  = plus_all scheme +:+ "+++" +:+ plus_all host +:+ ctx_suffix containerId
  /\ encode "https" "example.com" None = "https+++example.com"
  /\ encode "https" "example.com" (Some 7)
     = "https+++example.com^userContextId=7".
Proof.
  split; [apply encode_unfold | split; reflexivity].
Qed.

(** C3 as stated fails: for the scheme [file] the code replaces the [:] of
    the host too, where the specification keeps it. *)
Lemma encode_differs_from_spec :
  encode "file" "/C:/x.html" None = "file++++C++x.html"
  /\ encode_spec "file" "/C:/x.html" None = "file++++C:+x.html"
  /\ encode "file" "/C:/x.html" None <> encode_spec "file" "/C:/x.html" None.
Proof. split; [reflexivity | split; [reflexivity | discriminate]]. Qed.

(** Where the host holds only the character the specification replaces,
    code and specification agree. *)
Lemma encode_agrees_with_spec (scheme host : string) (containerId : option Z) :
  has_char ":" scheme = false -> has_char "/" scheme = false ->
  has_char (if String.eqb scheme "file" then ":" else "/")%char host = false ->
  encode scheme host containerId = encode_spec scheme host containerId.
Proof.
  intros Hc Hs Hh. rewrite encode_unfold. unfold encode_spec, ctx_suffix.
  assert (Es : plus_all scheme = scheme).
  { unfold plus_all. now rewrite (replace_absent ":"), (replace_absent "/"). }
  assert (Eh : plus_all host
               = if String.eqb scheme "file" then replace "/" "+" host
                 else replace ":" "+" host).
  { unfold plus_all. destruct (String.eqb scheme "file").
    - now rewrite (replace_absent ":").
    - rewrite (replace_absent "/"); [reflexivity |].
      apply has_char_replace; [discriminate | assumption]. }
  rewrite Es, Eh.
  destruct containerId as [n|]; [destruct (n =? 0) |];
    rewrite ?append_empty_r, ?append_assoc; reflexivity.
Qed.

(** The directory name of an extension is the one of the site
    [moz-extension://<uuid>], for a UUID without [:] and [/]. *)
Lemma origin_label_encode (ext_uuid : string) (ctx_id : Z) :
  has_char ":" ext_uuid = false -> has_char "/" ext_uuid = false ->
  origin_label ext_uuid ctx_id = encode "moz-extension" ext_uuid (Some ctx_id).
Proof.
  intros Hc Hs. rewrite encode_unfold. unfold origin_label, ctx_suffix.
  assert (E : plus_all ext_uuid = ext_uuid).
  { unfold plus_all. now rewrite (replace_absent ":"), (replace_absent "/"). }
  rewrite E. change (plus_all "moz-extension") with "moz-extension".
  change ("moz-extension+++" +:+ ext_uuid)
    with ("moz-extension" +:+ "+++" +:+ ext_uuid).
  destruct (ctx_id =? 0).
  - now rewrite append_empty_r.
  - now rewrite !append_assoc.
Qed.

Section RoundTrip.

Variables scheme host : string.
Hypothesis scheme_colon : has_char ":" scheme = false.
Hypothesis scheme_slash : has_char "/" scheme = false.
Hypothesis scheme_plus : has_char "+" scheme = false.
Hypothesis scheme_marker : contains CTX_MARKER scheme = false.
Hypothesis host_plus : has_char "+" host = false.
Hypothesis host_marker : contains CTX_MARKER host = false.
Hypothesis host_other :
  has_char (if String.eqb scheme "file" then ":" else "/")%char host = false.

Lemma plus_all_scheme : plus_all scheme = scheme.
Proof.
  unfold plus_all. now rewrite (replace_absent ":"), (replace_absent "/").
Qed.

Lemma plus_all_marker (s : string) :
  contains CTX_MARKER (plus_all s) = contains CTX_MARKER s.
Proof. unfold plus_all. now rewrite !contains_replace. Qed.

(** The marker does not occur in the encoded origin, so the marker found
    first is the one the encoder appended. *)
Lemma base_marker :
  contains CTX_MARKER (scheme +:+ "+++" +:+ plus_all host) = false.
Proof.
  change "+++" with (String "+" (String "+" (String "+" EmptyString))).
  rewrite !app_cons, app_nil.
  apply (contains_around "+"); [reflexivity | assumption |].
  change (String "+" (String "+" (plus_all host)))
    with (EmptyString +:+ String "+" (String "+" (plus_all host))).
  apply (contains_around "+"); [reflexivity | reflexivity |].
  change (String "+" (plus_all host))
    with (EmptyString +:+ String "+" (plus_all host)).
  apply (contains_around "+"); [reflexivity | reflexivity |].
  now rewrite plus_all_marker.
Qed.

(** The scheme holds no [+], so the first [+++] is the separator, and the
    substitution in the host is undone. *)
Lemma split_origin_base :
  split_origin (scheme +:+ "+++" +:+ plus_all host) = Ok (scheme, host).
Proof.
  unfold split_origin, split1.
  change "+++" with (String "+" "++").
  rewrite (partition_after "+" "++" scheme (plus_all host) scheme_plus).
  f_equal. f_equal. unfold plus_all.
  destruct (String.eqb scheme "file").
  - rewrite (replace_absent ":" "+" host host_other).
    now apply replace_undo.
  - rewrite (replace_absent "/" "+").
    + now apply replace_undo.
    + apply has_char_replace; [discriminate | assumption].
Qed.

Lemma decode_encode_absent :
  decode (plus_all scheme +:+ "+++" +:+ plus_all host)
  = Ok (SiteKey scheme host EmptyString None).
Proof.
  rewrite plus_all_scheme. unfold decode, split_ctx.
  pose proof base_marker as Hb. unfold contains in *.
  destruct (partition CTX_MARKER (scheme +:+ "+++" +:+ plus_all host))
    as [[before after] |]; [discriminate Hb |].
  now rewrite split_origin_base.
Qed.

Lemma decode_encode_present (n : Z) :
  decode (plus_all scheme +:+ "+++" +:+ plus_all host
          +:+ CTX_MARKER +:+ str_of_int n)
  = Ok (SiteKey scheme host (str_of_int n) (Some n)).
Proof.
  rewrite plus_all_scheme. unfold decode, split_ctx, contains.
  replace (scheme +:+ "+++" +:+ plus_all host
           +:+ CTX_MARKER +:+ str_of_int n)
    with ((scheme +:+ "+++" +:+ plus_all host)
          +:+ CTX_MARKER +:+ str_of_int n)
    by (now rewrite !append_assoc).
  unfold CTX_MARKER at 1 3 4.
  change "^userContextId=" with (String "^" "userContextId=").
  rewrite (partition_after_absent "^" "userContextId=" _ _ eq_refl base_marker).
  now rewrite split_origin_base, IntFacts.int_str_of_int.
Qed.

End RoundTrip.

(** C1, as the code has it: decoding the directory name built for
    (scheme, host, containerId) gives these three back when the scheme
    holds none of [:], [/] and [+], the host holds no [+], neither holds the
    marker [^userContextId=], the host holds no [:] under the scheme [file]
    and no [/] under any other scheme, and the container is absent or not
    zero. *)
Theorem decode_encode_roundtrip (scheme host : string) (containerId : option Z) :
  has_char ":" scheme = false ->
  has_char "/" scheme = false ->
  has_char "+" scheme = false ->
  contains CTX_MARKER scheme = false ->
  has_char "+" host = false ->
  contains CTX_MARKER host = false ->
  has_char (if String.eqb scheme "file" then ":" else "/")%char host = false ->
  containerId <> Some 0 ->
  decode_key (encode scheme host containerId) = Ok (scheme, host, containerId).
Proof.
  intros H1 H2 H3 H4 H5 H6 H7 Hc. rewrite encode_unfold.
  unfold decode_key, ctx_suffix.
  destruct containerId as [n|].
  - destruct (Z.eqb_spec n 0) as [->|_]; [congruence |].
    now rewrite decode_encode_present.
  - rewrite append_empty_r. now rewrite decode_encode_absent.
Qed.

Lemma decode_encode_roundtrip_witness :
  (has_char ":" "https" = false /\ has_char "/" "https" = false
   /\ has_char "+" "https" = false /\ contains CTX_MARKER "https" = false
   /\ has_char "+" "localhost:8080" = false
   /\ contains CTX_MARKER "localhost:8080" = false
   /\ has_char "/" "localhost:8080" = false
   /\ Some 7 <> Some 0)
  /\ decode_key (encode "https" "localhost:8080" (Some 7))
     = Ok ("https", "localhost:8080", Some 7).
Proof.
  split.
  - repeat (split; [reflexivity |]). discriminate.
  - apply decode_encode_roundtrip; (reflexivity || discriminate).
Defined.

(** Each of the conditions is needed: a host with both [:] and [/], a host
    with a [+], a scheme with a [+], a host that holds the marker, and the
    default container written as [0] do not come back. *)
Lemma decode_encode_failures :
  decode_key (encode "file" "/C:/x.html" None)
  = Ok ("file", "/C//x.html", None)
  /\ decode_key (encode "https" "a+b" None) = Ok ("https", "a:b", None)
  /\ decode_key (encode "a+++b" "c" None) = Ok ("a", "b:::c", None)
  /\ decode_key (encode "https" "a^userContextId=3" None)
     = Ok ("https", "a", Some 3)
  /\ decode_key (encode "https" "example.com" (Some 0))
     = Ok ("https", "example.com", None).
Proof. repeat (split; [reflexivity |]). reflexivity. Qed.

(** C1 as stated fails: the host of [file:///C:/x.html] holds a [:] and
    a [/]; both are written as [+], and both come back as [/]. *)
Lemma decode_encode_not_inverse :
  encode "file" "/C:/x.html" None = "file++++C++x.html"
  /\ decode_key (encode "file" "/C:/x.html" None)
     = Ok ("file", "/C//x.html", None)
  /\ decode_key (encode "file" "/C:/x.html" None)
     <> Ok ("file", "/C:/x.html", None).
Proof. split; [reflexivity | split; [reflexivity | discriminate]]. Qed.

End CodecFacts.

(** * The identifier resolvers *)

Module ResolverFacts.

Lemma handler_crashed e e' :
  contexts_handler e = Crashed e' -> ~ handled e'.
Proof.
  unfold handled. destruct e; simpl; intros [= <-]; intuition discriminate.
Qed.

Lemma handler_handled e : handled e -> contexts_handler e = Diagnosed e.
Proof. intros [-> | [-> | ->]]; reflexivity. Qed.

Lemma loop_crashed version identities e :
  ending (contexts_loop version identities) = Crashed e -> ~ handled e.
Proof.
  induction identities as [|identity rest IH]; simpl; [discriminate |].
  destruct (context_of_identity version identity) as [item | e0]; simpl.
  - exact IH.
  - apply handler_crashed.
Qed.

(** The exceptions named in the [except] clause never leave the
    generator. *)
Lemma contexts_crashed f e :
  ending (read_user_contexts f) = Crashed e -> ~ handled e.
Proof.
  unfold read_user_contexts.
  destruct (contexts_prologue f) as [[version identities] | e0]; simpl.
  - apply loop_crashed.
  - apply handler_crashed.
Qed.

(** The pairs yielded before a failing identity stay in the sequence. *)
Lemma loop_prefix version before failing rest items e :
  Forall2 (fun identity item => context_of_identity version identity = Ok item)
    before items ->
  context_of_identity version failing = Raise e ->
  contexts_loop version (before ++ failing :: rest)
  = Generated items (contexts_handler e).
Proof.
  intros Hall Hfail. induction Hall as [|identity item before items Hi _ IH].
  - simpl. now rewrite Hfail.
  - simpl. rewrite Hi, IH. reflexivity.
Qed.

Lemma loop_all version identities items :
  Forall2 (fun identity item => context_of_identity version identity = Ok item)
    identities items ->
  contexts_loop version identities = Generated items Exhausted.
Proof.
  induction 1 as [|identity item before items Hi _ IH]; simpl;
    [reflexivity |]. rewrite Hi, IH. reflexivity.
Qed.

(** C5, as the code has it: no [AssertionError], [FileNotFoundError] or
    [ValueError] leaves [read_user_contexts].  A missing file, a file that
    is not JSON and an object whose version is neither 4 nor 5 give the
    empty sequence after the diagnostic; an identity that fails with
    [ValueError] ends the sequence after the diagnostic, and the containers
    yielded before it stay yielded. *)
Theorem read_user_contexts_handled :
  (forall f e, ending (read_user_contexts f) = Crashed e -> ~ handled e)
  /\ read_user_contexts FileMissing = Generated [] (Diagnosed FileNotFoundError)
  /\ read_user_contexts FileNotJson = Generated [] (Diagnosed ValueError)
  /\ (forall items version,
        Py.dict_lookup "version" items = Some version ->
        Py.eq_int version 4 = false -> Py.eq_int version 5 = false ->
        read_user_contexts (FileJson (JObj items))
        = Generated [] (Diagnosed AssertionError))
  /\ (forall items version identities before failing rest yielded_before,
        Py.dict_lookup "version" items = Some version ->
        Py.eq_int version 4 || Py.eq_int version 5 = true ->
        Py.dict_lookup "identities" items = Some identities ->
        Py.iterate identities = Ok (before ++ failing :: rest) ->
        Forall2 (fun identity item =>
                   context_of_identity version identity = Ok item)
          before yielded_before ->
        context_of_identity version failing = Raise ValueError ->
        read_user_contexts (FileJson (JObj items))
        = Generated yielded_before (Diagnosed ValueError)).
Proof.
  split; [exact contexts_crashed |].
  split; [reflexivity |]. split; [reflexivity |]. split.
  - intros items version Hv H4 H5.
    unfold read_user_contexts, contexts_prologue. simpl.
    rewrite Hv. simpl. rewrite H4, H5. reflexivity.
  - intros items version identities before failing rest yb Hv Hver Hi Hit Hall Hf.
    unfold read_user_contexts, contexts_prologue. simpl.
    rewrite Hv. simpl. rewrite Hver, Hi. simpl. rewrite Hit. simpl.
    now rewrite (loop_prefix _ _ _ _ _ _ Hall Hf).
Qed.

Lemma read_user_contexts_handled_witness :
  read_user_contexts
    (FileJson (JObj [("version", JInt 3); ("identities", JArr [])]))
  = Generated [] (Diagnosed AssertionError)
  /\ read_user_contexts
       (FileJson (JObj [("version", JInt 4);
                        ("identities", JArr [personal_v4; bad_id; personal_v4])]))
     = Generated [(1, JStr "personal")] (Diagnosed ValueError).
Proof.
  destruct read_user_contexts_handled as (_ & _ & _ & Hversion & Hloop).
  split.
  - apply (Hversion _ (JInt 3)); reflexivity.
  - apply (Hloop _ (JInt 4) (JArr [personal_v4; bad_id; personal_v4])
             [personal_v4] bad_id [personal_v4]); try reflexivity.
    constructor; [reflexivity | constructor].
Defined.

(** C5 as stated fails: an identity without [name] and without [l10nID] is
    not skipped, the [KeyError] leaves the generator; and a failure after
    the first identity leaves a sequence that is not empty. *)
Lemma read_user_contexts_raises :
  read_user_contexts
    (FileJson (JObj [("version", JInt 4);
                     ("identities", JArr [JObj [("userContextId", JInt 1)]])]))
  = Generated [] (Crashed KeyError)
  /\ read_user_contexts
       (FileJson (JObj [("version", JInt 4);
                        ("identities", JArr [personal_v4; bad_id])]))
     = Generated [(1, JStr "personal")] (Diagnosed ValueError).
Proof. split; reflexivity. Qed.

(** Other shapes that are valid JSON leave the generator with an exception
    as well. *)
Lemma read_user_contexts_raises_more :
  ending (read_user_contexts (FileJson (JObj []))) = Crashed KeyError
  /\ ending (read_user_contexts (FileJson (JArr []))) = Crashed TypeError
  /\ ending (read_user_contexts
               (FileJson (JObj [("version", JInt 5);
                                ("identities", JArr [JInt 7])])))
     = Crashed AttributeError
  /\ ending (read_user_contexts FileUnreadable) = Crashed OSError.
Proof. repeat split. Qed.

(** ** Names synthesised from the localisation id *)

(** The examples of the specification. *)
Lemma name_examples :
  name_v4 (JStr "userContextPersonal.label") = Ok (JStr "personal")
  /\ name_v5 (JStr "user-context-personal") = Ok (JStr "personal")
  /\ read_user_contexts
       (FileJson (JObj [("version", JInt 5);
                        ("identities",
                         JArr [JObj [("userContextId", JInt 2);
                                     ("l10nId", JStr "user-context-work")]])]))
     = Generated [(2, JStr "work")] Exhausted.
Proof. repeat split. Qed.

(** Under version 4 the code gives the name of the specification for
    every [l10nID] whose first segment is not the bare prefix. *)
Lemma startswith_drop_empty p s :
  PyStr.startswith p s = true -> PyStr.drop (String.length p) s = EmptyString ->
  s = p.
Proof.
  revert s. induction p as [|a p IH]; intros s; simpl.
  - now intros _ ->.
  - destruct s as [|b s]; [discriminate |].
    intros H Hd. apply andb_true_iff in H as [Hab Hp].
    apply Ascii.eqb_eq in Hab as ->. f_equal. now apply IH.
Qed.

Lemma name_v4_matches_spec (s : string) :
  first_segment s <> "userContext" ->
  name_v4 (JStr s) = Ok (JStr (name_v4_spec s)).
Proof.
  intros Hne. unfold name_v4, name_v4_spec. fold (first_segment s).
  destruct (PyStr.startswith "userContext" (first_segment s)) eqn:Hp;
    [| reflexivity].
  destruct (PyStr.drop 11 (first_segment s)) eqn:Hd; [| reflexivity].
  destruct Hne. now apply startswith_drop_empty.
Qed.

Lemma name_v4_prefixed (s : string) c rest :
  first_segment s = "userContext" +:+ String c rest ->
  name_v4 (JStr s) = Ok (JStr (String (PyStr.lower_char c) rest)).
Proof.
  unfold first_segment, name_v4. intros ->.
  rewrite PyStrFacts.startswith_app.
  change 11%nat with (String.length "userContext").
  now rewrite PyStrFacts.drop_app.
Qed.

Lemma name_v4_plain (s : string) :
  PyStr.startswith "userContext" (first_segment s) = false ->
  name_v4 (JStr s) = Ok (JStr (first_segment s)).
Proof. unfold first_segment, name_v4. now intros ->. Qed.

Lemma name_v5_strips (s : string) :
  name_v5 (JStr s) = Ok (JStr (PyStr.removeprefix "user-context-" s)).
Proof. reflexivity. Qed.

(** C7 at the input where the code leaves it: when the segment is the bare
    prefix there is no character to lower-case, [name[11]] raises
    [IndexError], and the exception leaves [read_user_contexts]. *)
Theorem name_v4_bare_prefix_raises :
  name_v4 (JStr "userContext.label") = Raise IndexError
  /\ read_user_contexts
       (FileJson (JObj [("version", JInt 4);
                        ("identities",
                         JArr [JObj [("userContextId", JInt 6);
                                     ("l10nID", JStr "userContext.label")]])]))
     = Generated [] (Crashed IndexError).
Proof. split; reflexivity. Qed.

End ResolverFacts.

Module LookupFacts.

Lemma name_eq_iff ctx_name name :
  name_eq ctx_name name = true <-> ctx_name = JStr name.
Proof.
  destruct ctx_name; simpl; try (split; [discriminate | congruence]).
  rewrite String.eqb_eq. split; congruence.
Qed.

Lemma first_id_named_some name items ctx_id :
  first_id_named name items = Some ctx_id -> In (ctx_id, JStr name) items.
Proof.
  induction items as [|[i n] rest IH]; simpl; [discriminate |].
  destruct (name_eq n name) eqn:E.
  - intros [= ->]. apply name_eq_iff in E as ->. now left.
  - intros H. right. now apply IH.
Qed.

Lemma first_id_named_none name items :
  first_id_named name items = None <->
  (forall ctx_id, ~ In (ctx_id, JStr name) items).
Proof.
  induction items as [|[i n] rest IH]; simpl.
  - split; [intros _ ctx_id [] | reflexivity].
  - destruct (name_eq n name) eqn:E.
    + apply name_eq_iff in E as ->. split; [discriminate |].
      intros H. destruct (H i). now left.
    + rewrite IH. split.
      * intros H ctx_id [[= -> ->] | Hin]; [| now apply (H ctx_id)].
        assert (name_eq (JStr name) name = true) by now apply name_eq_iff.
        congruence.
      * intros H ctx_id Hin. apply (H ctx_id). now right.
Qed.

(** What the lookup does when reading the file raises nothing on the way.
    The containers are those [read_user_contexts] yields.  When one of them has the name, the id of the first such one is
    returned, however the generator would have ended.  When none has it and no
    exception leaves the generator, the reserved name gives 4294967295 and
    any other name raises [KeyError]. *)
Lemma find_context_id_by_name_spec (f : containers_file) (name : string) :
  let containers := yielded (read_user_contexts f) in
  ((exists ctx_id, In (ctx_id, JStr name) containers) ->
   exists ctx_id, find_context_id_by_name f name = Ok ctx_id
                  /\ In (ctx_id, JStr name) containers)
  /\ ((forall ctx_id, ~ In (ctx_id, JStr name) containers) ->
      (forall e, ending (read_user_contexts f) <> Crashed e) ->
      (name = USER_CONTEXT_WEB_EXT ->
       find_context_id_by_name f name = Ok 4294967295)
      /\ (name <> USER_CONTEXT_WEB_EXT ->
          find_context_id_by_name f name = Raise KeyError)).
Proof.
  intros containers. unfold find_context_id_by_name. fold containers. split.
  - intros [i Hin].
    destruct (first_id_named name containers) as [ctx_id|] eqn:E.
    + exists ctx_id. split; [reflexivity |].
      now apply first_id_named_some.
    + destruct (proj1 (first_id_named_none _ _) E i Hin).
  - intros Hnone Hend.
    rewrite (proj2 (first_id_named_none _ _) Hnone).
    destruct (ending (read_user_contexts f)) as [| e | e] eqn:E;
      try (now destruct (Hend e));
      (split; intros Hname;
       [apply String.eqb_eq in Hname | apply String.eqb_neq in Hname];
       now rewrite Hname).
Qed.

Lemma find_context_id_by_name_spec_witness :
  find_context_id_by_name FileMissing USER_CONTEXT_WEB_EXT = Ok 4294967295
  /\ find_context_id_by_name FileMissing "work" = Raise KeyError
  /\ exists ctx_id,
       find_context_id_by_name
         (FileJson (JObj [("version", JInt 4);
                          ("identities", JArr [personal_v4; bad_id])]))
         "personal" = Ok ctx_id
       /\ In (ctx_id, JStr "personal") [(1, JStr "personal")].
Proof.
  split; [| split].
  - apply (find_context_id_by_name_spec FileMissing USER_CONTEXT_WEB_EXT);
      [intros ctx_id [] | discriminate | reflexivity].
  - apply (find_context_id_by_name_spec FileMissing "work");
      [intros ctx_id [] | discriminate | discriminate].
  - apply (find_context_id_by_name_spec
             (FileJson (JObj [("version", JInt 4);
                              ("identities", JArr [personal_v4; bad_id])]))
             "personal").
    exists 1. now left.
Defined.

(** C8 at inputs where the code leaves it: an identity with neither
    [name] nor [l10nId] makes [read_user_contexts] raise [KeyError], and a
    file that holds a JSON array makes it raise [TypeError]; no container
    matches, and the exception comes out of the lookup, for the reserved
    name in place of 4294967295 and for another name in place of the
    [KeyError] of the lookup itself. *)
Theorem find_context_id_by_name_raises :
  yielded (read_user_contexts nameless_v5) = []
  /\ find_context_id_by_name nameless_v5 USER_CONTEXT_WEB_EXT = Raise KeyError
  /\ yielded (read_user_contexts (FileJson (JArr []))) = []
  /\ find_context_id_by_name (FileJson (JArr [])) USER_CONTEXT_WEB_EXT
     = Raise TypeError
  /\ find_context_id_by_name (FileJson (JArr [])) "work" = Raise TypeError.
Proof. repeat (split; [reflexivity |]). reflexivity. Qed.

(** The lookup is lazy: a match found before the failing identity is
    returned. *)
Lemma find_context_id_by_name_lazy :
  find_context_id_by_name
    (FileJson (JObj [("version", JInt 4);
                     ("identities", JArr [personal_v4; JInt 0])]))
    "personal" = Ok 1.
Proof. reflexivity. Qed.

Lemma find_uuid_skip json_loads before rest ext_id :
  Forall (skipped json_loads) before ->
  find_uuid_by_ext_id json_loads (before ++ rest) ext_id
  = find_uuid_by_ext_id json_loads rest ext_id.
Proof.
  induction 1 as [|[name value] before Hskip _ IH]; [reflexivity |].
  simpl. destruct (String.eqb name "extensions.webextensions.uuids") eqn:E;
    [| exact IH].
  apply String.eqb_eq in E.
  destruct (Hskip E) as (s & Hs & Hloads). simpl in Hs. subst value.
  simpl. rewrite Hloads. exact IH.
Qed.

(** C10: the result is decided by the first entry named
    [extensions.webextensions.uuids] whose string parses as JSON.  Entries
    of that name before it, whose strings do not parse, are passed over;
    the map it parses to gives the value for the extension id, or [None]
    when the id is not a key; the entries after it play no part. *)
Theorem find_uuid_first_parsable (json_loads : string -> option json)
    (before after : list (string * json)) (s : string)
    (uuids : list (string * json)) (ext_id : string) :
  Forall (skipped json_loads) before ->
  json_loads s = Some (JObj uuids) ->
  find_uuid_by_ext_id json_loads
    (before ++ ("extensions.webextensions.uuids", JStr s) :: after) ext_id
  = Ok (default JNull (Py.dict_lookup ext_id uuids)).
Proof.
  intros Hbefore Hloads. rewrite find_uuid_skip by assumption.
  simpl. now rewrite Hloads.
Qed.

Lemma find_uuid_first_parsable_witness :
  find_uuid_by_ext_id loads_example
    ([("browser.startup.page", JInt 3);
      ("extensions.webextensions.uuids", JStr "{not json")]
     ++ ("extensions.webextensions.uuids", JStr uuids_text)
     :: [("extensions.webextensions.uuids", JInt 5)])
    "ext@example.com"
  = Ok (JStr "11111111-2222-3333-4444-555555555555")
  /\ find_uuid_by_ext_id loads_example
       ([] ++ ("extensions.webextensions.uuids", JStr uuids_text) :: [])
       "other@example.com"
     = Ok JNull.
Proof.
  split.
  - apply (find_uuid_first_parsable loads_example _ _ uuids_text
             [("ext@example.com", JStr "11111111-2222-3333-4444-555555555555")]);
      [| reflexivity].
    repeat constructor; [discriminate |].
    intros _. exists "{not json". split; reflexivity.
  - apply (find_uuid_first_parsable loads_example [] [] uuids_text
             [("ext@example.com", JStr "11111111-2222-3333-4444-555555555555")]);
      [constructor | reflexivity].
Defined.

(** A value of the preference that is not a string, and a string that
    parses to something other than a map, raise. *)
Lemma find_uuid_raises :
  find_uuid_by_ext_id loads_example
    [("extensions.webextensions.uuids", JInt 5)] "ext@example.com"
  = Raise TypeError
  /\ find_uuid_by_ext_id (fun _ => Some (JArr []))
       [("extensions.webextensions.uuids", JStr "[]")] "ext@example.com"
     = Raise AttributeError.
Proof. split; reflexivity. Qed.

End LookupFacts.

(** * The pretty-printer *)

Module PrinterFacts.
Import Printer PrinterAux.

Section Run.

Variable float_repr : spec_float -> string.
Variable natural_lt : handle -> handle -> option bool.
Variable id_of : handle -> Z.
Variable h : heap.

Abbreviation safe_repr := (_safe_repr float_repr natural_lt id_of h).
Abbreviation select := (select float_repr natural_lt id_of h).

Lemma safe_repr_S fuel x c ml lvl sd :
  safe_repr (S fuel) x c ml lvl sd
  = match select (h !!! x) sd with
    | Done out => Some (out, c)
    | Loop children components format =>
        descend (fun o c => safe_repr fuel o c ml (lvl + 1) sd)
          (h !!! x) (id_of x) children components format c ml lvl
    end.
Proof. reflexivity. Qed.

(** ** The context is restored *)

Lemma repr_each_restore f objects c l c' :
  restoring f -> repr_each f objects c = Some (Ok l, c') -> c' = c.
Proof.
  intros Hf. revert c l c'.
  induction objects as [|o rest IH]; intros c l c'; simpl.
  - now intros [= _ <-].
  - destruct (f o c) as [[[rep rd rc | e] c1] |] eqn:Ef; try discriminate.
    assert (c1 = c) as -> by (eapply Hf; [exact Ef | exact I]).
    destruct (repr_each f rest c) as [[[l1 | e] c2] |] eqn:Er; try discriminate.
    intros [= _ <-]. eapply IH. exact Er.
Qed.

Lemma descend_restore f o objid children components format c ml lvl :
  restoring f ->
  forall out c',
    descend f o objid children components format c ml lvl = Some (out, c') ->
    returns out -> c' = c.
Proof.
  intros Hf out c'. unfold descend.
  destruct (depth_reached ml lvl); [now intros [= _ <-] |].
  case_bool_decide as Hin; [now intros [= _ <-] |].
  destruct (repr_each f children ({[objid]} ∪ c)) as [[[l | e] c1] |] eqn:Er;
    try discriminate.
  - apply repr_each_restore in Er as ->; [| assumption].
    intros [= _ <-] _. set_solver.
  - now intros [= <- _] [].
Qed.

Lemma safe_repr_restoring fuel ml lvl sd :
  restoring (fun x c => safe_repr fuel x c ml lvl sd).
Proof.
  revert lvl. induction fuel as [|fuel IH]; intros lvl x c out c'.
  - discriminate.
  - rewrite safe_repr_S.
    destruct (select (h !!! x) sd) as [out0 | children components format].
    + now intros [= _ <-].
    + apply descend_restore. apply IH.
Qed.

(** ** Enough fuel *)

Lemma repr_each_total f objects c :
  restoring f -> (forall x, is_Some (f x c)) ->
  is_Some (repr_each f objects c).
Proof.
  intros Hf Htot. induction objects as [|o rest IH]; simpl; [eauto |].
  destruct (Htot o) as [[[rep rd rc | e] c1] Ef]; rewrite Ef; [| eauto].
  assert (c1 = c) as -> by (eapply Hf; [exact Ef | exact I]).
  destruct IH as [[[l | e] c2] Er]; rewrite Er; eauto.
Qed.

Lemma descend_total f o objid children components format c ml lvl :
  restoring f ->
  (objid ∉ c -> forall x, is_Some (f x ({[objid]} ∪ c))) ->
  is_Some (descend f o objid children components format c ml lvl).
Proof.
  intros Hf Htot. unfold descend.
  destruct (depth_reached ml lvl); [eauto |].
  case_bool_decide as Hin; [eauto |].
  destruct (repr_each_total f children ({[objid]} ∪ c) Hf (Htot Hin))
    as [[[l | e] c1] Er]; rewrite Er; eauto.
Qed.

Lemma select_outside x sd :
  x ∉ dom h -> exists out, select (h !!! x) sd = Done out.
Proof.
  intros Hx. apply not_elem_of_dom in Hx.
  rewrite lookup_total_alt, Hx. simpl. eauto.
Qed.

Lemma pending_shrinks x c :
  x ∈ dom h -> id_of x ∉ c ->
  (size (pending id_of h ({[id_of x]} ∪ c)) < size (pending id_of h c))%nat.
Proof.
  intros Hx Hc. apply subset_size. unfold pending.
  split.
  - intros y. rewrite !elem_of_filter. set_solver.
  - intros Hsub. assert (Hin : x ∈ filter (fun y => id_of y ∉ c) (dom h))
      by (apply elem_of_filter; auto).
    apply Hsub in Hin. apply elem_of_filter in Hin as [Hin _]. set_solver.
Qed.

Lemma pending_bound c : (size (pending id_of h c) <= size (dom h))%nat.
Proof. apply subseteq_size. unfold pending. intros y Hy. now apply elem_of_filter in Hy. Qed.

Lemma safe_repr_total fuel x c ml lvl sd :
  (size (pending id_of h c) < fuel)%nat ->
  is_Some (safe_repr fuel x c ml lvl sd).
Proof.
  revert x c lvl. induction fuel as [|fuel IH]; intros x c lvl Hfuel; [lia |].
  rewrite safe_repr_S.
  destruct (select (h !!! x) sd) as [out | children components format] eqn:Es;
    [eauto |].
  apply descend_total; [apply safe_repr_restoring |].
  intros Hc y. apply IH.
  assert (Hx : x ∈ dom h).
  { destruct (decide (x ∈ dom h)) as [|Hout]; [assumption |].
    destruct (select_outside x sd Hout) as [out Eo]. congruence. }
  pose proof (pending_shrinks x c Hx Hc). lia.
Qed.

(** ** More fuel changes nothing *)

Lemma repr_each_mono f g objects c r :
  (forall x c r, f x c = Some r -> g x c = Some r) ->
  repr_each f objects c = Some r -> repr_each g objects c = Some r.
Proof.
  intros Hfg. revert c r. induction objects as [|o rest IH]; intros c r; simpl;
    [trivial |].
  destruct (f o c) as [[[rep rd rc | e] c1] |] eqn:Ef; try discriminate;
    rewrite (Hfg _ _ _ Ef); [| trivial].
  destruct (repr_each f rest c1) as [r1 |] eqn:Er; [| discriminate].
  now rewrite (IH _ _ Er).
Qed.

Lemma descend_mono f g o objid children components format c ml lvl r :
  (forall x c r, f x c = Some r -> g x c = Some r) ->
  descend f o objid children components format c ml lvl = Some r ->
  descend g o objid children components format c ml lvl = Some r.
Proof.
  intros Hfg. unfold descend.
  destruct (depth_reached ml lvl); [trivial |].
  case_bool_decide; [trivial |].
  destruct (repr_each f children ({[objid]} ∪ c)) as [r1 |] eqn:Er;
    [| discriminate].
  now rewrite (repr_each_mono f g _ _ _ Hfg Er).
Qed.

Lemma safe_repr_mono_S fuel x c ml lvl sd r :
  safe_repr fuel x c ml lvl sd = Some r ->
  safe_repr (S fuel) x c ml lvl sd = Some r.
Proof.
  revert x c lvl r. induction fuel as [|fuel IH]; intros x c lvl r;
    [discriminate |].
  rewrite (safe_repr_S (S fuel)), (safe_repr_S fuel).
  destruct (select (h !!! x) sd) as [out | children components format];
    [trivial |].
  apply descend_mono. intros y c1 r1. apply IH.
Qed.

Lemma safe_repr_mono fuel fuel' x c ml lvl sd r :
  (fuel <= fuel')%nat ->
  safe_repr fuel x c ml lvl sd = Some r ->
  safe_repr fuel' x c ml lvl sd = Some r.
Proof.
  induction 1 as [|fuel' _ IH]; [trivial |].
  intros Hr. apply safe_repr_mono_S. now apply IH.
Qed.

(** Whatever the heap holds, the printer comes to an outcome, and any fuel
    above the number of objects of the heap gives it. *)
Lemma safe_repr_terminates x c ml lvl sd :
  exists r, forall fuel,
    (size (dom h) < fuel)%nat -> safe_repr fuel x c ml lvl sd = Some r.
Proof.
  destruct (safe_repr_total (S (size (dom h))) x c ml lvl sd) as [r Hr].
  { pose proof (pending_bound c). lia. }
  exists r. intros fuel Hfuel.
  apply (safe_repr_mono (S (size (dom h)))); [lia | exact Hr].
Qed.

(** ** Cycle edges *)

Lemma select_descends o sd :
  descends o = true ->
  exists children components format,
    select o sd = Loop children components format.
Proof.
  destruct o as [| s | items | conn | elems | elems | cls cls_str rep];
    simpl; try discriminate.
  - destruct items; [discriminate |]. intros _. unfold mapping_branch.
    rewrite bool_decide_eq_false_2 by discriminate. eauto.
  - intros Hc. unfold mapping_branch.
    rewrite bool_decide_eq_false_2; [eauto |].
    intros E. rewrite E in Hc. discriminate.
  - destruct elems; [discriminate |]. intros _.
    rewrite bool_decide_eq_false_2 by discriminate. eauto.
  - destruct elems; [discriminate |]. intros _.
    case_bool_decide; [eauto |].
    rewrite bool_decide_eq_false_2 by discriminate. eauto.
Qed.

Lemma safe_repr_marker fuel x c ml lvl sd :
  descends (h !!! x) = true ->
  depth_reached ml lvl = false ->
  id_of x ∈ c ->
  safe_repr (S fuel) x c ml lvl sd
  = Some (Return (_recursion (h !!! x) (id_of x)) false true, c).
Proof.
  intros Hd Hdepth Hin. rewrite safe_repr_S.
  destruct (select_descends _ sd Hd) as (children & components & format & ->).
  unfold descend. rewrite Hdepth.
  now rewrite bool_decide_eq_true_2.
Qed.

(** ** Every child is rendered as if it were alone *)

Lemma repr_each_children f objects c (render : handle -> string * bool * bool) :
  restoring f ->
  (forall y, y ∈ objects -> exists c', f y c = Some (return_of (render y), c')) ->
  repr_each f objects c = Some (Ok (map render objects), c).
Proof.
  intros Hf. induction objects as [|o rest IH]; intros Hall; [reflexivity |].
  simpl. destruct (Hall o) as [c1 Ef]; [left |].
  assert (c1 = c) as -> by (eapply Hf; [exact Ef | exact I]).
  rewrite Ef. unfold return_of.
  rewrite IH by (intros y Hy; apply Hall; now right).
  now destruct (render o) as [[rep rd] rc].
Qed.

Lemma safe_repr_children fuel x c ml lvl sd children components format
    (render : handle -> string * bool * bool) :
  select (h !!! x) sd = Loop children components format ->
  depth_reached ml lvl = false ->
  id_of x ∉ c ->
  (forall y, y ∈ children ->
     exists c', safe_repr fuel y ({[id_of x]} ∪ c) ml (lvl + 1) sd
                = Some (return_of (render y), c')) ->
  safe_repr (S fuel) x c ml lvl sd
  = Some (Return (format (join ", " (components (map render children))))
            (forallb readable_of (map render children))
            (existsb recursive_of (map render children)), c).
Proof.
  intros Es Hdepth Hc Hall. rewrite safe_repr_S, Es. unfold descend.
  rewrite Hdepth, bool_decide_eq_false_2 by assumption.
  rewrite (repr_each_children _ _ _ render);
    [| apply safe_repr_restoring | exact Hall].
  do 2 f_equal. set_solver.
Qed.

End Run.

End PrinterFacts.

Module PrinterClaims.
Import Printer PrinterAux PrinterFacts.

(** C9: an empty mapping (a [dict] or a Projection that counts no object),
    an empty list and an empty tuple render as [{}], [[]] and [()], with
    the flags readable and not recursive and the context untouched, whatever
    the context, the depth limit and the level are: the emptiness test comes
    before the tests of the depth limit and of the context. *)
Theorem empty_containers_render float_repr natural_lt id_of (h : heap)
    fuel x c ml lvl sd :
  (h !!! x = Dict [] ->
   _safe_repr float_repr natural_lt id_of h (S fuel) x c ml lvl sd
   = Some (Return "{}" true false, c))
  /\ (forall conn, h !!! x = Wrapper conn -> count_objects conn = O ->
      _safe_repr float_repr natural_lt id_of h (S fuel) x c ml lvl sd
      = Some (Return "{}" true false, c))
  /\ (h !!! x = List [] ->
      _safe_repr float_repr natural_lt id_of h (S fuel) x c ml lvl sd
      = Some (Return "[]" true false, c))
  /\ (h !!! x = Tuple [] ->
      _safe_repr float_repr natural_lt id_of h (S fuel) x c ml lvl sd
      = Some (Return "()" true false, c)).
Proof.
  rewrite safe_repr_S. split; [| split; [| split]].
  - now intros ->.
  - intros conn -> Hc. simpl. now rewrite Hc.
  - now intros ->.
  - now intros ->.
Qed.

(** Each empty container, with its identity in the context and the depth
    limit 1 passed at level 5. *)
Lemma empty_containers_render_witness :
  let run x :=
    _safe_repr example_float_repr (plain_lt empties_heap) example_id
      empties_heap 1 x {[example_id x]} (Some 1) 5 true in
  run 1%positive = Some (Return "{}" true false, {[example_id 1%positive]})
  /\ run 4%positive = Some (Return "{}" true false, {[example_id 4%positive]})
  /\ run 2%positive = Some (Return "[]" true false, {[example_id 2%positive]})
  /\ run 3%positive = Some (Return "()" true false, {[example_id 3%positive]}).
Proof.
  cbv zeta. split; [| split; [| split]].
  - apply (empty_containers_render example_float_repr (plain_lt empties_heap)
             example_id empties_heap 0 1%positive). reflexivity.
  - apply (empty_containers_render example_float_repr (plain_lt empties_heap)
             example_id empties_heap 0 4%positive) with (conn := Connection [] 0);
      reflexivity.
  - apply (empty_containers_render example_float_repr (plain_lt empties_heap)
             example_id empties_heap 0 2%positive). reflexivity.
  - apply (empty_containers_render example_float_repr (plain_lt empties_heap)
             example_id empties_heap 0 3%positive). reflexivity.
Defined.

(** C2: whatever the heap holds, however it refers to itself,
    [_safe_repr] comes to an outcome, the same for every fuel above the
    number of objects of the heap.  An object that is met while its identity
    is in the context (it is being rendered), that the printer would descend
    into and that the depth limit does not cut, gives the one marker
    [<Recursion on T with id=N>], not readable and recursive, and nothing
    below it is rendered.  A call that returns leaves the context as it found
    it, so the children of an object are each rendered in the same context,
    and an object that occurs twice among them gets the same text twice. *)
Theorem safe_repr_cycle_safe float_repr natural_lt id_of (h : heap)
    x c ml lvl sd :
  (exists r, forall fuel,
     (size (dom h) < fuel)%nat ->
     _safe_repr float_repr natural_lt id_of h fuel x c ml lvl sd = Some r)
  /\ (descends (h !!! x) = true -> depth_reached ml lvl = false ->
      id_of x ∈ c ->
      forall fuel,
        _safe_repr float_repr natural_lt id_of h (S fuel) x c ml lvl sd
        = Some (Return (_recursion (h !!! x) (id_of x)) false true, c))
  /\ (forall fuel out c',
        _safe_repr float_repr natural_lt id_of h fuel x c ml lvl sd
        = Some (out, c') ->
        returns out -> c' = c)
  /\ (forall fuel children components format
             (render : handle -> string * bool * bool),
        select float_repr natural_lt id_of h (h !!! x) sd
        = Loop children components format ->
        depth_reached ml lvl = false ->
        id_of x ∉ c ->
        (forall y, y ∈ children ->
           exists c',
             _safe_repr float_repr natural_lt id_of h fuel y
               ({[id_of x]} ∪ c) ml (lvl + 1) sd
             = Some (return_of (render y), c')) ->
        _safe_repr float_repr natural_lt id_of h (S fuel) x c ml lvl sd
        = Some (Return (format (join ", " (components (map render children))))
                  (forallb readable_of (map render children))
                  (existsb recursive_of (map render children)), c)).
Proof.
  split; [apply safe_repr_terminates |].
  split; [intros Hd Hdepth Hin fuel; now apply safe_repr_marker |].
  split.
  - intros fuel out c'. apply (safe_repr_restoring _ _ _ _ fuel ml lvl sd).
  - intros fuel children components format render.
    apply safe_repr_children.
Qed.

Lemma safe_repr_cycle_safe_witness :
  _safe_repr example_float_repr (plain_lt cyclic_heap) example_id cyclic_heap
    1 1%positive {[1016]} None 1 true
  = Some (Return "<Recursion on list with id=1016>" false true, {[1016]})
  /\ _safe_repr example_float_repr (plain_lt shared_heap) example_id
       shared_heap 3 1%positive ∅ None 0 true
     = Some (Return "[[7], [7]]" true false, ∅).
Proof.
  split.
  - apply (safe_repr_cycle_safe example_float_repr (plain_lt cyclic_heap)
             example_id cyclic_heap 1%positive {[1016]} None 1 true);
      [reflexivity | reflexivity | now apply elem_of_singleton].
  - apply (safe_repr_cycle_safe example_float_repr (plain_lt shared_heap)
             example_id shared_heap 1%positive ∅ None 0 true)
      with (fuel := 2%nat) (children := [2%positive; 2%positive])
           (components := map rep_of) (format := brackets)
           (render := fun _ => ("[7]", true, false));
      [reflexivity | reflexivity | apply not_elem_of_empty |].
    intros y Hy. exists ({[example_id 1%positive]} ∪ ∅).
    assert (y = 2%positive) as ->.
    { apply elem_of_cons in Hy as [-> | Hy]; [reflexivity |].
      apply elem_of_cons in Hy as [-> | Hy]; [reflexivity |].
      now apply elem_of_nil in Hy. }
    vm_compute. reflexivity.
Defined.

(** The list that holds itself, rendered from the empty context: one
    marker for the one cycle edge. *)
Lemma cyclic_list_rendered :
  _safe_repr example_float_repr (plain_lt cyclic_heap) example_id cyclic_heap
    3 1%positive ∅ None 0 true
  = Some (Return "[<Recursion on list with id=1016>, 5]" false true, ∅).
Proof. vm_compute. reflexivity. Qed.

(** Two lists that hold each other, both held by a third: each is
    rendered in full where it is met first on a path, and the edge that
    closes the cycle gives the marker, once on each path. *)
Lemma mutual_lists_rendered :
  _safe_repr example_float_repr (plain_lt mutual_heap) example_id mutual_heap
    4 3%positive ∅ None 0 true
  = Some (Return
            "[[[<Recursion on list with id=1016>]], [[<Recursion on list with id=1032>]]]"
            false true, ∅).
Proof. vm_compute. reflexivity. Qed.

(** With a depth limit the test of the limit comes first: at the limit an
    object that is being rendered is cut like any other, and flagged
    recursive. *)
Lemma cycle_at_depth_limit :
  _safe_repr example_float_repr (plain_lt cyclic_heap) example_id cyclic_heap
    3 1%positive ∅ (Some 1) 0 true
  = Some (Return "[[...], 5]" false true, ∅).
Proof. vm_compute. reflexivity. Qed.

End PrinterClaims.

Module ProjectionFacts.
Import Printer PrinterAux PrinterFacts.

(** ** Sorting keeps the elements *)

Lemma elem_insert_sorted {A} (lt : A -> A -> bool) (a x : A) (l : list A) :
  a ∈ insert_sorted lt x l <-> a = x \/ a ∈ l.
Proof.
  induction l as [|y l IH]; simpl.
  - rewrite list_elem_of_singleton. split; [auto | intros [H | H]; [auto |]].
    now apply elem_of_nil in H.
  - destruct (lt x y).
    + now rewrite elem_of_cons.
    + rewrite !elem_of_cons, IH. tauto.
Qed.

Lemma elem_fold_insert {A} (lt : A -> A -> bool) (a : A) (l acc : list A) :
  a ∈ fold_left (fun acc x => insert_sorted lt x acc) l acc
  <-> a ∈ acc \/ a ∈ l.
Proof.
  revert acc. induction l as [|x l IH]; intros acc; simpl.
  - split; [auto | intros [H | H]; [auto |]]. now apply elem_of_nil in H.
  - rewrite IH, elem_insert_sorted, elem_of_cons. tauto.
Qed.

Lemma elem_sorted {A} (lt : A -> A -> bool) (a : A) (l : list A) :
  a ∈ sorted lt l <-> a ∈ l.
Proof.
  unfold sorted. rewrite elem_fold_insert. split; [| auto].
  intros [H | H]; [| assumption]. now apply elem_of_nil in H.
Qed.

Lemma elem_flatten_items y items :
  y ∈ flatten_items items <-> exists kv, kv ∈ items /\ (y = kv.1 \/ y = kv.2).
Proof.
  unfold flatten_items. induction items as [|kv items IH]; simpl.
  - split; [intros H; now apply elem_of_nil in H |].
    intros (kv & H & _). now apply elem_of_nil in H.
  - rewrite !elem_of_cons, IH. split.
    + intros [-> | [-> | (kv' & Hin & Hy)]].
      * exists kv. split; [now left | now left].
      * exists kv. split; [now left | now right].
      * exists kv'. split; [now right | assumption].
    + intros (kv' & Hin & Hy). apply elem_of_cons in Hin as [-> | Hin].
      * tauto.
      * right. right. eauto.
Qed.

Lemma elem_flatten_sorted lt y items :
  y ∈ flatten_items (sorted lt items) <-> y ∈ flatten_items items.
Proof.
  rewrite !elem_flatten_items.
  split; intros (kv & Hin & Hy); exists kv; split; try assumption;
    now apply (elem_sorted lt).
Qed.

Section Run.

Variable float_repr : spec_float -> string.
Variable natural_lt : handle -> handle -> option bool.
Variable id_of : handle -> Z.
Variable h : heap.

Abbreviation safe_repr := (_safe_repr float_repr natural_lt id_of h).
Abbreviation select := (select float_repr natural_lt id_of h).

(** The children a loop renders are objects the object refers to. *)
Lemma loop_children o sd children components format y :
  select o sd = Loop children components format ->
  y ∈ children -> y ∈ children_of o.
Proof.
  destruct o as [| s | items | conn | elems | elems | cls cls_str rep];
    simpl; try discriminate.
  - destruct (json_dumps float_repr s); discriminate.
  - unfold mapping_branch. case_bool_decide; [discriminate |].
    intros [= <- _ _]. destruct sd; [| trivial].
    now rewrite elem_flatten_sorted.
  - unfold mapping_branch. case_bool_decide; [discriminate |].
    intros [= <- _ _]. destruct sd; [| trivial].
    now rewrite elem_flatten_sorted.
  - case_bool_decide; [discriminate |]. now intros [= <- _ _].
  - repeat case_bool_decide; try discriminate; now intros [= <- _ _].
Qed.

(** ** Identities that are met nowhere below an object do not matter *)

Lemma repr_each_widen f objects c extra :
  (forall y c, y ∈ objects -> f y (c ∪ extra) = widen extra (f y c)) ->
  repr_each f objects (c ∪ extra) = widen extra (repr_each f objects c).
Proof.
  revert c. induction objects as [|o rest IH]; intros c Hf; [reflexivity |].
  simpl. rewrite Hf by left.
  destruct (f o c) as [[[rep rd rc | e] c1] |]; simpl; try reflexivity.
  rewrite IH by (intros y c2 Hy; apply Hf; now right).
  now destruct (repr_each f rest c1) as [[[l | e] c2] |].
Qed.

Lemma descend_widen f o objid children components format c extra ml lvl :
  objid ∉ extra ->
  (forall y c, y ∈ children -> f y (c ∪ extra) = widen extra (f y c)) ->
  descend f o objid children components format (c ∪ extra) ml lvl
  = widen extra (descend f o objid children components format c ml lvl).
Proof.
  intros Hid Hf. unfold descend.
  destruct (decide (objid ∈ c)) as [Hin | Hin].
  - rewrite (bool_decide_eq_true_2 (objid ∈ c)) by assumption.
    rewrite (bool_decide_eq_true_2 (objid ∈ c ∪ extra)) by set_solver.
    now destruct (depth_reached ml lvl).
  - rewrite (bool_decide_eq_false_2 (objid ∈ c)) by assumption.
    rewrite (bool_decide_eq_false_2 (objid ∈ c ∪ extra)) by set_solver.
    destruct (depth_reached ml lvl); [reflexivity |].
    replace ({[objid]} ∪ (c ∪ extra)) with (({[objid]} ∪ c) ∪ extra)
      by (now rewrite (assoc_L (∪))).
    rewrite repr_each_widen by exact Hf.
    destruct (repr_each f children ({[objid]} ∪ c)) as [[[l | e] c1] |]; simpl;
      try reflexivity.
    do 2 f_equal. set_solver.
Qed.

Lemma safe_repr_widen fuel x c extra ml lvl sd :
  (forall y, reach h x y -> id_of y ∉ extra) ->
  safe_repr fuel x (c ∪ extra) ml lvl sd
  = widen extra (safe_repr fuel x c ml lvl sd).
Proof.
  revert x c lvl. induction fuel as [|fuel IH]; intros x c lvl Hreach;
    [reflexivity |].
  rewrite !safe_repr_S.
  destruct (select (h !!! x) sd) as [out | children components format] eqn:Es;
    [reflexivity |].
  apply descend_widen.
  - apply Hreach. constructor.
  - intros y c1 Hy. apply IH. intros z Hz. apply Hreach.
    eapply reach_below; [| exact Hz].
    eapply loop_children; eassumption.
Qed.

(** The loop over the same children in two contexts that differ by
    identities met nowhere below them. *)
Lemma repr_each_two_contexts f objects c extra1 extra2 :
  (forall y c, y ∈ objects -> f y (c ∪ extra1) = widen extra1 (f y c)) ->
  (forall y c, y ∈ objects -> f y (c ∪ extra2) = widen extra2 (f y c)) ->
  fst <$> repr_each f objects (c ∪ extra1)
  = fst <$> repr_each f objects (c ∪ extra2).
Proof.
  intros H1 H2. rewrite !repr_each_widen by assumption.
  now destruct (repr_each f objects c) as [[r c1] |].
Qed.

End Run.

End ProjectionFacts.

Module ProjectionClaim.
Import Printer PrinterAux PrinterFacts ProjectionFacts.

(** C6: a Projection and a [dict] with the same items give the same
    outcome (the same text and flags, or the same exception) under the same
    sort flag, depth limit, level and context.  The store is consistent: it
    counts no object exactly when it returns no item.  Neither object is
    being rendered already, and neither is met again below the items: what a
    store returns does not hold the Projection, and the literal [dict] does
    not hold itself. *)
Theorem projection_prints_as_dict float_repr natural_lt id_of (h : heap)
    (w d : handle) (conn : connection) (c : gset Z) fuel ml lvl sd :
  h !!! w = Wrapper conn ->
  h !!! d = Dict (read_objects conn) ->
  (count_objects conn = O <-> read_objects conn = []) ->
  id_of w ∉ c -> id_of d ∉ c ->
  (forall y z, y ∈ flatten_items (read_objects conn) -> reach h y z ->
     id_of z <> id_of w /\ id_of z <> id_of d) ->
  fst <$> _safe_repr float_repr natural_lt id_of h fuel w c ml lvl sd
  = fst <$> _safe_repr float_repr natural_lt id_of h fuel d c ml lvl sd.
Proof.
  intros Hw Hd Hcount Hwc Hdc Hbelow.
  destruct fuel as [|fuel]; [reflexivity |].
  rewrite !safe_repr_S, Hw, Hd. simpl.
  rewrite (bool_decide_ext _ _ Hcount).
  unfold mapping_branch. case_bool_decide as Hitems; [reflexivity |].
  set (children := flatten_items
                     (if sd then sorted (safe_tuple_lt natural_lt id_of h)
                                  (read_objects conn)
                      else read_objects conn)).
  assert (Hchildren : forall y, y ∈ children ->
                                y ∈ flatten_items (read_objects conn)).
  { intros y. unfold children. destruct sd; [| trivial].
    now rewrite elem_flatten_sorted. }
  unfold descend.
  rewrite (bool_decide_eq_false_2 (id_of w ∈ c)) by assumption.
  rewrite (bool_decide_eq_false_2 (id_of d ∈ c)) by assumption.
  destruct (depth_reached ml lvl); [reflexivity |].
  pose proof (repr_each_two_contexts
                (fun o c => _safe_repr float_repr natural_lt id_of h fuel o c
                              ml (lvl + 1) sd)
                children c {[id_of w]} {[id_of d]}) as E.
  rewrite !(comm_L (∪) c) in E.
  assert (E' := E
    (fun y c1 Hy => safe_repr_widen float_repr natural_lt id_of h fuel y c1
                      {[id_of w]} ml (lvl + 1) sd
                      (fun z Hz => proj2 (not_elem_of_singleton _ _)
                         (proj1 (Hbelow y z (Hchildren y Hy) Hz))))
    (fun y c1 Hy => safe_repr_widen float_repr natural_lt id_of h fuel y c1
                      {[id_of d]} ml (lvl + 1) sd
                      (fun z Hz => proj2 (not_elem_of_singleton _ _)
                         (proj2 (Hbelow y z (Hchildren y Hy) Hz))))).
  clear E.
  destruct (repr_each _ children ({[id_of w]} ∪ c)) as [[[l1 | e1] c1] |];
    destruct (repr_each _ children ({[id_of d]} ∪ c)) as [[[l2 | e2] c2] |];
    simpl in E'; try discriminate; try reflexivity;
    injection E' as ->; reflexivity.
Qed.

Lemma projection_prints_as_dict_witness :
  fst <$> _safe_repr example_float_repr (plain_lt store_heap) example_id
            store_heap 4 1%positive ∅ None 0 true
  = fst <$> _safe_repr example_float_repr (plain_lt store_heap) example_id
              store_heap 4 2%positive ∅ None 0 true.
Proof.
  apply (projection_prints_as_dict example_float_repr (plain_lt store_heap)
           example_id store_heap 1%positive 2%positive
           (Connection [(3%positive, 4%positive); (5%positive, 6%positive)] 2));
    try reflexivity; try apply not_elem_of_empty;
    [split; discriminate |].
  intros y z Hy Hz. simpl in Hy.
  repeat (apply elem_of_cons in Hy as [-> | Hy]);
    try solve [apply elem_of_nil in Hy; destruct Hy];
    below_items Hz.
Defined.

(** What both come to in the example. *)
Lemma projection_example :
  _safe_repr example_float_repr (plain_lt store_heap) example_id store_heap
    4 1%positive ∅ None 0 false
  = _safe_repr example_float_repr (plain_lt store_heap) example_id store_heap
      4 2%positive ∅ None 0 false
  /\ exists rep, _safe_repr example_float_repr (plain_lt store_heap) example_id
                   store_heap 4 1%positive ∅ None 0 false
                 = Some (Return rep true false, ∅).
Proof. split; [vm_compute; reflexivity | eexists; vm_compute; reflexivity]. Qed.

End ProjectionClaim.

Module SortFacts.
Import Printer PrinterAux PrinterFacts ProjectionFacts.

(** ** Sorting depends on the comparisons of the elements only *)

Lemma insert_sorted_ext {A} (lt1 lt2 : A -> A -> bool) (x : A) (l : list A) :
  (forall b, b ∈ l -> lt1 x b = lt2 x b) ->
  insert_sorted lt1 x l = insert_sorted lt2 x l.
Proof.
  induction l as [|y l IH]; intros H; [reflexivity |].
  simpl. rewrite <- (H y) by left.
  destruct (lt1 x y); [reflexivity |].
  f_equal. apply IH. intros b Hb. apply H. now right.
Qed.

Lemma fold_insert_ext {A} (lt1 lt2 : A -> A -> bool) (l acc : list A) :
  (forall a b, a ∈ acc ++ l -> b ∈ acc ++ l -> lt1 a b = lt2 a b) ->
  fold_left (fun acc x => insert_sorted lt1 x acc) l acc
  = fold_left (fun acc x => insert_sorted lt2 x acc) l acc.
Proof.
  revert acc. induction l as [|x l IH]; intros acc H; [reflexivity |].
  simpl. rewrite <- (insert_sorted_ext lt1 lt2 x acc).
  - apply IH. intros a b Ha Hb.
    apply H; rewrite elem_of_app, elem_of_cons.
    + apply elem_of_app in Ha as [Ha | Ha]; [| tauto].
      apply elem_insert_sorted in Ha. tauto.
    + apply elem_of_app in Hb as [Hb | Hb]; [| tauto].
      apply elem_insert_sorted in Hb. tauto.
  - intros b Hb. apply H; rewrite elem_of_app, ?elem_of_cons; tauto.
Qed.

Lemma sorted_ext {A} (lt1 lt2 : A -> A -> bool) (l : list A) :
  (forall a b, a ∈ l -> b ∈ l -> lt1 a b = lt2 a b) ->
  sorted lt1 l = sorted lt2 l.
Proof. intros H. apply fold_insert_ext. exact H. Qed.

Section TwoRuns.

Variable float_repr : spec_float -> string.
Variable natural_lt : handle -> handle -> option bool.
Variable h : heap.
Variables id1 id2 : handle -> Z.

Hypothesis id1_inj : forall x y, id1 x = id1 y -> x = y.
Hypothesis id2_inj : forall x y, id2 x = id2 y -> x = y.
Hypothesis keys_agree : key_order_agrees natural_lt h id1 id2.

Lemma safe_key_lt_agrees m items k1 k2 :
  mapping_items (h !!! m) = Some items ->
  k1 ∈ items.*1 -> k2 ∈ items.*1 ->
  safe_key_lt natural_lt id1 h k1 k2 = safe_key_lt natural_lt id2 h k1 k2.
Proof.
  intros Hm H1 H2. unfold safe_key_lt.
  destruct (natural_lt k1 k2) eqn:Elt; [reflexivity |].
  destruct (String.eqb_spec (type_str (h !!! k1)) (type_str (h !!! k2)))
    as [Et | _]; [| reflexivity].
  now apply (keys_agree m items).
Qed.

Lemma sorted_items_agree m items :
  mapping_items (h !!! m) = Some items ->
  sorted (safe_tuple_lt natural_lt id1 h) items
  = sorted (safe_tuple_lt natural_lt id2 h) items.
Proof.
  intros Hm. apply sorted_ext. intros a b Ha Hb. unfold safe_tuple_lt.
  apply (safe_key_lt_agrees m items); [assumption | |];
    now apply list_elem_of_fmap_2.
Qed.

Lemma select_agrees x sd :
  select float_repr natural_lt id1 h (h !!! x) sd
  = select float_repr natural_lt id2 h (h !!! x) sd.
Proof.
  destruct (h !!! x) as [| s | items | conn | elems | elems | cls cls_str rep]
    eqn:Ex; try reflexivity; simpl; unfold mapping_branch.
  - case_bool_decide; [reflexivity |]. destruct sd; [| reflexivity].
    rewrite (sorted_items_agree x items); [reflexivity |]. now rewrite Ex.
  - case_bool_decide; [reflexivity |]. destruct sd; [| reflexivity].
    rewrite (sorted_items_agree x (read_objects conn)); [reflexivity |].
    now rewrite Ex.
Qed.

Lemma agree_refl out : agree out out.
Proof. destruct out; simpl; auto. Qed.

Lemma same_active_enter x c1 c2 :
  same_active id1 id2 c1 c2 ->
  same_active id1 id2 ({[id1 x]} ∪ c1) ({[id2 x]} ∪ c2).
Proof.
  intros H y. rewrite !elem_of_union, !elem_of_singleton, (H y).
  split; (intros [E | Hin]; [left | now right]).
  - apply id1_inj in E. now subst.
  - apply id2_inj in E. now subst.
Qed.

(** Triples that agree and are not recursive are the same. *)
Lemma agree_flags l1 l2 :
  Forall2 agree_triple l1 l2 ->
  forallb readable_of l1 = forallb readable_of l2
  /\ existsb recursive_of l1 = existsb recursive_of l2
  /\ (existsb recursive_of l1 = false -> l1 = l2).
Proof.
  induction 1 as [|[[r1 rd1] rc1] [[r2 rd2] rc2] l1 l2 Ht _ IH].
  - auto.
  - destruct IH as (IHrd & IHrc & IHeq).
    destruct Ht as (Hrd & Hrc & Hrep).
    unfold readable_of, recursive_of, rep_of in *. simpl in *. subst.
    rewrite IHrd, IHrc. split; [reflexivity | split; [reflexivity |]].
    intros Hnone. apply orb_false_iff in Hnone as [Hrc Hrest].
    rewrite (Hrep Hrc), (IHeq ltac:(congruence)). reflexivity.
Qed.

Lemma repr_each_agree f1 f2 objects c1 c2 :
  restoring f1 -> restoring f2 ->
  (forall y, runs_agree (f1 y c1) (f2 y c2)) ->
  loops_agree (repr_each f1 objects c1) (repr_each f2 objects c2).
Proof.
  intros Hr1 Hr2 Hf. induction objects as [|o rest IH]; simpl.
  - constructor.
  - specialize (Hf o). unfold runs_agree in Hf.
    destruct (f1 o c1) as [[[r1 rd1 rc1 | e1] c1'] |] eqn:E1;
      destruct (f2 o c2) as [[[r2 rd2 rc2 | e2] c2'] |] eqn:E2;
      simpl in Hf; try contradiction; try exact Hf.
    assert (c1' = c1) as -> by (eapply Hr1; [exact E1 | exact I]).
    assert (c2' = c2) as -> by (eapply Hr2; [exact E2 | exact I]).
    unfold loops_agree in IH.
    destruct (repr_each f1 rest c1) as [[[l1 | e1] c1''] |];
      destruct (repr_each f2 rest c2) as [[[l2 | e2] c2''] |];
      simpl; try contradiction; try exact IH.
    constructor; [exact Hf | exact IH].
Qed.

Lemma descend_agree f1 f2 o x children components format c1 c2 ml lvl :
  restoring f1 -> restoring f2 ->
  same_active id1 id2 c1 c2 ->
  (forall y, runs_agree (f1 y ({[id1 x]} ∪ c1)) (f2 y ({[id2 x]} ∪ c2))) ->
  runs_agree
    (descend f1 o (id1 x) children components format c1 ml lvl)
    (descend f2 o (id2 x) children components format c2 ml lvl).
Proof.
  intros Hr1 Hr2 Hc Hf. unfold descend.
  assert (Hmem : bool_decide (id1 x ∈ c1) = bool_decide (id2 x ∈ c2))
    by (apply bool_decide_ext, Hc).
  destruct (depth_reached ml lvl); [simpl; rewrite Hmem; auto |].
  rewrite Hmem. destruct (bool_decide (id2 x ∈ c2)).
  - simpl. split; [reflexivity | split; [reflexivity | discriminate]].
  - pose proof (repr_each_agree f1 f2 children _ _ Hr1 Hr2 Hf) as Hl.
    unfold loops_agree in Hl.
    destruct (repr_each f1 children ({[id1 x]} ∪ c1)) as [[[l1 | e1] c1'] |];
      destruct (repr_each f2 children ({[id2 x]} ∪ c2)) as [[[l2 | e2] c2'] |];
      simpl; try contradiction; try exact Hl.
    destruct (agree_flags l1 l2 Hl) as (Hrd & Hrc & Heq).
    split; [exact Hrd | split; [exact Hrc |]].
    intros Hnone. now rewrite (Heq Hnone).
Qed.

Lemma safe_repr_agree fuel x c1 c2 ml lvl sd :
  same_active id1 id2 c1 c2 ->
  runs_agree (_safe_repr float_repr natural_lt id1 h fuel x c1 ml lvl sd)
             (_safe_repr float_repr natural_lt id2 h fuel x c2 ml lvl sd).
Proof.
  revert x c1 c2 lvl. induction fuel as [|fuel IH]; intros x c1 c2 lvl Hc;
    [exact I |].
  rewrite !safe_repr_S, select_agrees.
  destruct (select float_repr natural_lt id2 h (h !!! x) sd)
    as [out | children components format].
  - apply agree_refl.
  - apply descend_agree; try apply safe_repr_restoring; [assumption |].
    intros y. apply IH. now apply same_active_enter.
Qed.

End TwoRuns.

End SortFacts.

Module SortClaim.
Import Printer PrinterAux PrinterFacts SortFacts.

(** C4, as the code has it: with the sort flag on, two runs that give the
    objects different identities render a mapping to the same text with the
    same readable flag, provided the result is not recursive (no recursion
    marker, whose text holds an identity) and provided the identities of
    both runs order alike every two keys of one mapping that have no natural
    order and have the same type name.  That holds when such keys always
    differ in their type names, and when the runs give the same
    identities. *)
Theorem sorted_rendering_across_runs float_repr natural_lt (h : heap)
    (id1 id2 : handle -> Z) fuel x ml lvl rep readable c :
  (forall a b, id1 a = id1 b -> a = b) ->
  (forall a b, id2 a = id2 b -> a = b) ->
  key_order_agrees natural_lt h id1 id2 ->
  _safe_repr float_repr natural_lt id1 h fuel x ∅ ml lvl true
  = Some (Return rep readable false, c) ->
  _safe_repr float_repr natural_lt id2 h fuel x ∅ ml lvl true
  = Some (Return rep readable false, ∅).
Proof.
  intros Hinj1 Hinj2 Hkeys Hrun.
  assert (Hempty : same_active id1 id2 ∅ ∅)
    by (intros y; split; intros Hy; now apply elem_of_empty in Hy).
  pose proof (safe_repr_agree float_repr natural_lt h id1 id2 Hinj1 Hinj2
                Hkeys fuel x ∅ ∅ ml lvl true Hempty) as Hagree.
  rewrite Hrun in Hagree. unfold runs_agree in Hagree.
  destruct (_safe_repr float_repr natural_lt id2 h fuel x ∅ ml lvl true)
    as [[[rep2 rd2 rc2 | e2] c2] |] eqn:E2; try contradiction.
  destruct Hagree as (<- & <- & Hrep).
  rewrite <- (Hrep eq_refl).
  apply safe_repr_restoring in E2 as ->; [reflexivity | exact I].
Qed.

Lemma mixed_heap_mapping m items :
  mapping_items (mixed_heap !!! m) = Some items ->
  items = [(2%positive, 4%positive); (3%positive, 5%positive)].
Proof.
  unfold mixed_heap. simpl list_to_map.
  repeat (rewrite lookup_total_insert; case_decide;
          [simpl; intros E; first [discriminate E | now injection E] |]).
  rewrite lookup_total_empty. discriminate.
Qed.

Lemma mixed_heap_keys_agree :
  key_order_agrees (plain_lt mixed_heap) mixed_heap example_id reversed_id.
Proof.
  intros m items k1 k2 Hm H1 H2 Hlt Hty.
  apply mixed_heap_mapping in Hm as ->. simpl in H1, H2.
  repeat (apply elem_of_cons in H1 as [-> | H1]);
    try solve [apply elem_of_nil in H1; destruct H1];
    repeat (apply elem_of_cons in H2 as [-> | H2]);
    try solve [apply elem_of_nil in H2; destruct H2];
    solve [discriminate Hlt | discriminate Hty].
Qed.

Lemma example_id_inj a b : example_id a = example_id b -> a = b.
Proof. unfold example_id. lia. Qed.

Lemma reversed_id_inj a b : reversed_id a = reversed_id b -> a = b.
Proof. unfold reversed_id. lia. Qed.

(** A string key and an integer key have no natural order and different
    type names, so reversing the identities changes nothing. *)
Lemma sorted_rendering_across_runs_witness :
  _safe_repr example_float_repr (plain_lt mixed_heap) reversed_id mixed_heap
    3 1%positive ∅ None 0 true
  = Some (Return (braces ("7: 2, " +:+ PyStr.quoted "k" +:+ ": 1")) true false,
          ∅).
Proof.
  apply (sorted_rendering_across_runs example_float_repr (plain_lt mixed_heap)
           mixed_heap example_id reversed_id 3 1%positive None 0 _ true ∅
           example_id_inj reversed_id_inj mixed_heap_keys_agree).
  vm_compute. reflexivity.
Defined.

(** C4 as stated fails: two keys of one class that defines no order are
    ordered by their identities, and a run that gives them identities in the
    other order renders the mapping in the other order. *)
Lemma sorted_rendering_depends_on_identities :
  _safe_repr example_float_repr (plain_lt tags_heap) example_id tags_heap
    3 1%positive ∅ None 0 true
  = Some (Return "{A: 1, B: 2}" true false, ∅)
  /\ _safe_repr example_float_repr (plain_lt tags_heap) reversed_id tags_heap
       3 1%positive ∅ None 0 true
     = Some (Return "{B: 2, A: 1}" true false, ∅).
Proof. split; vm_compute; reflexivity. Qed.

(** The comparison of [_safe_key] is no order: an integer is below a
    boolean in the natural order, the boolean below a tag by the type names,
    and the tag below the integer by the type names. *)
Lemma safe_key_lt_cycle :
  let lt := safe_key_lt (plain_lt order_heap) example_id order_heap in
  lt 1%positive 2%positive = true /\ lt 2%positive 3%positive = true
  /\ lt 3%positive 1%positive = true.
Proof. cbv zeta. split; [| split]; vm_compute; reflexivity. Qed.

End SortClaim.

(** * Further facts about the resolvers *)

Module ContextLookups.

Lemma first_name_of_id_unique (items : list (Z * json)) ctx_id ctx_name :
  NoDup items.*1 -> In (ctx_id, ctx_name) items ->
  first_name_of_id ctx_id items = Some ctx_name.
Proof.
  induction items as [|[i n] rest IH]; simpl; [intros _ [] |].
  intros Hnd Hin. apply NoDup_cons in Hnd as [Hi Hnd].
  destruct (Z.eqb_spec i ctx_id) as [-> | Hne].
  - destruct Hin as [[= ->] | Hin]; [reflexivity |].
    destruct Hi. apply list_elem_of_In in Hin.
    now apply (list_elem_of_fmap_2 fst) in Hin.
  - destruct Hin as [[= ? ?] | Hin]; [congruence |]. now apply IH.
Qed.

Lemma first_id_named_unique (items : list (Z * json)) ctx_id name :
  NoDup items.*2 -> In (ctx_id, JStr name) items ->
  first_id_named name items = Some ctx_id.
Proof.
  induction items as [|[i n] rest IH]; simpl; [intros _ [] |].
  intros Hnd Hin. apply NoDup_cons in Hnd as [Hn Hnd].
  destruct (name_eq n name) eqn:E.
  - apply LookupFacts.name_eq_iff in E as ->.
    destruct Hin as [[= ->] | Hin]; [reflexivity |].
    destruct Hn. apply list_elem_of_In in Hin.
    now apply (list_elem_of_fmap_2 snd) in Hin.
  - destruct Hin as [[= ? ?] | Hin]; [| now apply IH].
    subst n. assert (name_eq (JStr name) name = true)
      by now apply LookupFacts.name_eq_iff.
    congruence.
Qed.

Lemma first_name_of_id_some (items : list (Z * json)) ctx_id ctx_name :
  first_name_of_id ctx_id items = Some ctx_name -> In (ctx_id, ctx_name) items.
Proof.
  induction items as [|[i n] rest IH]; simpl; [discriminate |].
  destruct (Z.eqb_spec i ctx_id) as [-> | Hne].
  - intros [= ->]. now left.
  - intros H. right. now apply IH.
Qed.

(** X1: a name other than the reserved one that [find_context_id_by_name]
    resolves to an id is the name [find_context_name_by_id] gives back for
    that id, when no two containers of the file share an id. *)
Theorem context_name_of_resolved_id (f : containers_file) (name : string)
    (ctx_id : Z) :
  NoDup (yielded (read_user_contexts f)).*1 ->
  name <> USER_CONTEXT_WEB_EXT ->
  find_context_id_by_name f name = Ok ctx_id ->
  find_context_name_by_id f ctx_id = Ok (JStr name).
Proof.
  intros Hnd Hname. unfold find_context_id_by_name, find_context_name_by_id.
  destruct (first_id_named name (yielded (read_user_contexts f)))
    as [n|] eqn:E.
  - intros [= ->]. apply LookupFacts.first_id_named_some in E.
    now rewrite (first_name_of_id_unique _ _ _ Hnd E).
  - apply String.eqb_neq in Hname. rewrite Hname.
    now destruct (ending (read_user_contexts f)).
Qed.

Lemma context_name_of_resolved_id_witness :
  find_context_name_by_id
    (FileJson (JObj [("version", JInt 4);
                     ("identities", JArr [personal_v4; bad_id])])) 1
  = Ok (JStr "personal").
Proof.
  apply (context_name_of_resolved_id _ "personal" 1).
  - vm_compute. repeat constructor. set_solver.
  - discriminate.
  - reflexivity.
Defined.

Lemma context_id_of_name (f : containers_file) (name : string) (ctx_id : Z) :
  NoDup (yielded (read_user_contexts f)).*2 ->
  find_context_name_by_id f ctx_id = Ok (JStr name) ->
  find_context_id_by_name f name = Ok ctx_id.
Proof.
  intros Hnd. unfold find_context_id_by_name, find_context_name_by_id.
  destruct (first_name_of_id ctx_id (yielded (read_user_contexts f)))
    as [n|] eqn:E.
  - intros [= ->]. apply first_name_of_id_some in E.
    now rewrite (first_id_named_unique _ _ _ Hnd E).
  - now destruct (ending (read_user_contexts f)).
Qed.

(** X2: the name [find_context_name_by_id] gives for an id resolves back
    to that id, when no two containers of the file share a name. *)
Theorem context_id_of_resolved_name (f : containers_file) (name : string)
    (ctx_id : Z) :
  NoDup (yielded (read_user_contexts f)).*2 ->
  find_context_name_by_id f ctx_id = Ok (JStr name) ->
  find_context_id_by_name f name = Ok ctx_id.
Proof. apply context_id_of_name. Qed.

Lemma context_id_of_resolved_name_witness :
  find_context_id_by_name
    (FileJson (JObj [("version", JInt 4);
                     ("identities", JArr [personal_v4; bad_id])])) "personal"
  = Ok 1.
Proof.
  apply (context_id_of_resolved_name _ "personal" 1).
  - vm_compute. repeat constructor. set_solver.
  - reflexivity.
Defined.

(** Two containers with one id: the name of the second resolves to the id,
    and the id to the name of the first. *)
Lemma shared_id_breaks_roundtrip :
  let f := FileJson (JObj [("version", JInt 5);
             ("identities",
              JArr [JObj [("userContextId", JInt 1); ("name", JStr "a")];
                    JObj [("userContextId", JInt 1); ("name", JStr "b")]])]) in
  find_context_id_by_name f "b" = Ok 1
  /\ find_context_name_by_id f 1 = Ok (JStr "a").
Proof. split; reflexivity. Qed.

(** X3: under version 4 an [l10nID] of the form [userContext<C><rest>.<tail>]
    gives the name [<c><rest>]: the segment before the first dot without
    its prefix, its first character in lower case and the others as they
    are. *)
Theorem name_v4_strips_prefix (c : ascii) (rest tail : string) :
  PyStr.has_char "." (String c rest) = false ->
  name_v4 (JStr ("userContext" +:+ String c rest +:+ "." +:+ tail))
  = Ok (JStr (String (PyStr.lower_char c) rest)).
Proof.
  intros Hdot. apply ResolverFacts.name_v4_prefixed. unfold first_segment.
  rewrite <- PyStrFacts.append_assoc.
  change ("." +:+ tail) with (String "." EmptyString +:+ tail).
  rewrite PyStrFacts.partition_after; [reflexivity |].
  rewrite PyStrFacts.has_char_app, Hdot. reflexivity.
Qed.

Lemma name_v4_strips_prefix_witness :
  name_v4 (JStr ("userContext" +:+ String "W" "orkStuff" +:+ "." +:+ "label"))
  = Ok (JStr "workStuff").
Proof. apply (name_v4_strips_prefix "W" "orkStuff" "label"). reflexivity. Defined.

End ContextLookups.

(** * Further facts about strings *)

Module StrFacts.
Import PyStr PyStrFacts.

Lemma startswith_split p s :
  startswith p s = true -> s = p +:+ drop (String.length p) s.
Proof.
  revert s. induction p as [|a p IH]; intros s; [reflexivity |].
  destruct s as [|b s]; simpl; [discriminate |].
  intros H. apply andb_true_iff in H as [Hab Hp].
  apply Ascii.eqb_eq in Hab as ->. rewrite app_cons. f_equal. now apply IH.
Qed.

Lemma partition_split sep s before after :
  partition sep s = Some (before, after) -> s = before +:+ sep +:+ after.
Proof.
  revert before. induction s as [|c s IH]; intros before;
    unfold partition; fold partition.
  - destruct (startswith sep EmptyString) eqn:E; [| discriminate].
    intros [= <- <-]. rewrite app_nil. now apply startswith_split.
  - destruct (startswith sep (String c s)) eqn:E.
    + intros [= <- <-]. rewrite app_nil. now apply startswith_split.
    + destruct (partition sep s) as [[b a] |]; [| discriminate].
      intros [= <- <-]. rewrite app_cons. f_equal. now apply IH.
Qed.

Lemma contains_split sep s :
  contains sep s = true ->
  exists before after, partition sep s = Some (before, after).
Proof.
  unfold contains. destruct (partition sep s) as [[b a] |]; [eauto | discriminate].
Qed.

(** Replacing a character removes it. *)
Lemma has_char_replaced c new s :
  c <> new -> has_char c (replace c new s) = false.
Proof.
  intros Hne. induction s as [|x s IH]; simpl; [reflexivity |].
  rewrite IH, orb_false_r.
  destruct (Ascii.eqb_spec x c) as [-> | Hx].
  - apply Ascii.eqb_neq. congruence.
  - now apply Ascii.eqb_neq.
Qed.

Lemma has_char_uint c (d : Decimal.uint) :
  digit_value c = None -> has_char c (NilEmpty.string_of_uint d) = false.
Proof.
  intros Hc. induction d; cbn [NilEmpty.string_of_uint has_char];
    [reflexivity | ..]; rewrite IHd, orb_false_r;
    apply Ascii.eqb_neq; intros <-; discriminate Hc.
Qed.

(** [str(n)] holds digits and at most a sign. *)
Lemma has_char_str_of_int c (n : Z) :
  digit_value c = None -> c <> "-"%char -> has_char c (str_of_int n) = false.
Proof.
  intros Hc Hm. unfold str_of_int, NilZero.string_of_int.
  destruct (Z.to_int n) as [d | d].
  - destruct d; try apply (has_char_uint c _ Hc).
    cbn [NilZero.string_of_uint has_char]. rewrite orb_false_r.
    apply Ascii.eqb_neq. intros <-. discriminate Hc.
  - cbn [has_char]. apply orb_false_iff. split.
    + apply Ascii.eqb_neq. congruence.
    + destruct d; try apply (has_char_uint c _ Hc).
      cbn [NilZero.string_of_uint has_char]. rewrite orb_false_r.
      apply Ascii.eqb_neq. intros <-. discriminate Hc.
Qed.

Lemma str_of_int_nonempty (n : Z) : str_of_int n <> EmptyString.
Proof.
  intros E. pose proof (IntFacts.int_str_of_int n) as H. rewrite E in H.
  discriminate H.
Qed.

End StrFacts.

(** * The command line: contexts, sites and listings *)

Module CliFacts.
Import PyStr PyStrFacts StrFacts Codec Cli CliAux.

(** A [--userctx] value that [int] accepts is the context id itself,
    whatever [containers.json] holds: a container whose name reads as a
    number cannot be chosen by its name. *)
Lemma resolve_userctx_numeric (f : containers_file) (text : string)
    (ctx_id : Z) :
  PyStr.int text = Some ctx_id ->
  resolve_userctx f (Some text) = Ok ctx_id.
Proof.
  intros H. destruct text as [|c text]; [discriminate H |].
  unfold resolve_userctx. now rewrite H.
Qed.

Lemma resolve_userctx_numeric_name :
  resolve_userctx (one_container 7 "2") (Some "2") = Ok 2
  /\ find_context_id_by_name (one_container 7 "2") "2" = Ok 7.
Proof. split; reflexivity. Qed.

(** X4: a context id written as [str] writes it is taken by [--userctx]
    as that id, whatever the id is and whatever [containers.json] holds,
    be it missing or broken: the file is not consulted. *)
Theorem resolve_userctx_of_id (f : containers_file) (ctx_id : Z) :
  resolve_userctx f (Some (str_of_int ctx_id)) = Ok ctx_id.
Proof. apply resolve_userctx_numeric, IntFacts.int_str_of_int. Qed.

Lemma resolve_userctx_some (f : containers_file) (text : string) :
  text <> EmptyString ->
  resolve_userctx f (Some text)
  = match PyStr.int text with
    | Some ctx_id => Ok ctx_id
    | None => find_context_id_by_name f text
    end.
Proof. now destruct text. Qed.

Lemma plus_all_clean (s : string) :
  has_char ":" s = false -> has_char "/" s = false -> plus_all s = s.
Proof.
  intros Hc Hs. unfold plus_all.
  now rewrite (replace_absent ":"), (replace_absent "/").
Qed.

Lemma has_char_plus_all c (s : string) :
  c = ":"%char \/ c = "/"%char -> has_char c (plus_all s) = false.
Proof.
  unfold plus_all. intros [-> | ->].
  - apply has_char_replace; [discriminate |].
    apply has_char_replaced. discriminate.
  - apply has_char_replaced. discriminate.
Qed.

(** X5: the directory name built for [--site] holds neither [:] nor [/],
    whatever the site and the context id are: it is a single path
    component. *)
Theorem site_name_single_component (site : string) (ctx_id : Z) :
  has_char ":" (site_name site ctx_id) = false
  /\ has_char "/" (site_name site ctx_id) = false.
Proof.
  assert (H : forall c, c = ":"%char \/ c = "/"%char ->
                        has_char c (site_name site ctx_id) = false).
  { intros c Hc. unfold site_name. fold (plus_all site).
    destruct (ctx_id =? 0); [now apply has_char_plus_all |].
    rewrite !has_char_app, (has_char_plus_all c site Hc).
    rewrite has_char_str_of_int
      by (destruct Hc as [-> | ->]; first [reflexivity | discriminate]).
    now destruct Hc as [-> | ->]. }
  split; apply H; [now left | now right].
Qed.

Lemma plus_all_netloc (scheme netloc : string) :
  has_char ":" netloc = false -> has_char "/" netloc = false ->
  plus_all (if String.eqb scheme "file" then replace "+" "/" netloc
            else replace "+" ":" netloc)
  = netloc.
Proof.
  intros Hc Hs. unfold plus_all. destruct (String.eqb scheme "file").
  - rewrite (replace_absent ":") by (now apply has_char_replace).
    now apply replace_undo.
  - rewrite replace_undo by assumption. now apply replace_absent.
Qed.

(** The origin printed for an encoded origin without [:] and [/] encodes
    back to it. *)
Lemma split_origin_plus_all (encoded_origin : string) :
  has_char ":" encoded_origin = false -> has_char "/" encoded_origin = false ->
  contains "+++" encoded_origin = true ->
  exists origin, split_origin encoded_origin = Ok origin
    /\ plus_all (origin.1 +:+ "://" +:+ origin.2) = encoded_origin.
Proof.
  intros Hc Hs Hp. destruct (contains_split _ _ Hp) as (scheme & netloc & E).
  unfold split_origin, split1. rewrite E. eexists. split; [reflexivity |].
  apply partition_split in E. subst encoded_origin.
  rewrite !has_char_app in Hc, Hs.
  apply orb_false_iff in Hc as [Hc1 Hc2]. apply orb_false_iff in Hc2 as [_ Hc2].
  apply orb_false_iff in Hs as [Hs1 Hs2]. apply orb_false_iff in Hs2 as [_ Hs2].
  cbn [fst snd]. rewrite !CodecFacts.plus_all_app, plus_all_clean by assumption.
  now rewrite plus_all_netloc.
Qed.

(** X6: a directory without a context marker, without [:] and [/] and
    holding [+++] is listed with a site that names it again: the site of
    its line, given to [--site] without [--userctx], leads back to the
    directory. *)
Theorem relisted_plain_directory (f : containers_file) (name : string) :
  contains CTX_MARKER name = false ->
  has_char ":" name = false -> has_char "/" name = false ->
  contains "+++" name = true ->
  relisted f name = Ok name.
Proof.
  intros Hm Hc Hs Hp.
  destruct (split_origin_plus_all name Hc Hs Hp) as (origin & Eo & Eback).
  unfold relisted, site_listing_entry, split_ctx.
  rewrite Hm, (partition_absent_contains _ _ Hm). cbn [bind]. rewrite Eo.
  cbn [bind listing_flags truthy String.eqb negb fst snd].
  unfold site_directory, resolve_userctx. cbn [bind]. unfold site_name.
  fold (plus_all (origin.1 +:+ "://" +:+ origin.2)). now rewrite Eback.
Qed.

Lemma relisted_plain_directory_witness :
  relisted FileMissing "https+++example.org+8080" = Ok "https+++example.org+8080"
  /\ relisted FileMissing "file++++home+user+page.html"
     = Ok "file++++home+user+page.html".
Proof.
  split; apply relisted_plain_directory; reflexivity.
Defined.

Lemma split_ctx_marker (encoded_origin text : string) :
  contains CTX_MARKER encoded_origin = false ->
  split_ctx (encoded_origin +:+ CTX_MARKER +:+ text) = (encoded_origin, text)
  /\ contains CTX_MARKER (encoded_origin +:+ CTX_MARKER +:+ text) = true.
Proof.
  intros Hm.
  assert (E : partition CTX_MARKER (encoded_origin +:+ CTX_MARKER +:+ text)
              = Some (encoded_origin, text)).
  { apply (partition_after_absent "^" "userContextId="); [reflexivity | exact Hm]. }
  unfold split_ctx, contains. now rewrite E.
Qed.

(** X7: a directory whose context id is not the default is listed with
    flags that name it again, when the part before the marker has no [:],
    no [/] and a [+++], the id is written as [str] writes it, and either
    no container has the id, or the container that has it carries a name
    that is a non-empty string, that [int] rejects and that no other
    container carries. *)
Theorem relisted_container_directory (f : containers_file)
    (encoded_origin : string) (ctx_id : Z) :
  contains CTX_MARKER encoded_origin = false ->
  has_char ":" encoded_origin = false -> has_char "/" encoded_origin = false ->
  contains "+++" encoded_origin = true ->
  ctx_id <> 0 ->
  NoDup (yielded (read_user_contexts f)).*2 ->
  (find_context_name_by_id f ctx_id = Raise KeyError
   \/ exists name, find_context_name_by_id f ctx_id = Ok (JStr name)
                   /\ name <> EmptyString /\ PyStr.int name = None) ->
  relisted f (encoded_origin +:+ CTX_MARKER +:+ str_of_int ctx_id)
  = Ok (encoded_origin +:+ CTX_MARKER +:+ str_of_int ctx_id).
Proof.
  intros Hm Hc Hs Hp Hid Hnd Hname.
  destruct (split_origin_plus_all encoded_origin Hc Hs Hp)
    as (origin & Eo & Eback).
  destruct (split_ctx_marker encoded_origin (str_of_int ctx_id) Hm)
    as [Esplit Econt].
  assert (Esite : site_name (origin.1 +:+ "://" +:+ origin.2) ctx_id
                  = encoded_origin +:+ CTX_MARKER +:+ str_of_int ctx_id).
  { unfold site_name. fold (plus_all (origin.1 +:+ "://" +:+ origin.2)).
    rewrite Eback. apply Z.eqb_neq in Hid. now rewrite Hid. }
  unfold relisted, site_listing_entry. rewrite Esplit, Econt.
  rewrite IntFacts.int_str_of_int.
  destruct Hname as [Eunknown | (name & Eknown & Hne & Hint)].
  - rewrite Eunknown. cbn [bind]. rewrite Eo. cbn [bind listing_flags truthy].
    assert (Et : String.eqb (str_of_int ctx_id) EmptyString = false)
      by (apply String.eqb_neq, str_of_int_nonempty).
    rewrite Et. cbn [negb bind fst snd]. unfold site_directory.
    rewrite (resolve_userctx_some f), IntFacts.int_str_of_int
      by apply str_of_int_nonempty.
    cbn [bind]. now rewrite Esite.
  - rewrite Eknown. cbn [bind]. rewrite Eo. cbn [bind listing_flags truthy].
    apply String.eqb_neq in Hne as Et. rewrite Et. cbn [negb bind fst snd].
    unfold site_directory. rewrite (resolve_userctx_some f), Hint by assumption.
    rewrite (ContextLookups.context_id_of_name _ _ _ Hnd Eknown).
    cbn [bind]. now rewrite Esite.
Qed.

Lemma relisted_container_directory_witness :
  relisted (one_container 3 "work")
    ("https+++example.org" +:+ CTX_MARKER +:+ str_of_int 3)
  = Ok ("https+++example.org" +:+ CTX_MARKER +:+ str_of_int 3)
  /\ relisted (one_container 3 "work")
       ("https+++example.org" +:+ CTX_MARKER +:+ str_of_int 9)
     = Ok ("https+++example.org" +:+ CTX_MARKER +:+ str_of_int 9).
Proof.
  assert (Hnd : NoDup (yielded (read_user_contexts (one_container 3 "work"))).*2).
  { vm_compute. repeat constructor. set_solver. }
  split; apply relisted_container_directory;
    try reflexivity; try discriminate; try exact Hnd.
  - right. exists "work". split; [reflexivity |]. split; [discriminate | reflexivity].
  - now left.
Defined.

(** Where the listing does not lead back: the id [0] written out, an id
    not written as [str] writes it, and a container whose name reads as a
    number. *)
Lemma relisted_elsewhere :
  relisted FileMissing "https+++example.org^userContextId=0"
  = Ok "https+++example.org"
  /\ relisted FileMissing "https+++example.org^userContextId=03"
     = Ok "https+++example.org^userContextId=3"
  /\ relisted (one_container 3 "7") "https+++example.org^userContextId=3"
     = Ok "https+++example.org^userContextId=7".
Proof. repeat split; reflexivity. Qed.

(** X8: a directory that holds [+++] only after the context marker stops
    the listing: the part before the marker does not split into a scheme
    and a host, and the exception, a [ValueError] when [int] rejects the
    text after the marker, leaves the loop. *)
Theorem listing_raises_without_origin (f : containers_file)
    (encoded_origin text : string) :
  contains CTX_MARKER encoded_origin = false ->
  contains "+++" encoded_origin = false ->
  exists e,
    site_listing_entry f (encoded_origin +:+ CTX_MARKER +:+ text) = Raise e
    /\ (PyStr.int text = None -> e = ValueError).
Proof.
  intros Hm Hp. destruct (split_ctx_marker encoded_origin text Hm) as [Es Ec].
  assert (Eo : split_origin encoded_origin = Raise ValueError).
  { unfold split_origin, split1.
    now rewrite (partition_absent_contains _ _ Hp). }
  unfold site_listing_entry. rewrite Es, Ec, Eo.
  destruct (PyStr.int text) as [n|].
  - destruct (find_context_name_by_id f n) as [found | e].
    + exists ValueError. split; [reflexivity | discriminate].
    + destruct e; eexists; (split; [reflexivity | discriminate]).
  - exists ValueError. now split.
Qed.

Lemma listing_raises_without_origin_witness :
  listed ("x" +:+ CTX_MARKER +:+ "a+++b") = true
  /\ exists e,
       site_listing_entry FileMissing ("x" +:+ CTX_MARKER +:+ "a+++b") = Raise e
       /\ (PyStr.int "a+++b" = None -> e = ValueError).
Proof.
  split; [reflexivity |].
  apply (listing_raises_without_origin FileMissing "x" "a+++b"); reflexivity.
Defined.

(** X9: the directory name of an extension is the one [--site] builds
    for [moz-extension://<uuid>] in the same context. *)
Theorem origin_label_is_site_name (ext_uuid : string) (ctx_id : Z) :
  has_char ":" ext_uuid = false -> has_char "/" ext_uuid = false ->
  origin_label ext_uuid ctx_id
  = site_name ("moz-extension://" +:+ ext_uuid) ctx_id.
Proof.
  intros Hc Hs. unfold origin_label, site_name.
  fold (plus_all ("moz-extension://" +:+ ext_uuid)).
  now rewrite CodecFacts.plus_all_app, (plus_all_clean ext_uuid).
Qed.

Lemma origin_label_is_site_name_witness :
  origin_label "11111111-2222-3333-4444-555555555555" 4294967295
  = site_name "moz-extension://11111111-2222-3333-4444-555555555555" 4294967295.
Proof.
  apply (origin_label_is_site_name "11111111-2222-3333-4444-555555555555");
    reflexivity.
Defined.

Section Extension.

Variable decode_utf8 : string -> option string.
Variable json_loads_bytes : string -> option json.
Variable json_loads : string -> option json.
Variable str_of : json -> string.

Lemma extension_label_default (f : containers_file) (prefs : Prefs.prefs_file)
    (extension uuid : string) :
  Prefs.find_uuid_in_profile decode_utf8 json_loads_bytes json_loads prefs
    extension = Ok (JStr uuid) ->
  (forall e, ending (read_user_contexts f) <> Crashed e) ->
  (forall ctx_id,
     ~ In (ctx_id, JStr USER_CONTEXT_WEB_EXT) (yielded (read_user_contexts f))) ->
  extension_label decode_utf8 json_loads_bytes json_loads str_of f prefs
    extension None
  = Ok (Some ("moz-extension+++" +:+ uuid +:+ "^userContextId=4294967295"))
  /\ extension_label decode_utf8 json_loads_bytes json_loads str_of f prefs
       extension (Some EmptyString)
     = Ok (Some ("moz-extension+++" +:+ uuid)).
Proof.
  intros Huuid Hend Hnone. unfold extension_label.
  cbn [resolve_userctx bind]. rewrite Huuid. cbn [bind fstring]. split.
  - unfold find_context_id_by_name.
    rewrite (proj2 (LookupFacts.first_id_named_none _ _) Hnone).
    destruct (ending (read_user_contexts f)) as [| e | e] eqn:E;
      try (now destruct (Hend e)); reflexivity.
  - reflexivity.
Qed.

End Extension.

(** X10: with a UUID on record for the extension and no container of the
    reserved name in a [containers.json] that is read without an
    exception, [--extension] without [--userctx] names the directory of
    the context 4294967295, and [--userctx] with an empty value the
    directory of the default context, without a suffix. *)
Theorem extension_default_context decode_utf8 json_loads_bytes json_loads
    str_of (f : containers_file) (prefs : Prefs.prefs_file)
    (extension uuid : string) :
  Prefs.find_uuid_in_profile decode_utf8 json_loads_bytes json_loads prefs
    extension = Ok (JStr uuid) ->
  (forall e, ending (read_user_contexts f) <> Crashed e) ->
  (forall ctx_id,
     ~ In (ctx_id, JStr USER_CONTEXT_WEB_EXT) (yielded (read_user_contexts f))) ->
  extension_label decode_utf8 json_loads_bytes json_loads str_of f prefs
    extension None
  = Ok (Some ("moz-extension+++" +:+ uuid +:+ "^userContextId=4294967295"))
  /\ extension_label decode_utf8 json_loads_bytes json_loads str_of f prefs
       extension (Some EmptyString)
     = Ok (Some ("moz-extension+++" +:+ uuid)).
Proof. apply extension_label_default. Qed.

Lemma extension_default_context_witness :
  extension_label Some loads_bytes_example loads_example (fun _ => EmptyString)
    FileMissing (Prefs.PrefsLines [uuids_pref]) "ext@example.com" None
  = Ok (Some ("moz-extension+++" +:+ "11111111-2222-3333-4444-555555555555"
              +:+ "^userContextId=4294967295"))
  /\ extension_label Some loads_bytes_example loads_example
       (fun _ => EmptyString)
       FileMissing (Prefs.PrefsLines [uuids_pref]) "ext@example.com"
       (Some EmptyString)
     = Ok (Some ("moz-extension+++" +:+ "11111111-2222-3333-4444-555555555555")).
Proof.
  apply extension_default_context;
    [reflexivity | discriminate | intros ctx_id []].
Defined.

End CliFacts.

(** * The preferences file *)

Module PrefsFacts.
Import PyStr PyStrFacts StrFacts Prefs CliAux.

Lemma skip_spaces_split (line : string) :
  exists ws, line = ws +:+ skip_spaces line /\ all_space ws = true.
Proof.
  induction line as [|c s (ws & E & Hws)].
  - now exists EmptyString.
  - cbn [skip_spaces]. destruct (re_space c) eqn:Hc.
    + exists (String c ws). rewrite app_cons, <- E. split; [reflexivity |].
      cbn [all_space]. now rewrite Hc.
    + now exists EmptyString.
Qed.

Lemma skip_spaces_app (ws : string) c (s : string) :
  all_space ws = true -> re_space c = false ->
  skip_spaces (ws +:+ String c s) = String c s.
Proof.
  intros Hws Hc. induction ws as [|x ws IH].
  - rewrite app_nil. cbn [skip_spaces]. now rewrite Hc.
  - cbn [all_space] in Hws. apply andb_true_iff in Hws as [Hx Hws].
    rewrite app_cons. cbn [skip_spaces]. rewrite Hx. now apply IH.
Qed.

Lemma until_close_unfold (s : string) :
  until_close s
  = if startswith ");" s then Some EmptyString
    else match s with
         | String c s' =>
             if Ascii.eqb c newline then None else String c <$> until_close s'
         | EmptyString => None
         end.
Proof. now destruct s. Qed.

Lemma until_close_sound (s v : string) :
  until_close s = Some v ->
  exists tail, s = v +:+ ");" +:+ tail /\ has_char newline v = false.
Proof.
  revert v. induction s as [|c s IH]; intros v; rewrite until_close_unfold.
  - discriminate.
  - destruct (startswith ");" (String c s)) eqn:E.
    + intros [= <-]. apply startswith_split in E. eauto.
    + destruct (Ascii.eqb c newline) eqn:Hc; [discriminate |].
      destruct (until_close s) as [v'|]; [| discriminate].
      intros [= <-]. destruct (IH v' eq_refl) as (tail & -> & Hv).
      exists tail. split; [reflexivity |]. cbn [has_char]. now rewrite Hc.
Qed.

Lemma value_group_sound (s v : string) :
  value_group s = Some v ->
  exists tail, s = v +:+ ");" +:+ tail /\ group v.
Proof.
  destruct s as [|c s]; [discriminate |]. unfold value_group.
  destruct (Ascii.eqb c newline) eqn:Hc; [discriminate |].
  destruct (until_close s) as [v'|] eqn:E; [| discriminate].
  intros [= <-]. destruct (until_close_sound _ _ E) as (tail & -> & Hv).
  exists tail. split; [reflexivity |]. split; [discriminate |].
  cbn [has_char]. now rewrite Hc.
Qed.

Lemma after_comma_sound (s v : string) :
  after_comma s = Some v ->
  exists ws tail,
    s = ws +:+ v +:+ ");" +:+ tail /\ all_space ws = true /\ group v.
Proof.
  induction s as [|c s IH]; [discriminate |]. cbn [after_comma].
  assert (Hhere : value_group (String c s) = Some v ->
                  exists ws tail,
                    String c s = ws +:+ v +:+ ");" +:+ tail
                    /\ all_space ws = true /\ group v).
  { intros E. destruct (value_group_sound _ _ E) as (tail & Es & Hv).
    exists EmptyString, tail. now rewrite app_nil. }
  destruct (re_space c) eqn:Hc; [| exact Hhere].
  destruct (after_comma s) as [v'|]; [| exact Hhere].
  intros [= <-]. destruct (IH eq_refl) as (ws & tail & -> & Hws & Hv).
  exists (String c ws), tail. split; [reflexivity |]. split; [| exact Hv].
  cbn [all_space]. now rewrite Hc.
Qed.

Lemma name_group_sound q (s k v : string) :
  name_group q s = Some (k, v) ->
  exists ws tail,
    s = k +:+ String q ("," +:+ ws +:+ v +:+ ");" +:+ tail)
    /\ group k /\ all_space ws = true /\ group v.
Proof.
  revert k. induction s as [|c s IH]; intros k; [discriminate |].
  cbn [name_group]. destruct (Ascii.eqb c newline) eqn:Hc; [discriminate |].
  assert (Hlonger :
    match name_group q s with
    | Some (k', v') => Some (String c k', v')
    | None => None
    end = Some (k, v) ->
    exists ws tail,
      String c s = k +:+ String q ("," +:+ ws +:+ v +:+ ");" +:+ tail)
      /\ group k /\ all_space ws = true /\ group v).
  { destruct (name_group q s) as [[k' v']|]; [| discriminate].
    intros [= <- <-].
    destruct (IH k' eq_refl) as (ws & tail & -> & [_ Hk] & Hws & Hv).
    exists ws, tail. split; [reflexivity |]. split; [| now split].
    split; [discriminate |]. cbn [has_char]. now rewrite Hc. }
  destruct s as [|q' [|x rest]]; try exact Hlonger.
  destruct (Ascii.eqb_spec x ","%char) as [-> | Hx].
  2:{ destruct x as [[] [] [] [] [] [] [] []]; try exact Hlonger.
      now destruct Hx. }
  destruct (Ascii.eqb_spec q' q) as [-> | _]; [| exact Hlonger].
  destruct (after_comma rest) as [v'|] eqn:E; [| exact Hlonger].
  intros [= <- <-].
  destruct (after_comma_sound _ _ E) as (ws & tail & -> & Hws & Hv).
  exists ws, tail. split; [reflexivity |]. split; [| now split].
  split; [discriminate |]. cbn [has_char]. now rewrite Hc.
Qed.

Lemma user_pref_re_sound (line k v : string) :
  USER_PREF_RE line = Some (k, v) ->
  exists ws1 q ws2 tail,
    line = pref_line ws1 q k ws2 v tail
    /\ all_space ws1 = true /\ is_quote q /\ all_space ws2 = true
    /\ group k /\ group v.
Proof.
  unfold USER_PREF_RE.
  destruct (skip_spaces_split line) as (ws1 & Eline & Hws1).
  destruct (startswith "user_pref(" (skip_spaces line)) eqn:Ep; [| discriminate].
  apply startswith_split in Ep.
  change (String.length "user_pref(") with 10%nat in Ep.
  destruct (drop 10 (skip_spaces line)) as [|q s] eqn:Ed; [discriminate |].
  destruct (Ascii.eqb q dquote || Ascii.eqb q "'") eqn:Eq; [| discriminate].
  intros E. destruct (name_group_sound _ _ _ _ E)
    as (ws2 & tail & -> & Hk & Hws2 & Hv).
  exists ws1, q, ws2, tail. unfold pref_line.
  split; [rewrite Ep in Eline; exact Eline |].
  split; [exact Hws1 |]. split; [| split; [exact Hws2 | split; assumption]].
  apply orb_true_iff in Eq as [Eq | Eq]; apply Ascii.eqb_eq in Eq;
    [now left | now right].
Qed.

Lemma until_close_whole (rest tail : string) :
  has_char newline rest = false -> contains ");" rest = false ->
  until_close (rest +:+ ");" +:+ tail) = Some rest.
Proof.
  induction rest as [|x r IH]; intros Hn Hc.
  - rewrite app_nil, until_close_unfold. now rewrite startswith_app.
  - cbn [has_char] in Hn. apply orb_false_iff in Hn as [Hx Hn].
    apply contains_false in Hc as [Hsw Hc].
    rewrite app_cons, until_close_unfold.
    assert (E : startswith ");" (String x (r +:+ ");" +:+ tail)) = false).
    { destruct r as [|y r']; [| exact Hsw].
      rewrite app_nil. cbn [startswith].
      change (Ascii.eqb ";" ")") with false. now rewrite andb_false_r. }
    rewrite E, Hx, (IH Hn Hc). reflexivity.
Qed.

Lemma after_comma_whole (ws2 v tail : string) :
  all_space ws2 = true -> group v -> whole_value v ->
  after_comma (ws2 +:+ v +:+ ");" +:+ tail) = Some v.
Proof.
  intros Hws [_ Hn] Hv. destruct v as [|c rest]; [destruct Hv |].
  destruct Hv as [Hc Hrest]. cbn [has_char] in Hn.
  apply orb_false_iff in Hn as [Hcn Hn].
  assert (Ev : value_group (String c rest +:+ ");" +:+ tail)
               = Some (String c rest)).
  { rewrite app_cons. unfold value_group.
    now rewrite Hcn, (until_close_whole _ _ Hn Hrest). }
  induction ws2 as [|x ws IH].
  - rewrite app_nil. rewrite app_cons in *. cbn [after_comma].
    now rewrite Hc.
  - cbn [all_space] in Hws. apply andb_true_iff in Hws as [Hx Hws].
    rewrite app_cons. cbn [after_comma]. now rewrite Hx, (IH Hws).
Qed.

Lemma name_group_whole q (k rest v : string) :
  group k -> has_char q k = false -> after_comma rest = Some v ->
  name_group q (k +:+ String q (String "," rest)) = Some (k, v).
Proof.
  intros [Hne Hn] Hq Hrest. induction k as [|c k IH]; [now destruct Hne |].
  cbn [has_char] in Hn, Hq.
  apply orb_false_iff in Hn as [Hcn Hn]. apply orb_false_iff in Hq as [Hcq Hq].
  rewrite app_cons. cbn [name_group]. rewrite Hcn.
  destruct k as [|d k'].
  - rewrite app_nil. now rewrite Ascii.eqb_refl, Hrest.
  - rewrite IH by (try discriminate; assumption).
    rewrite app_cons. cbn [has_char] in Hq.
    apply orb_false_iff in Hq as [Hdq _]. rewrite Hdq.
    now destruct (k' +:+ String q (String "," rest)) as [|[[] [] [] [] [] [] [] []] ?].
Qed.

Lemma user_pref_re_whole (ws1 : string) q (k ws2 v tail : string) :
  all_space ws1 = true -> is_quote q -> group k -> has_char q k = false ->
  all_space ws2 = true -> group v -> whole_value v ->
  USER_PREF_RE (pref_line ws1 q k ws2 v tail) = Some (k, v).
Proof.
  intros Hws1 Hquote Hk Hqk Hws2 Hv Hwhole. unfold USER_PREF_RE, pref_line.
  change ("user_pref(" +:+ ?s) with (String "u" ("ser_pref(" +:+ s)).
  rewrite skip_spaces_app by (assumption || reflexivity).
  change (String "u" ("ser_pref(" +:+ ?s)) with ("user_pref(" +:+ s).
  rewrite startswith_app.
  change 10%nat with (String.length "user_pref("). rewrite drop_app.
  assert (Eq : Ascii.eqb q dquote || Ascii.eqb q "'" = true).
  { destruct Hquote as [-> | ->]; reflexivity. }
  rewrite Eq. change ("," +:+ ?s) with (String "," s).
  apply name_group_whole; [assumption .. |].
  now apply after_comma_whole.
Qed.

(** X11: a line that [USER_PREF_RE] matches has the form of a preference:
    blanks, [user_pref(], a quote, a name, the same quote, a comma,
    blanks, a value, [);]; the groups are the name and the value, neither
    empty nor holding a newline. *)
Theorem user_pref_match_shape (line k v : string) :
  USER_PREF_RE line = Some (k, v) ->
  exists ws1 q ws2 tail,
    line = pref_line ws1 q k ws2 v tail
    /\ all_space ws1 = true /\ is_quote q /\ all_space ws2 = true
    /\ group k /\ group v.
Proof. apply user_pref_re_sound. Qed.

Lemma user_pref_match_shape_witness :
  exists ws1 q ws2 tail,
    " user_pref('a.b',  true); // note"
    = pref_line ws1 q "a.b" ws2 "true" tail
    /\ all_space ws1 = true /\ is_quote q /\ all_space ws2 = true
    /\ group "a.b" /\ group "true".
Proof.
  apply (user_pref_match_shape " user_pref('a.b',  true); // note").
  reflexivity.
Defined.

(** X12: a line of the form of a preference is matched with its name and
    its value as the groups, when the name does not hold its quote and
    the value starts with no blank and holds [);] nowhere after its first
    character. *)
Theorem user_pref_line_matched (ws1 : string) (q : ascii)
    (name ws2 value tail : string) :
  all_space ws1 = true -> is_quote q ->
  group name -> has_char q name = false ->
  all_space ws2 = true -> group value -> whole_value value ->
  USER_PREF_RE (pref_line ws1 q name ws2 value tail) = Some (name, value).
Proof. apply user_pref_re_whole. Qed.

Lemma user_pref_line_matched_witness :
  USER_PREF_RE uuids_pref
  = Some ("extensions.webextensions.uuids", uuids_value).
Proof.
  apply user_pref_line_matched; try reflexivity; try (now left);
    try (split; [discriminate | reflexivity]).
  split; reflexivity.
Defined.

(** Where the groups are not the name and the value of the line: a value
    that holds [);] is cut there, and a name that holds its quote and a
    comma ends there. *)
Lemma user_pref_groups_cut :
  USER_PREF_RE "user_pref('a', 'f(x);');" = Some ("a", "'f(x")
  /\ USER_PREF_RE "user_pref('a',b', 1);" = Some ("a", "b', 1").
Proof. split; reflexivity. Qed.

Section Read.

Variable decode_utf8 : string -> option string.
Variable json_loads_bytes : string -> option json.
Variable json_loads : string -> option json.

Lemma prefs_loop_app (l1 l2 : list string) :
  prefs_loop decode_utf8 json_loads_bytes (l1 ++ l2)
  = prefs_loop decode_utf8 json_loads_bytes l1
    ++ prefs_loop decode_utf8 json_loads_bytes l2.
Proof.
  induction l1 as [|line l1 IH]; [reflexivity |]. cbn [app prefs_loop].
  destruct (read_line decode_utf8 json_loads_bytes line); rewrite IH;
    reflexivity.
Qed.

Lemma prefs_loop_passed_over (lines : list string) :
  Forall (passed_over decode_utf8 json_loads_bytes json_loads) lines ->
  Forall (skipped json_loads) (prefs_loop decode_utf8 json_loads_bytes lines).
Proof.
  induction 1 as [|line lines Hline _ IH]; [constructor |].
  cbn [prefs_loop].
  destruct (read_line decode_utf8 json_loads_bytes line) as [| | k v] eqn:E;
    try exact IH.
  constructor; [now apply Hline | exact IH].
Qed.

Lemma find_uuid_in_lines (before after : list string) (ws1 : string)
    (q : ascii) (ws2 value tail text : string) (uuids : list (string * json))
    (ext_id : string) :
  Forall (passed_over decode_utf8 json_loads_bytes json_loads) before ->
  all_space ws1 = true -> is_quote q -> all_space ws2 = true ->
  group value -> whole_value value ->
  decode_utf8 "extensions.webextensions.uuids"
  = Some "extensions.webextensions.uuids" ->
  json_loads_bytes value = Some (JStr text) ->
  json_loads text = Some (JObj uuids) ->
  find_uuid_in_profile decode_utf8 json_loads_bytes json_loads
    (PrefsLines
       (before
        ++ pref_line ws1 q "extensions.webextensions.uuids" ws2 value tail
        :: after))
    ext_id
  = Ok (default JNull (Py.dict_lookup ext_id uuids)).
Proof.
  intros Hbefore Hws1 Hq Hws2 Hv Hwhole Hname Hvalue Htext.
  unfold find_uuid_in_profile, read_user_prefs. cbn [ending yielded].
  rewrite prefs_loop_app. cbn [prefs_loop]. unfold read_line.
  rewrite user_pref_re_whole; try assumption.
  - rewrite Hname, Hvalue.
    rewrite LookupFacts.find_uuid_skip by now apply prefs_loop_passed_over.
    cbn [find_uuid_by_ext_id String.eqb Ascii.eqb Bool.eqb loads_value].
    now rewrite Htext.
  - split; [discriminate | reflexivity].
  - destruct Hq as [-> | ->]; reflexivity.
Qed.

End Read.

(** X13: the UUID of an extension is read off the first line of
    [prefs.js] that gives the preference [extensions.webextensions.uuids]
    a string holding a JSON map: the lines before it yield nothing, or
    another preference, or this one with a string that is no JSON; the
    result is the value the map has for the extension id, [None] without
    one; the lines after it play no part. *)
Theorem find_uuid_in_prefs_file decode_utf8 json_loads_bytes json_loads
    (before after : list string) (ws1 : string) (q : ascii)
    (ws2 value tail text : string) (uuids : list (string * json))
    (ext_id : string) :
  Forall (passed_over decode_utf8 json_loads_bytes json_loads) before ->
  all_space ws1 = true -> is_quote q -> all_space ws2 = true ->
  group value -> whole_value value ->
  decode_utf8 "extensions.webextensions.uuids"
  = Some "extensions.webextensions.uuids" ->
  json_loads_bytes value = Some (JStr text) ->
  json_loads text = Some (JObj uuids) ->
  find_uuid_in_profile decode_utf8 json_loads_bytes json_loads
    (PrefsLines
       (before
        ++ pref_line ws1 q "extensions.webextensions.uuids" ws2 value tail
        :: after))
    ext_id
  = Ok (default JNull (Py.dict_lookup ext_id uuids)).
Proof. apply find_uuid_in_lines. Qed.

Lemma find_uuid_in_prefs_file_witness :
  find_uuid_in_profile Some loads_bytes_example loads_example
    (PrefsLines
       (["// Mozilla User Preferences";
         "user_pref('browser.startup.page', 3);";
         "user_pref('extensions.webextensions.uuids', {);"]
        ++ pref_line EmptyString dquote "extensions.webextensions.uuids" " "
             uuids_value (String newline EmptyString)
        :: ["user_pref('extensions.webextensions.uuids', 3);"]))
    "ext@example.com"
  = Ok (default JNull
          (Py.dict_lookup "ext@example.com"
             [("ext@example.com",
               JStr "11111111-2222-3333-4444-555555555555")])).
Proof.
  apply (find_uuid_in_prefs_file Some loads_bytes_example loads_example
           _ _ _ _ _ _ _ uuids_text);
    try reflexivity; try (now left).
  - repeat constructor; intros k v H; vm_compute in H;
      try discriminate H.
    injection H as <- <-. intros E. discriminate E.
  - split; [discriminate | reflexivity].
  - split; reflexivity.
Defined.

End PrefsFacts.

(** * The default profile and the databases of a site *)

Module ProfileFacts.
Import Profile CliAux.

Section Dir.

Variable joinpath : string -> string -> string.

Lemma find_default_profile_dir_skip (mozdir : string) (s : section)
    (rest : list section) :
  unmarked s ->
  find_default_profile_dir joinpath mozdir (s :: rest)
  = find_default_profile_dir joinpath mozdir rest.
Proof.
  destruct s as [name options]. intros Hs. cbn [find_default_profile_dir].
  destruct (PyStr.startswith "Profile" name) eqn:Ep; [| reflexivity].
  cbn [negb].
  destruct (option_value "path" options) as [path|] eqn:Epath;
    [| reflexivity].
  destruct (option_value "default" options) as [d|] eqn:Ed; [| reflexivity].
  destruct (String.eqb_spec d "1") as [-> | _]; [| reflexivity].
  destruct (Hs path). repeat split; assumption.
Qed.

Lemma find_default_profile_dir_first_marked (mozdir : string)
    (before : list section) (s : section) (path : string)
    (after : list section) :
  Forall unmarked before -> marks_default s path ->
  find_default_profile_dir joinpath mozdir (before ++ s :: after)
  = Some (joinpath mozdir path).
Proof.
  intros Hbefore (Hp & Hpath & Hd).
  induction Hbefore as [|t before Ht _ IH].
  - destruct s as [name options]. cbn [fst snd] in *.
    cbn [app find_default_profile_dir]. now rewrite Hp, Hpath, Hd.
  - cbn [app]. now rewrite find_default_profile_dir_skip.
Qed.

Lemma find_default_profile_dir_unmarked (mozdir : string)
    (sections : list section) :
  Forall unmarked sections ->
  find_default_profile_dir joinpath mozdir sections = None.
Proof.
  induction 1 as [|t rest Ht _ IH]; [reflexivity |].
  now rewrite find_default_profile_dir_skip.
Qed.

End Dir.

(** X14: the default profile is the path of the first section of
    [profiles.ini] whose name starts with [Profile] and that has a [path]
    and a [default] equal to [1], below the directory of the platform;
    sections before it that lack one of these are passed over, the
    sections after it play no part, and without such a section there is
    no default profile. *)
Theorem find_default_profile_dir_first joinpath (mozdir : string)
    (before : list section) (s : section) (path : string)
    (after : list section) :
  Forall unmarked before -> marks_default s path ->
  find_default_profile_dir joinpath mozdir (before ++ s :: after)
  = Some (joinpath mozdir path)
  /\ find_default_profile_dir joinpath mozdir before = None.
Proof.
  intros Hbefore Hs. split.
  - now apply find_default_profile_dir_first_marked.
  - now apply find_default_profile_dir_unmarked.
Qed.

Lemma find_default_profile_dir_first_witness :
  find_default_profile_dir (fun d p => d +:+ "/" +:+ p) "/home/u/.mozilla/firefox"
    ([("General", [("startwithlastprofile", "1")]);
      ("Profile1", [("name", "old"); ("path", "abc.old"); ("default", "0")]);
      ("Install4F96", [("default", "1"); ("path", "abc.other")]);
      ("Profile2", [("name", "nowhere"); ("default", "1")])]
     ++ ("Profile0", [("name", "main"); ("path", "xyz.main"); ("default", "1")])
     :: [("Profile3", [("path", "later"); ("default", "1")])])
  = Some ("/home/u/.mozilla/firefox" +:+ "/" +:+ "xyz.main")
  /\ find_default_profile_dir (fun d p => d +:+ "/" +:+ p)
       "/home/u/.mozilla/firefox"
       [("General", [("startwithlastprofile", "1")]);
        ("Profile1", [("name", "old"); ("path", "abc.old"); ("default", "0")]);
        ("Install4F96", [("default", "1"); ("path", "abc.other")]);
        ("Profile2", [("name", "nowhere"); ("default", "1")])]
     = None.
Proof.
  apply (find_default_profile_dir_first (fun d p => d +:+ "/" +:+ p)
           "/home/u/.mozilla/firefox" _ _ "xyz.main").
  - repeat constructor; intros path (Hp & Hpath & Hd); discriminate.
  - repeat split; reflexivity.
Defined.

End ProfileFacts.

Module StorageFacts.
Import Storage CliAux.

Section Discover.

Variable get_name : string -> option string.

Lemma discover_idbs_snoc (names : list string) (db_path : string) :
  discover_idbs get_name (names ++ [db_path])
  = if negb (endswith ".sqlite" db_path) then discover_idbs get_name names
    else match get_name db_path with
         | Some db_name => <[db_name := db_path]> (discover_idbs get_name names)
         | None => discover_idbs get_name names
         end.
Proof. unfold discover_idbs. now rewrite foldl_app. Qed.

Lemma discover_idbs_step (names : list string) (db_path db_name : string) :
  discover_idbs get_name (names ++ [db_path]) !! db_name
  = if bool_decide (names_db get_name db_path db_name) then Some db_path
    else discover_idbs get_name names !! db_name.
Proof.
  rewrite discover_idbs_snoc. unfold names_db.
  destruct (endswith ".sqlite" db_path); cbn [negb].
  - destruct (get_name db_path) as [n|].
    + destruct (decide (n = db_name)) as [-> | Hne].
      * rewrite lookup_insert_eq. now rewrite bool_decide_eq_true_2.
      * rewrite lookup_insert_ne by assumption.
        rewrite bool_decide_eq_false_2; [reflexivity |].
        intros [_ ?]. congruence.
    + rewrite bool_decide_eq_false_2; [reflexivity |].
      intros [_ ?]. discriminate.
  - rewrite bool_decide_eq_false_2; [reflexivity |].
    intros [? _]. discriminate.
Qed.

Lemma discover_idbs_last (names : list string) (db_name db_path : string) :
  discover_idbs get_name names !! db_name = Some db_path <->
  exists before after,
    names = before ++ db_path :: after
    /\ names_db get_name db_path db_name
    /\ Forall (fun p => ~ names_db get_name p db_name) after.
Proof.
  induction names as [|x names IH] using rev_ind.
  - split; [discriminate |]. intros (before & after & E & _).
    now destruct before.
  - rewrite discover_idbs_step. case_bool_decide as Hx.
    + split.
      * intros [= ->]. exists names, [].
        split; [reflexivity | split; [exact Hx | constructor]].
      * intros (before & after & E & Hn & Hafter).
        destruct after as [|y after _] using rev_ind.
        { apply app_inj_tail in E as [_ ->]. reflexivity. }
        rewrite app_comm_cons, app_assoc in E.
        apply app_inj_tail in E as [_ ->].
        apply Forall_app in Hafter as [_ Hy].
        apply Forall_cons in Hy as [Hy _]. now destruct Hy.
    + rewrite IH. split.
      * intros (before & after & -> & Hn & Hafter).
        exists before, (after ++ [x]). split; [now rewrite <- app_assoc |].
        split; [exact Hn |]. apply Forall_app. split; [exact Hafter |].
        now repeat constructor.
      * intros (before & after & E & Hn & Hafter).
        destruct after as [|y after _] using rev_ind.
        { apply app_inj_tail in E as [_ ->]. now destruct Hx. }
        rewrite app_comm_cons, app_assoc in E.
        apply app_inj_tail in E as [-> ->].
        apply Forall_app in Hafter as [Hafter _].
        exists before, after. split; [reflexivity | split; assumption].
Qed.

End Discover.

(** X15: [discover_idbs] maps a database name to a file exactly when the
    file is the last one in the listing of the directory that ends in
    [.sqlite] and holds a database of that name: files with another
    ending and databases without a name are left out, and of two files
    with one database name the later one stays. *)
Theorem discover_idbs_lookup get_name (names : list string)
    (db_name db_path : string) :
  discover_idbs get_name names !! db_name = Some db_path <->
  exists before after,
    names = before ++ db_path :: after
    /\ names_db get_name db_path db_name
    /\ Forall (fun p => ~ names_db get_name p db_name) after.
Proof. apply discover_idbs_last. Qed.

Lemma discover_idbs_lookup_witness :
  discover_idbs example_get_name
    ["1.sqlite"; "notes.txt"; "2.sqlite"; "3.sqlite"] !! "db"
  = Some "2.sqlite".
Proof.
  apply (proj2 (discover_idbs_lookup example_get_name _ _ _)).
  exists ["1.sqlite"; "notes.txt"], ["3.sqlite"].
  split; [reflexivity |]. split; [split; reflexivity |].
  repeat constructor. intros [_ H]. discriminate H.
Defined.

End StorageFacts.

(** * Further facts about the printer *)

Module PrinterFlags.
Import Printer PrinterAux PrinterShapes.

Lemma repr_each_Forall (f : handle -> gset Z -> option (outcome * gset Z))
    (P : string * bool * bool -> Prop) objects c l c' :
  restoring f ->
  (forall y rep rd rc c1,
     y ∈ objects -> f y c = Some (Return rep rd rc, c1) -> P (rep, rd, rc)) ->
  repr_each f objects c = Some (Ok l, c') -> Forall P l.
Proof.
  intros Hf. revert l c'.
  induction objects as [|o rest IH]; intros l c' HP; cbn [repr_each].
  - intros [= <- _]. constructor.
  - destruct (f o c) as [[[rep rd rc | e] c1] |] eqn:Ef; try discriminate.
    assert (c1 = c) as -> by (eapply Hf; [exact Ef | exact I]).
    destruct (repr_each f rest c) as [[[l1 | e] c2] |] eqn:Er;
      try discriminate.
    intros [= <- _]. constructor.
    + eapply HP; [left | exact Ef].
    + eapply IH; [| reflexivity].
      intros y rep' rd' rc' c3 Hy. apply HP. now right.
Qed.

Lemma flags_unreadable (l : list (string * bool * bool)) :
  Forall (fun t => recursive_of t = true -> readable_of t = false) l ->
  existsb recursive_of l = true -> forallb readable_of l = false.
Proof.
  induction 1 as [|t l Ht _ IH]; cbn [existsb forallb]; [discriminate |].
  intros H. apply orb_true_iff in H as [H | H].
  - now rewrite (Ht H).
  - rewrite (IH H). apply andb_false_r.
Qed.

Lemma flags_not_recursive (l : list (string * bool * bool)) :
  Forall (fun t => recursive_of t = false) l -> existsb recursive_of l = false.
Proof.
  induction 1 as [|t l Ht _ IH]; cbn [existsb]; [reflexivity |].
  now rewrite Ht, IH.
Qed.

Section Run.

Variable float_repr : spec_float -> string.
Variable natural_lt : handle -> handle -> option bool.
Variable id_of : handle -> Z.
Variable h : heap.

Abbreviation safe_repr := (_safe_repr float_repr natural_lt id_of h).
Abbreviation select := (select float_repr natural_lt id_of h).

Lemma select_done_flags o sd rep rd rc :
  select o sd = Done (Return rep rd rc) -> rc = false.
Proof.
  destruct o as [| s | items | conn | elems | elems | cls cls_str r];
    cbn [Printer.select].
  - now intros [= _ _ <-].
  - destruct (json_dumps float_repr s); [now intros [= _ _ <-] | discriminate].
  - unfold mapping_branch. case_bool_decide; [now intros [= _ _ <-] | discriminate].
  - unfold mapping_branch. case_bool_decide; [now intros [= _ _ <-] | discriminate].
  - case_bool_decide; [now intros [= _ _ <-] | discriminate].
  - repeat case_bool_decide; try discriminate. now intros [= _ _ <-].
  - now intros [= _ _ <-].
Qed.

Lemma recursive_unreadable fuel x c ml lvl sd rep rd c' :
  safe_repr fuel x c ml lvl sd = Some (Return rep rd true, c') -> rd = false.
Proof.
  revert x c lvl rep rd c'.
  induction fuel as [|fuel IH]; intros x c lvl rep rd c'; [discriminate |].
  rewrite PrinterFacts.safe_repr_S.
  destruct (select (h !!! x) sd) as [out | children components format] eqn:Es.
  - intros [= -> _]. now apply select_done_flags in Es.
  - unfold descend. destruct (depth_reached ml lvl); [now intros [= _ <- _] |].
    case_bool_decide; [now intros [= _ <- _] |].
    destruct (repr_each _ children ({[id_of x]} ∪ c)) as [[[l | e] c1] |] eqn:Er;
      try discriminate.
    intros [= _ <- Hrec _]. apply flags_unreadable; [| exact Hrec].
    eapply repr_each_Forall; [apply PrinterFacts.safe_repr_restoring | | exact Er].
    intros y rep' rd' rc' c2 _ Ey. unfold recursive_of, readable_of.
    cbn [fst snd]. intros ->. eapply IH. exact Ey.
Qed.

Lemma reach_trans x y z : reach h x y -> reach h y z -> reach h x z.
Proof.
  induction 1 as [| x y' w Hc _ IH]; [trivial |].
  intros Hz. eapply reach_below; [exact Hc | now apply IH].
Qed.

Lemma reach_child x y z :
  reach h x y -> z ∈ children_of (h !!! y) -> reach h x z.
Proof.
  intros Hxy Hz. eapply reach_trans; [exact Hxy |].
  eapply reach_below; [exact Hz | constructor].
Qed.

Lemma no_marker_without_cycle fuel x c ml lvl sd rep rd rc c' :
  distinct_ids id_of ->
  (forall y, reach h x y -> id_of y ∉ c) ->
  acyclic_below h x ->
  safe_repr fuel x c ml lvl sd = Some (Return rep rd rc, c') -> rc = false.
Proof.
  intros Hinj. revert x c lvl rep rd rc c'.
  induction fuel as [|fuel IH]; intros x c lvl rep rd rc c' Hc Hacyc;
    [discriminate |].
  rewrite PrinterFacts.safe_repr_S.
  assert (Hx : id_of x ∉ c) by (apply Hc; constructor).
  destruct (select (h !!! x) sd) as [out | children components format] eqn:Es.
  - intros [= -> _]. now apply select_done_flags in Es.
  - unfold descend. rewrite (bool_decide_eq_false_2 _ Hx).
    destruct (depth_reached ml lvl); [now intros [= _ _ <- _] |].
    destruct (repr_each _ children ({[id_of x]} ∪ c)) as [[[l | e] c1] |] eqn:Er;
      try discriminate.
    intros [= _ _ <- _]. apply flags_not_recursive.
    eapply repr_each_Forall; [apply PrinterFacts.safe_repr_restoring | | exact Er].
    intros y rep' rd' rc' c2 Hy Ey. unfold recursive_of. cbn [snd].
    assert (Hchild : y ∈ children_of (h !!! x))
      by (eapply ProjectionFacts.loop_children; eassumption).
    eapply IH; [| | exact Ey].
    + intros z Hz. apply not_elem_of_union. split.
      * apply not_elem_of_singleton. intros E. apply Hinj in E. subst z.
        apply (Hacyc x y); [constructor | exact Hchild | exact Hz].
      * apply Hc. eapply reach_below; eassumption.
    + intros y' z Hy' Hz. apply Hacyc; [| exact Hz].
      eapply reach_below; eassumption.
Qed.

Lemma context_free fuel x c ml lvl sd :
  (forall y, reach h x y -> id_of y ∉ c) ->
  fst <$> safe_repr fuel x c ml lvl sd = fst <$> safe_repr fuel x ∅ ml lvl sd.
Proof.
  intros Hc.
  pose proof (ProjectionFacts.safe_repr_widen float_repr natural_lt id_of h
                fuel x ∅ c ml lvl sd Hc) as E.
  rewrite (left_id_L ∅ (∪)) in E. rewrite E.
  now destruct (safe_repr fuel x ∅ ml lvl sd) as [[out c1] |].
Qed.

(** An order on the objects under which every object is above those it
    refers to shows that there is no cycle. *)
Lemma ranked_acyclic (rank : handle -> nat) x :
  (forall y z, z ∈ children_of (h !!! y) -> (rank z < rank y)%nat) ->
  acyclic_below h x.
Proof.
  intros Hrank.
  assert (Hle : forall a b, reach h a b -> (rank b <= rank a)%nat).
  { induction 1 as [| a b' w Hcb _ IH]; [lia |].
    pose proof (Hrank _ _ Hcb). lia. }
  intros y z _ Hz Hzy. pose proof (Hrank _ _ Hz). pose proof (Hle _ _ Hzy). lia.
Qed.

End Run.

End PrinterFlags.

Module PrinterExtras.
Import Printer PrinterAux PrinterShapes.

(** X16: a triple that [_safe_repr] returns as recursive is not readable,
    at whatever depth the recursion marker lies. *)
Theorem safe_repr_recursive_unreadable float_repr natural_lt id_of (h : heap)
    fuel x c ml lvl sd rep rd c' :
  _safe_repr float_repr natural_lt id_of h fuel x c ml lvl sd
  = Some (Return rep rd true, c') ->
  rd = false.
Proof. apply PrinterFlags.recursive_unreadable. Qed.

Lemma safe_repr_recursive_unreadable_witness :
  exists rep rd,
    _safe_repr example_float_repr (plain_lt mutual_heap) example_id
      mutual_heap 4 3%positive ∅ None 0 true
    = Some (Return rep rd true, ∅)
    /\ rd = false.
Proof.
  assert (E : _safe_repr example_float_repr (plain_lt mutual_heap) example_id
                mutual_heap 4 3%positive ∅ None 0 true
              = Some (Return
                        ("[[[<Recursion on list with id=1016>]], "
                         +:+ "[[<Recursion on list with id=1032>]]]")
                        false true, ∅))
    by (vm_compute; reflexivity).
  eexists _, _. split; [exact E |].
  exact (safe_repr_recursive_unreadable _ _ _ _ _ _ _ _ _ _ _ _ _ E).
Defined.

(** X17: the recursive flag is raised for cycles only.  When different
    objects have different identities, the context holds the identity of
    nothing found below the object, and nothing below the object refers
    to an object it is found below, the triple returned is not recursive:
    an object that occurs twice without a cycle gets no marker, with or
    without a depth limit. *)
Theorem safe_repr_marks_cycles_only float_repr natural_lt id_of (h : heap)
    fuel x c ml lvl sd rep rd rc c' :
  distinct_ids id_of ->
  (forall y, reach h x y -> id_of y ∉ c) ->
  acyclic_below h x ->
  _safe_repr float_repr natural_lt id_of h fuel x c ml lvl sd
  = Some (Return rep rd rc, c') ->
  rc = false.
Proof. apply PrinterFlags.no_marker_without_cycle. Qed.

Lemma shared_heap_acyclic : acyclic_below shared_heap 1%positive.
Proof.
  apply (PrinterFlags.ranked_acyclic shared_heap
           (fun y => match y with
                     | 1%positive => 2 | 2%positive => 1 | _ => 0
                     end)%nat).
  intros y z Hz.
  destruct y as [[y | y |] | [y | y |] |]; vm_compute in Hz;
    repeat (apply elem_of_cons in Hz as [-> | Hz]);
    try (now apply elem_of_nil in Hz); lia.
Qed.

Lemma safe_repr_marks_cycles_only_witness :
  exists rep rd rc,
    _safe_repr example_float_repr (plain_lt shared_heap) example_id
      shared_heap 3 1%positive ∅ (Some 2) 0 true
    = Some (Return rep rd rc, ∅)
    /\ rc = false.
Proof.
  assert (E : _safe_repr example_float_repr (plain_lt shared_heap) example_id
                shared_heap 3 1%positive ∅ (Some 2) 0 true
              = Some (Return "[[7], [7]]" true false, ∅))
    by (vm_compute; reflexivity).
  eexists _, _, _. split; [exact E |].
  refine (safe_repr_marks_cycles_only _ _ _ _ _ _ _ _ _ _ _ _ _ _ _ _ _ E).
  - exact SortClaim.example_id_inj.
  - intros y _. apply not_elem_of_empty.
  - exact shared_heap_acyclic.
Defined.

(** X18: the outcome does not depend on a context that holds the
    identity of nothing found below the object: it is the outcome from
    the empty context. *)
Theorem safe_repr_context_irrelevant float_repr natural_lt id_of (h : heap)
    fuel x c ml lvl sd :
  (forall y, reach h x y -> id_of y ∉ c) ->
  fst <$> _safe_repr float_repr natural_lt id_of h fuel x c ml lvl sd
  = fst <$> _safe_repr float_repr natural_lt id_of h fuel x ∅ ml lvl sd.
Proof. apply PrinterFlags.context_free. Qed.

Lemma safe_repr_context_irrelevant_witness :
  fst <$> _safe_repr example_float_repr (plain_lt cyclic_heap) example_id
            cyclic_heap 3 1%positive {[7]} None 0 true
  = fst <$> _safe_repr example_float_repr (plain_lt cyclic_heap) example_id
              cyclic_heap 3 1%positive ∅ None 0 true.
Proof.
  apply safe_repr_context_irrelevant.
  intros y _. apply not_elem_of_singleton. unfold example_id. lia.
Defined.

End PrinterExtras.

(** * Sorted items do not depend on the order of insertion *)

Module OrderFacts.
Import Printer PrinterAux PrinterShapes.

Section Sorting.

Context {A : Type} (lt : A -> A -> bool) (K : A -> Prop).

Hypothesis lt_irrefl : forall a, K a -> lt a a = false.
Hypothesis lt_trans :
  forall a b c, K a -> K b -> K c ->
                lt a b = true -> lt b c = true -> lt a c = true.
Hypothesis lt_total :
  forall a b, K a -> K b -> a <> b -> lt a b = true \/ lt b a = true.

Lemma insert_sorted_perm (x : A) (l : list A) : insert_sorted lt x l ≡ₚ x :: l.
Proof.
  induction l as [|y l IH]; cbn [insert_sorted]; [reflexivity |].
  destruct (lt x y); [reflexivity |]. rewrite IH. apply Permutation_swap.
Qed.

Lemma fold_insert_perm (l acc : list A) :
  fold_left (fun acc x => insert_sorted lt x acc) l acc ≡ₚ l ++ acc.
Proof.
  revert acc. induction l as [|x l IH]; intros acc; cbn [fold_left];
    [reflexivity |].
  rewrite IH, insert_sorted_perm. cbn [app]. now rewrite <- Permutation_middle.
Qed.

Lemma sorted_perm (l : list A) : sorted lt l ≡ₚ l.
Proof. unfold sorted. now rewrite fold_insert_perm, app_nil_r. Qed.

Lemma insert_sorted_strongly (x : A) (l : list A) :
  K x -> Forall K l -> x ∉ l ->
  strongly_sorted lt l -> strongly_sorted lt (insert_sorted lt x l).
Proof.
  intros Hx. induction l as [|y l IH]; intros HK Hnot Hs;
    cbn [insert_sorted].
  - repeat constructor.
  - apply Forall_cons in HK as [Hy HK].
    apply not_elem_of_cons in Hnot as [Hne Hnot].
    destruct Hs as [Hall Hs].
    destruct (lt x y) eqn:E.
    + split; [| now split]. constructor; [exact E |].
      rewrite Forall_forall in Hall, HK |- *. intros z Hz.
      apply (lt_trans x y z); auto.
    + split; [| now apply IH].
      rewrite Forall_forall in Hall |- *. intros z Hz.
      apply ProjectionFacts.elem_insert_sorted in Hz as [-> | Hz]; [| auto].
      destruct (lt_total x y Hx Hy Hne) as [H | H]; [congruence | exact H].
Qed.

Lemma fold_insert_strongly (l acc : list A) :
  Forall K (l ++ acc) -> NoDup (l ++ acc) -> strongly_sorted lt acc ->
  strongly_sorted lt (fold_left (fun acc x => insert_sorted lt x acc) l acc).
Proof.
  revert acc. induction l as [|x l IH]; intros acc HK Hnd Hs;
    cbn [fold_left]; [exact Hs |].
  cbn [app] in HK, Hnd. apply Forall_cons in HK as [Hx HK].
  apply NoDup_cons in Hnd as [Hnot Hnd].
  apply Forall_app in HK as [HKl HKacc].
  apply IH.
  - apply Forall_app. split; [exact HKl |].
    rewrite Forall_forall in HKacc |- *. intros z Hz.
    apply ProjectionFacts.elem_insert_sorted in Hz as [-> | Hz]; auto.
  - rewrite insert_sorted_perm, <- Permutation_middle.
    now constructor.
  - apply insert_sorted_strongly; try assumption.
    intros Hin. apply Hnot. apply elem_of_app. now right.
Qed.

Lemma sorted_strongly (l : list A) :
  Forall K l -> NoDup l -> strongly_sorted lt (sorted lt l).
Proof.
  intros HK Hnd. apply fold_insert_strongly; rewrite ?app_nil_r;
    [assumption .. | exact I].
Qed.

Lemma strongly_sorted_unique (l1 l2 : list A) :
  Forall K l1 -> strongly_sorted lt l1 -> strongly_sorted lt l2 ->
  l1 ≡ₚ l2 -> l1 = l2.
Proof.
  revert l2. induction l1 as [|a l1 IH]; intros l2 HK Hs1 Hs2 Hp.
  - now apply Permutation_nil_l in Hp.
  - destruct l2 as [|b l2]; [now apply Permutation_nil_r in Hp |].
    apply Forall_cons in HK as [Ha HK].
    destruct Hs1 as [Hall1 Hs1]. destruct Hs2 as [Hall2 Hs2].
    assert (Hb : K b).
    { assert (Hin : b ∈ a :: l1) by (rewrite Hp; left).
      apply elem_of_cons in Hin as [-> | Hin]; [exact Ha |].
      rewrite Forall_forall in HK. auto. }
    assert (a = b) as <-.
    { assert (Hin1 : a ∈ b :: l2) by (rewrite <- Hp; left).
      assert (Hin2 : b ∈ a :: l1) by (rewrite Hp; left).
      apply elem_of_cons in Hin1 as [? | Hin1]; [assumption |].
      apply elem_of_cons in Hin2 as [? | Hin2]; [congruence |].
      rewrite Forall_forall in Hall1, Hall2.
      pose proof (Hall1 _ Hin2) as Hab. pose proof (Hall2 _ Hin1) as Hba.
      pose proof (lt_trans a b a Ha Hb Ha Hab Hba) as Haa.
      rewrite lt_irrefl in Haa by assumption. discriminate. }
    f_equal. apply IH; try assumption. now apply Permutation_cons_inv in Hp.
Qed.

Lemma sorted_perm_eq (l1 l2 : list A) :
  Forall K l1 -> NoDup l1 -> l1 ≡ₚ l2 -> sorted lt l1 = sorted lt l2.
Proof.
  intros HK Hnd Hp. apply strongly_sorted_unique.
  - rewrite Forall_forall in HK |- *. intros z Hz. apply HK.
    now apply ProjectionFacts.elem_sorted in Hz.
  - now apply sorted_strongly.
  - apply sorted_strongly; [now rewrite <- Hp | now rewrite <- Hp].
  - now rewrite !sorted_perm.
Qed.

End Sorting.

Lemma repr_each_ext (f g : handle -> gset Z -> option (outcome * gset Z))
    objects c :
  (forall o c, f o c = g o c) ->
  repr_each f objects c = repr_each g objects c.
Proof.
  intros Hfg. revert c. induction objects as [|o rest IH]; intros c;
    cbn [repr_each]; [reflexivity |].
  rewrite Hfg. destruct (g o c) as [[[rep rd rc | e] c1] |]; try reflexivity.
  now rewrite IH.
Qed.

Lemma descend_ext (f g : handle -> gset Z -> option (outcome * gset Z))
    o1 o2 objid children components format c ml lvl :
  (forall o c, f o c = g o c) -> type_name o1 = type_name o2 ->
  descend f o1 objid children components format c ml lvl
  = descend g o2 objid children components format c ml lvl.
Proof.
  intros Hfg Ho. unfold descend, _recursion. rewrite Ho.
  now rewrite (repr_each_ext f g _ _ Hfg).
Qed.

Lemma pair_of_key (l : list (handle * handle)) a b :
  NoDup l.*1 -> a ∈ l -> b ∈ l -> a.1 = b.1 -> a = b.
Proof.
  induction l as [|x l IH]; cbn [fmap list_fmap]; intros Hnd Ha Hb E.
  - now apply elem_of_nil in Ha.
  - apply NoDup_cons in Hnd as [Hx Hnd].
    apply elem_of_cons in Ha as [-> | Ha]; apply elem_of_cons in Hb as [-> | Hb].
    + reflexivity.
    + destruct Hx. rewrite E. now apply (list_elem_of_fmap_2 fst).
    + destruct Hx. rewrite <- E. now apply (list_elem_of_fmap_2 fst).
    + now apply IH.
Qed.

Section TwoHeaps.

Variable float_repr : spec_float -> string.
Variable natural_lt : handle -> handle -> option bool.
Variable id_of : handle -> Z.
Variables h1 h2 : heap.

Hypothesis heaps_same : forall y, same_up_to_order (h1 !!! y) (h2 !!! y).
Hypothesis keys_order : keys_ordered natural_lt id_of h1.

Lemma type_same y :
  type_str (h1 !!! y) = type_str (h2 !!! y)
  /\ type_name (h1 !!! y) = type_name (h2 !!! y).
Proof.
  pose proof (heaps_same y) as H.
  destruct (h1 !!! y), (h2 !!! y); cbn [same_up_to_order] in H;
    try discriminate H; try (split; reflexivity);
    inversion H; subst; split; reflexivity.
Qed.

Lemma safe_key_lt_same x y :
  safe_key_lt natural_lt id_of h1 x y = safe_key_lt natural_lt id_of h2 x y.
Proof.
  unfold safe_key_lt.
  now rewrite (proj1 (type_same x)), (proj1 (type_same y)).
Qed.

Lemma sorted_same (items : list (handle * handle)) :
  sorted (safe_tuple_lt natural_lt id_of h1) items
  = sorted (safe_tuple_lt natural_lt id_of h2) items.
Proof.
  apply SortFacts.sorted_ext. intros a b _ _. apply safe_key_lt_same.
Qed.

Lemma sorted_items_same y items1 items2 :
  h1 !!! y = Dict items1 -> items1 ≡ₚ items2 ->
  sorted (safe_tuple_lt natural_lt id_of h1) items1
  = sorted (safe_tuple_lt natural_lt id_of h2) items2.
Proof.
  intros Hy Hp. rewrite <- sorted_same.
  destruct (keys_order y items1 Hy) as (Hnd & Hirr & Htrans & Htot).
  apply (sorted_perm_eq _ (fun kv => kv ∈ items1)).
  - intros a Ha. apply Hirr. now apply (list_elem_of_fmap_2 fst).
  - intros a b c Ha Hb Hc.
    apply Htrans; now apply (list_elem_of_fmap_2 fst).
  - intros a b Ha Hb Hne.
    apply Htot; try now apply (list_elem_of_fmap_2 fst).
    intros E. apply Hne. now apply (pair_of_key items1).
  - now apply Forall_forall.
  - now apply NoDup_fmap_1 in Hnd.
  - exact Hp.
Qed.

Lemma select_same y :
  select float_repr natural_lt id_of h1 (h1 !!! y) true
  = select float_repr natural_lt id_of h2 (h2 !!! y) true.
Proof.
  pose proof (heaps_same y) as H.
  destruct (h1 !!! y) as [| s | items1 | conn | elems | elems | cls cs r] eqn:E1;
    destruct (h2 !!! y) as [| s2 | items2 | conn2 | elems2 | elems2 | cls2 cs2 r2];
    cbn [same_up_to_order] in H; try discriminate H;
    simplify_eq; try reflexivity.
  - cbn [select]. unfold mapping_branch.
    destruct (decide (items1 = [])) as [-> | Hne].
    + apply Permutation_nil_l in H. subst items2. reflexivity.
    + rewrite !bool_decide_eq_false_2; [| | exact Hne].
      * now rewrite (sorted_items_same y items1 items2 E1 H).
      * intros ->. now apply Permutation_nil_r in H.
  - cbn [select]. unfold mapping_branch. now rewrite sorted_same.
Qed.

Lemma safe_repr_order_free fuel x c ml lvl :
  _safe_repr float_repr natural_lt id_of h1 fuel x c ml lvl true
  = _safe_repr float_repr natural_lt id_of h2 fuel x c ml lvl true.
Proof.
  revert x c lvl. induction fuel as [|fuel IH]; intros x c lvl;
    [reflexivity |].
  rewrite !PrinterFacts.safe_repr_S, select_same.
  destruct (select float_repr natural_lt id_of h2 (h2 !!! x) true)
    as [out | children components format]; [reflexivity |].
  apply descend_ext; [| apply type_same].
  intros o c1. apply IH.
Qed.

End TwoHeaps.

End OrderFacts.

Module PrinterOrder.
Import Printer PrinterAux PrinterShapes.

(** X19: with [sort_dicts], the outcome does not depend on the order in
    which the items of a [dict] were inserted: two heaps whose objects
    are the same but for the order of the items of their [dict]s give
    the same outcome, when [_safe_key] puts a strict total order on the
    keys of every [dict], as it does on keys that are all strings or all
    numbers. *)
Theorem sorted_rendering_order_free float_repr natural_lt id_of
    (h1 h2 : heap) fuel x c ml lvl :
  (forall y, same_up_to_order (h1 !!! y) (h2 !!! y)) ->
  keys_ordered natural_lt id_of h1 ->
  _safe_repr float_repr natural_lt id_of h1 fuel x c ml lvl true
  = _safe_repr float_repr natural_lt id_of h2 fuel x c ml lvl true.
Proof. intros Hsame Hord. now apply OrderFacts.safe_repr_order_free. Qed.

Lemma ba_heap_same y : same_up_to_order (ba_heap !!! y) (ab_heap !!! y).
Proof.
  destruct y as [[[y | y |] | [y | y |] |] | [[y | y |] | [y | y |] |] |];
    vm_compute; try reflexivity.
  apply Permutation_swap.
Qed.

Lemma ba_heap_ordered : keys_ordered (plain_lt ba_heap) example_id ba_heap.
Proof.
  intros y items Hy.
  destruct y as [[[y | y |] | [y | y |] |] | [[y | y |] | [y | y |] |] |];
    vm_compute in Hy; try discriminate Hy.
  injection Hy as <-. cbn [fmap list_fmap fst].
  split; [repeat constructor; set_solver |].
  split; [| split].
  - intros a Ha. repeat (apply elem_of_cons in Ha as [-> | Ha]);
      [reflexivity | reflexivity | now apply elem_of_nil in Ha].
  - intros a b c Ha Hb Hc.
    repeat (apply elem_of_cons in Ha as [-> | Ha]);
      try (now apply elem_of_nil in Ha);
      repeat (apply elem_of_cons in Hb as [-> | Hb]);
      try (now apply elem_of_nil in Hb);
      repeat (apply elem_of_cons in Hc as [-> | Hc]);
      try (now apply elem_of_nil in Hc);
      vm_compute; congruence.
  - intros a b Ha Hb Hne.
    repeat (apply elem_of_cons in Ha as [-> | Ha]);
      try (now apply elem_of_nil in Ha);
      repeat (apply elem_of_cons in Hb as [-> | Hb]);
      try (now apply elem_of_nil in Hb);
      try (now destruct Hne);
      vm_compute; auto.
Qed.

Lemma sorted_rendering_order_free_witness :
  _safe_repr example_float_repr (plain_lt ba_heap) example_id ba_heap
    3 1%positive ∅ None 0 true
  = _safe_repr example_float_repr (plain_lt ba_heap) example_id ab_heap
      3 1%positive ∅ None 0 true.
Proof.
  apply sorted_rendering_order_free;
    [exact ba_heap_same | exact ba_heap_ordered].
Defined.

(** What both come to, and what the two heaps give without sorting. *)
Lemma order_example :
  _safe_repr example_float_repr (plain_lt ba_heap) example_id ab_heap
    3 1%positive ∅ None 0 true
  = Some (Return ("{" +:+ PyStr.quoted "a" +:+ ": 2, " +:+ PyStr.quoted "b"
                  +:+ ": 1}") true false, ∅)
  /\ _safe_repr example_float_repr (plain_lt ba_heap) example_id ba_heap
       3 1%positive ∅ None 0 false
     = Some (Return ("{" +:+ PyStr.quoted "b" +:+ ": 1, " +:+ PyStr.quoted "a"
                     +:+ ": 2}") true false, ∅).
Proof. split; vm_compute; reflexivity. Qed.

End PrinterOrder.

(** * The extensions of a profile *)

Module ExtensionFacts.
Import Extensions.

Lemma ext_loop_ok (addons : list json) (items : list (json * json)) :
  Forall2 (fun extension item => ext_info extension = Ok item) addons items ->
  ext_loop addons = Generated items Exhausted.
Proof.
  induction 1 as [|extension item addons items Hi _ IH]; [reflexivity |].
  cbn [ext_loop]. now rewrite Hi, IH.
Qed.

Lemma ext_loop_exhausted (addons : list json) :
  (forall e, ending (ext_loop addons) <> Crashed e) ->
  Forall2 (fun extension item => ext_info extension = Ok item)
    addons (yielded (ext_loop addons)).
Proof.
  induction addons as [|extension addons IH]; cbn [ext_loop]; [constructor |].
  destruct (ext_info extension) as [item | e] eqn:E.
  - cbn [yielded ending]. intros Hend. constructor; [exact E | now apply IH].
  - cbn [ending]. intros Hend. now destruct (Hend e).
Qed.

Lemma ext_loop_ending (addons : list json) :
  ending (ext_loop addons) = Exhausted
  \/ exists e, ending (ext_loop addons) = Crashed e.
Proof.
  induction addons as [|extension addons IH]; cbn [ext_loop]; [now left |].
  destruct (ext_info extension) as [item | e]; [exact IH |].
  right. now exists e.
Qed.

Lemma ext_loop_first_failure (before : list json) (bad : json)
    (after : list json) (e : exc) :
  Forall (fun extension => exists item, ext_info extension = Ok item) before ->
  ext_info bad = Raise e ->
  ending (ext_loop (before ++ bad :: after)) = Crashed e.
Proof.
  intros Hbefore Hbad.
  induction Hbefore as [|extension before [item Hi] _ IH]; cbn [app ext_loop].
  - now rewrite Hbad.
  - rewrite Hi. exact IH.
Qed.

(** X20: [--list-extensions] lists all the extensions or none.  The list
    handed to [sorted] exists exactly when [extensions.json] loads, has
    the schema version 36 and an [addons] that can be iterated, and every
    add-on has an [id] and a [defaultLocale] with a [name]; it then holds
    one pair for every add-on, in the order of the file.  The first
    add-on that lacks one of them makes the whole listing raise, whatever
    the add-ons before it were. *)
Theorem listed_extensions_all_or_nothing (f : containers_file) :
  (forall items,
     listed_extensions f = Ok items <->
     exists addons,
       ext_prologue f = Ok addons
       /\ Forall2 (fun extension item => ext_info extension = Ok item)
            addons items)
  /\ (forall before bad after e,
        ext_prologue f = Ok (before ++ bad :: after) ->
        Forall (fun extension => exists item, ext_info extension = Ok item)
          before ->
        ext_info bad = Raise e ->
        listed_extensions f = Raise e).
Proof.
  unfold listed_extensions, find_ext_info. split.
  - intros items. destruct (ext_prologue f) as [addons | e].
    + split.
      * destruct (ext_loop_ending addons) as [E | [e E]]; rewrite E;
          [| discriminate].
        intros [= <-]. exists addons. split; [reflexivity |].
        apply ext_loop_exhausted. intros e. rewrite E. discriminate.
      * intros (addons' & [= <-] & Hall). now rewrite (ext_loop_ok _ _ Hall).
    + cbn [ending]. split; [discriminate |].
      intros (addons & E & _). discriminate E.
  - intros before bad after e -> Hbefore Hbad.
    now rewrite (ext_loop_first_failure _ _ _ _ Hbefore Hbad).
Qed.

Lemma listed_extensions_all_or_nothing_witness :
  listed_extensions (CliAux.extensions_file [CliAux.addon_a; CliAux.addon_b])
  = Raise KeyError
  /\ listed_extensions (CliAux.extensions_file [CliAux.addon_a])
     = Ok [(JStr "a@example.com", JStr "A")].
Proof.
  split.
  - apply (proj2 (listed_extensions_all_or_nothing _)
             [CliAux.addon_a] CliAux.addon_b [] KeyError);
      [reflexivity | | reflexivity].
    repeat constructor. eexists. reflexivity.
  - apply (proj1 (listed_extensions_all_or_nothing _)).
    exists [CliAux.addon_a]. split; [reflexivity |]. repeat constructor.
Defined.

(** A file of another schema version, and one that holds no map. *)
Lemma listed_extensions_examples :
  listed_extensions
    (FileJson (JObj [("schemaVersion", JInt 35); ("addons", JArr [])]))
  = Raise AssertionError
  /\ listed_extensions (FileJson (JArr [])) = Raise AttributeError
  /\ listed_extensions FileMissing = Raise FileNotFoundError.
Proof. repeat split. Qed.

End ExtensionFacts.
